(** * The glif_psc point-neuron model of NEST

    Shallow embedding of [glif_psc.cpp] (parameter dictionary handling,
    calibration of the propagators, the per-step update kernel, event
    handling) and of [set_status] as written in
    [iaf_psc_alpha_multisynapse.h].

    Numbers: C++ [double] is read as a real number ([R]); rounding, NaN
    and infinities are outside this reading.  Where rounding changes what
    the code does (the refractory countdown, the potentials that the
    status dictionary shows relative to [E_L]), that part of the code is
    embedded a second time on binary64 numbers, in the module [binary64].
    [long], [port] and step counts are [Z]; [std::vector<double>] is
    [list R]; [std::string] is [string]. *)

From Stdlib Require Import Reals Lra Lia ZArith String Ascii.
From Stdlib Require Floats.
From stdpp Require Import base option list gmap.

#[local] Open Scope string_scope.
#[local] Open Scope R_scope.

(** ** Comparisons of doubles *)

#[global] Instance Rle_decision (x y : R) : Decision (x <= y) := Rle_dec x y.
#[global] Instance Rlt_decision (x y : R) : Decision (x < y) := Rlt_dec x y.
#[global] Instance Rge_decision (x y : R) : Decision (x >= y) := Rge_dec x y.
#[global] Instance Rgt_decision (x y : R) : Decision (x > y) := Rgt_dec x y.

(** ** Dictionary keys ([names::...]) *)

Module names.

Inductive Name : Set :=
| V_th | g | E_L | C_m | t_ref | V_reset
| a_spike | b_spike | a_reset | b_reset | a_voltage | b_voltage
| asc_init | k | asc_amps | r | tau_syn | has_connections | glif_model
| V_m | ASCurrents.

Definition index (n : Name) : nat :=
  match n with
  | V_th => 0 | g => 1 | E_L => 2 | C_m => 3 | t_ref => 4 | V_reset => 5
  | a_spike => 6 | b_spike => 7 | a_reset => 8 | b_reset => 9
  | a_voltage => 10 | b_voltage => 11 | asc_init => 12 | k => 13
  | asc_amps => 14 | r => 15 | tau_syn => 16 | has_connections => 17
  | glif_model => 18 | V_m => 19 | ASCurrents => 20
  end%nat.

Definition all : list Name :=
  [V_th; g; E_L; C_m; t_ref; V_reset; a_spike; b_spike; a_reset; b_reset;
   a_voltage; b_voltage; asc_init; k; asc_amps; r; tau_syn; has_connections;
   glif_model; V_m; ASCurrents].

Definition of_index (i : nat) : Name := nth i all V_th.

#[global] Instance Name_eq_dec : EqDecision Name.
Proof. solve_decision. Defined.

#[global] Instance Name_countable : Countable Name.
Proof. apply (inj_countable' index of_index). intros []; reflexivity. Defined.

End names.

Abbreviation Name := names.Name.

(** ** Dictionaries

    Modelled from the spec: the generic parameter dictionary
    ([dict.h], [dictutils.h]) is an external collaborator with a
    [{key: value}] contract; [set(updates)] applies only the fields present
    in [updates].  A datum holds a double, a vector of doubles, a bool or
    a string ([ArrayDatum] of doubles and [DoubleVectorDatum] are one
    constructor here). *)

Inductive Datum : Type :=
| DoubleDatum (x : R)
| DoubleVectorDatum (v : list R)
| BoolDatum (b : bool)
| StringDatum (s : string).

Abbreviation Dictionary := (gmap Name Datum).

(** ** Outcomes and the state monad

    A member function mutates its object in place and either returns,
    throws, fails an [assert] or indexes a vector beyond its size.  The
    state reached so far is kept in every case: a C++ exception does not
    roll anything back. *)

Inductive exn : Type :=
| BadProperty (msg : string)
| TypeMismatch
| IncompatibleReceptorType (receptor_type : Z).

Inductive outcome (A : Type) : Type :=
| Ok (a : A)
| Throw (e : exn)
| AssertionFailed
| OutOfRange.

Arguments Ok {A} a.
Arguments Throw {A} e.
Arguments AssertionFailed {A}.
Arguments OutOfRange {A}.

Definition M (S A : Type) : Type := S -> outcome A * S.

Definition ret {S A} (a : A) : M S A := fun s => (Ok a, s).

Definition bind {S A B} (c : M S A) (f : A -> M S B) : M S B :=
  fun s =>
    match c s with
    | (Ok a, s') => f a s'
    | (Throw e, s') => (Throw e, s')
    | (AssertionFailed, s') => (AssertionFailed, s')
    | (OutOfRange, s') => (OutOfRange, s')
    end.

Declare Scope monad_scope.
Delimit Scope monad_scope with M.
Notation "x <- c ;; f" := (bind c (fun x => f))
  (at level 20, c at level 99, f at level 200, only parsing) : monad_scope.
Notation "c ;; f" := (bind c (fun _ => f))
  (at level 100, f at level 200, only parsing, right associativity) : monad_scope.
#[local] Open Scope monad_scope.

Definition get {S} : M S S := fun s => (Ok s, s).
Definition gets {S A} (f : S -> A) : M S A := fun s => (Ok (f s), s).
Definition modify {S} (f : S -> S) : M S unit := fun s => (Ok tt, f s).
Definition throw {S A} (e : exn) : M S A := fun s => (Throw e, s).
Definition assert {S} (b : bool) : M S unit :=
  fun s => if b then (Ok tt, s) else (AssertionFailed, s).
Definition when {S} (b : bool) (c : M S unit) : M S unit :=
  if b then c else ret tt.

(** [v[i]] on a [std::vector]: beyond the size the behaviour is undefined. *)
Definition at_ {S T} (v : list T) (i : nat) : M S T :=
  fun s => match v !! i with Some x => (Ok x, s) | None => (OutOfRange, s) end.

(** The same with a signed index, as in [v[ port - 1 ]]. *)
Definition at_Z {S T} (v : list T) (i : Z) : M S T :=
  if (i <? 0)%Z then (fun s => (OutOfRange, s)) else at_ v (Z.to_nat i).

(** [getValue<T>(token)] and [updateValue<T>(d, name, var)]: nothing happens
    and [false] is returned when the key is absent; otherwise the variable
    is assigned and [true] is returned.  A datum of another type makes
    [getValue] throw. *)

Definition getValue_double (t : Datum) : outcome R :=
  match t with DoubleDatum x => Ok x | _ => Throw TypeMismatch end.

Definition getValue_vector (t : Datum) : outcome (list R) :=
  match t with DoubleVectorDatum v => Ok v | _ => Throw TypeMismatch end.

Definition getValue_string (t : Datum) : outcome string :=
  match t with StringDatum s => Ok s | _ => Throw TypeMismatch end.

Definition updateValue {S T} (getValue : Datum -> outcome T)
    (d : Dictionary) (n : Name) (assign : T -> S -> S) : M S bool :=
  fun s =>
    match d !! n with
    | None => (Ok false, s)
    | Some t =>
        match getValue t with
        | Ok v => (Ok true, assign v s)
        | Throw e => (Throw e, s)
        | AssertionFailed => (AssertionFailed, s)
        | OutOfRange => (OutOfRange, s)
        end
    end.

Definition def (d : Dictionary) (n : Name) (t : Datum) : Dictionary := <[n := t]> d.

(** ** Parameters_ *)

Record Parameters_ : Type := {
  E_L_ : R;               (* resting potential, mV *)
  G_ : R;                 (* membrane conductance, nS *)
  th_inf_ : R;            (* threshold baseline, mV, relative to E_L_ *)
  C_m_ : R;               (* capacitance, pF *)
  t_ref_ : R;             (* refractory duration, ms *)
  V_reset_ : R;           (* reset potential, mV, relative to E_L_ *)
  a_spike_ : R;
  b_spike_ : R;
  voltage_reset_a_ : R;
  voltage_reset_b_ : R;
  a_voltage_ : R;
  b_voltage_ : R;
  asc_init_ : list R;
  k_ : list R;
  asc_amps_ : list R;
  r_ : list R;
  tau_syn_ : list R;      (* one synaptic time constant per receptor port *)
  has_connections_ : bool;
  glif_model_ : string
}.

Definition set_E_L_ (x : R) (p : Parameters_) : Parameters_ :=
  {| E_L_ := x; G_ := G_ p; th_inf_ := th_inf_ p; C_m_ := C_m_ p; t_ref_ := t_ref_ p;
     V_reset_ := V_reset_ p; a_spike_ := a_spike_ p; b_spike_ := b_spike_ p;
     voltage_reset_a_ := voltage_reset_a_ p; voltage_reset_b_ := voltage_reset_b_ p;
     a_voltage_ := a_voltage_ p; b_voltage_ := b_voltage_ p; asc_init_ := asc_init_ p;
     k_ := k_ p; asc_amps_ := asc_amps_ p; r_ := r_ p; tau_syn_ := tau_syn_ p;
     has_connections_ := has_connections_ p; glif_model_ := glif_model_ p |}.
Definition set_G_ (x : R) (p : Parameters_) : Parameters_ :=
  {| E_L_ := E_L_ p; G_ := x; th_inf_ := th_inf_ p; C_m_ := C_m_ p; t_ref_ := t_ref_ p;
     V_reset_ := V_reset_ p; a_spike_ := a_spike_ p; b_spike_ := b_spike_ p;
     voltage_reset_a_ := voltage_reset_a_ p; voltage_reset_b_ := voltage_reset_b_ p;
     a_voltage_ := a_voltage_ p; b_voltage_ := b_voltage_ p; asc_init_ := asc_init_ p;
     k_ := k_ p; asc_amps_ := asc_amps_ p; r_ := r_ p; tau_syn_ := tau_syn_ p;
     has_connections_ := has_connections_ p; glif_model_ := glif_model_ p |}.
Definition set_th_inf_ (x : R) (p : Parameters_) : Parameters_ :=
  {| E_L_ := E_L_ p; G_ := G_ p; th_inf_ := x; C_m_ := C_m_ p; t_ref_ := t_ref_ p;
     V_reset_ := V_reset_ p; a_spike_ := a_spike_ p; b_spike_ := b_spike_ p;
     voltage_reset_a_ := voltage_reset_a_ p; voltage_reset_b_ := voltage_reset_b_ p;
     a_voltage_ := a_voltage_ p; b_voltage_ := b_voltage_ p; asc_init_ := asc_init_ p;
     k_ := k_ p; asc_amps_ := asc_amps_ p; r_ := r_ p; tau_syn_ := tau_syn_ p;
     has_connections_ := has_connections_ p; glif_model_ := glif_model_ p |}.
Definition set_C_m_ (x : R) (p : Parameters_) : Parameters_ :=
  {| E_L_ := E_L_ p; G_ := G_ p; th_inf_ := th_inf_ p; C_m_ := x; t_ref_ := t_ref_ p;
     V_reset_ := V_reset_ p; a_spike_ := a_spike_ p; b_spike_ := b_spike_ p;
     voltage_reset_a_ := voltage_reset_a_ p; voltage_reset_b_ := voltage_reset_b_ p;
     a_voltage_ := a_voltage_ p; b_voltage_ := b_voltage_ p; asc_init_ := asc_init_ p;
     k_ := k_ p; asc_amps_ := asc_amps_ p; r_ := r_ p; tau_syn_ := tau_syn_ p;
     has_connections_ := has_connections_ p; glif_model_ := glif_model_ p |}.
Definition set_t_ref_ (x : R) (p : Parameters_) : Parameters_ :=
  {| E_L_ := E_L_ p; G_ := G_ p; th_inf_ := th_inf_ p; C_m_ := C_m_ p; t_ref_ := x;
     V_reset_ := V_reset_ p; a_spike_ := a_spike_ p; b_spike_ := b_spike_ p;
     voltage_reset_a_ := voltage_reset_a_ p; voltage_reset_b_ := voltage_reset_b_ p;
     a_voltage_ := a_voltage_ p; b_voltage_ := b_voltage_ p; asc_init_ := asc_init_ p;
     k_ := k_ p; asc_amps_ := asc_amps_ p; r_ := r_ p; tau_syn_ := tau_syn_ p;
     has_connections_ := has_connections_ p; glif_model_ := glif_model_ p |}.
Definition set_V_reset_ (x : R) (p : Parameters_) : Parameters_ :=
  {| E_L_ := E_L_ p; G_ := G_ p; th_inf_ := th_inf_ p; C_m_ := C_m_ p; t_ref_ := t_ref_
     p; V_reset_ := x; a_spike_ := a_spike_ p; b_spike_ := b_spike_ p; voltage_reset_a_
     := voltage_reset_a_ p; voltage_reset_b_ := voltage_reset_b_ p; a_voltage_ :=
     a_voltage_ p; b_voltage_ := b_voltage_ p; asc_init_ := asc_init_ p; k_ := k_ p;
     asc_amps_ := asc_amps_ p; r_ := r_ p; tau_syn_ := tau_syn_ p; has_connections_ :=
     has_connections_ p; glif_model_ := glif_model_ p |}.
Definition set_a_spike_ (x : R) (p : Parameters_) : Parameters_ :=
  {| E_L_ := E_L_ p; G_ := G_ p; th_inf_ := th_inf_ p; C_m_ := C_m_ p; t_ref_ := t_ref_
     p; V_reset_ := V_reset_ p; a_spike_ := x; b_spike_ := b_spike_ p; voltage_reset_a_
     := voltage_reset_a_ p; voltage_reset_b_ := voltage_reset_b_ p; a_voltage_ :=
     a_voltage_ p; b_voltage_ := b_voltage_ p; asc_init_ := asc_init_ p; k_ := k_ p;
     asc_amps_ := asc_amps_ p; r_ := r_ p; tau_syn_ := tau_syn_ p; has_connections_ :=
     has_connections_ p; glif_model_ := glif_model_ p |}.
Definition set_b_spike_ (x : R) (p : Parameters_) : Parameters_ :=
  {| E_L_ := E_L_ p; G_ := G_ p; th_inf_ := th_inf_ p; C_m_ := C_m_ p; t_ref_ := t_ref_
     p; V_reset_ := V_reset_ p; a_spike_ := a_spike_ p; b_spike_ := x; voltage_reset_a_
     := voltage_reset_a_ p; voltage_reset_b_ := voltage_reset_b_ p; a_voltage_ :=
     a_voltage_ p; b_voltage_ := b_voltage_ p; asc_init_ := asc_init_ p; k_ := k_ p;
     asc_amps_ := asc_amps_ p; r_ := r_ p; tau_syn_ := tau_syn_ p; has_connections_ :=
     has_connections_ p; glif_model_ := glif_model_ p |}.
Definition set_voltage_reset_a_ (x : R) (p : Parameters_) : Parameters_ :=
  {| E_L_ := E_L_ p; G_ := G_ p; th_inf_ := th_inf_ p; C_m_ := C_m_ p; t_ref_ := t_ref_
     p; V_reset_ := V_reset_ p; a_spike_ := a_spike_ p; b_spike_ := b_spike_ p;
     voltage_reset_a_ := x; voltage_reset_b_ := voltage_reset_b_ p; a_voltage_ :=
     a_voltage_ p; b_voltage_ := b_voltage_ p; asc_init_ := asc_init_ p; k_ := k_ p;
     asc_amps_ := asc_amps_ p; r_ := r_ p; tau_syn_ := tau_syn_ p; has_connections_ :=
     has_connections_ p; glif_model_ := glif_model_ p |}.
Definition set_voltage_reset_b_ (x : R) (p : Parameters_) : Parameters_ :=
  {| E_L_ := E_L_ p; G_ := G_ p; th_inf_ := th_inf_ p; C_m_ := C_m_ p; t_ref_ := t_ref_
     p; V_reset_ := V_reset_ p; a_spike_ := a_spike_ p; b_spike_ := b_spike_ p;
     voltage_reset_a_ := voltage_reset_a_ p; voltage_reset_b_ := x; a_voltage_ :=
     a_voltage_ p; b_voltage_ := b_voltage_ p; asc_init_ := asc_init_ p; k_ := k_ p;
     asc_amps_ := asc_amps_ p; r_ := r_ p; tau_syn_ := tau_syn_ p; has_connections_ :=
     has_connections_ p; glif_model_ := glif_model_ p |}.
Definition set_a_voltage_ (x : R) (p : Parameters_) : Parameters_ :=
  {| E_L_ := E_L_ p; G_ := G_ p; th_inf_ := th_inf_ p; C_m_ := C_m_ p; t_ref_ := t_ref_
     p; V_reset_ := V_reset_ p; a_spike_ := a_spike_ p; b_spike_ := b_spike_ p;
     voltage_reset_a_ := voltage_reset_a_ p; voltage_reset_b_ := voltage_reset_b_ p;
     a_voltage_ := x; b_voltage_ := b_voltage_ p; asc_init_ := asc_init_ p; k_ := k_ p;
     asc_amps_ := asc_amps_ p; r_ := r_ p; tau_syn_ := tau_syn_ p; has_connections_ :=
     has_connections_ p; glif_model_ := glif_model_ p |}.
Definition set_b_voltage_ (x : R) (p : Parameters_) : Parameters_ :=
  {| E_L_ := E_L_ p; G_ := G_ p; th_inf_ := th_inf_ p; C_m_ := C_m_ p; t_ref_ := t_ref_
     p; V_reset_ := V_reset_ p; a_spike_ := a_spike_ p; b_spike_ := b_spike_ p;
     voltage_reset_a_ := voltage_reset_a_ p; voltage_reset_b_ := voltage_reset_b_ p;
     a_voltage_ := a_voltage_ p; b_voltage_ := x; asc_init_ := asc_init_ p; k_ := k_ p;
     asc_amps_ := asc_amps_ p; r_ := r_ p; tau_syn_ := tau_syn_ p; has_connections_ :=
     has_connections_ p; glif_model_ := glif_model_ p |}.
Definition set_asc_init_ (x : list R) (p : Parameters_) : Parameters_ :=
  {| E_L_ := E_L_ p; G_ := G_ p; th_inf_ := th_inf_ p; C_m_ := C_m_ p; t_ref_ := t_ref_
     p; V_reset_ := V_reset_ p; a_spike_ := a_spike_ p; b_spike_ := b_spike_ p;
     voltage_reset_a_ := voltage_reset_a_ p; voltage_reset_b_ := voltage_reset_b_ p;
     a_voltage_ := a_voltage_ p; b_voltage_ := b_voltage_ p; asc_init_ := x; k_ := k_ p;
     asc_amps_ := asc_amps_ p; r_ := r_ p; tau_syn_ := tau_syn_ p; has_connections_ :=
     has_connections_ p; glif_model_ := glif_model_ p |}.
Definition set_k_ (x : list R) (p : Parameters_) : Parameters_ :=
  {| E_L_ := E_L_ p; G_ := G_ p; th_inf_ := th_inf_ p; C_m_ := C_m_ p; t_ref_ := t_ref_
     p; V_reset_ := V_reset_ p; a_spike_ := a_spike_ p; b_spike_ := b_spike_ p;
     voltage_reset_a_ := voltage_reset_a_ p; voltage_reset_b_ := voltage_reset_b_ p;
     a_voltage_ := a_voltage_ p; b_voltage_ := b_voltage_ p; asc_init_ := asc_init_ p;
     k_ := x; asc_amps_ := asc_amps_ p; r_ := r_ p; tau_syn_ := tau_syn_ p;
     has_connections_ := has_connections_ p; glif_model_ := glif_model_ p |}.
Definition set_asc_amps_ (x : list R) (p : Parameters_) : Parameters_ :=
  {| E_L_ := E_L_ p; G_ := G_ p; th_inf_ := th_inf_ p; C_m_ := C_m_ p; t_ref_ := t_ref_
     p; V_reset_ := V_reset_ p; a_spike_ := a_spike_ p; b_spike_ := b_spike_ p;
     voltage_reset_a_ := voltage_reset_a_ p; voltage_reset_b_ := voltage_reset_b_ p;
     a_voltage_ := a_voltage_ p; b_voltage_ := b_voltage_ p; asc_init_ := asc_init_ p;
     k_ := k_ p; asc_amps_ := x; r_ := r_ p; tau_syn_ := tau_syn_ p; has_connections_ :=
     has_connections_ p; glif_model_ := glif_model_ p |}.
Definition set_r_ (x : list R) (p : Parameters_) : Parameters_ :=
  {| E_L_ := E_L_ p; G_ := G_ p; th_inf_ := th_inf_ p; C_m_ := C_m_ p; t_ref_ := t_ref_
     p; V_reset_ := V_reset_ p; a_spike_ := a_spike_ p; b_spike_ := b_spike_ p;
     voltage_reset_a_ := voltage_reset_a_ p; voltage_reset_b_ := voltage_reset_b_ p;
     a_voltage_ := a_voltage_ p; b_voltage_ := b_voltage_ p; asc_init_ := asc_init_ p;
     k_ := k_ p; asc_amps_ := asc_amps_ p; r_ := x; tau_syn_ := tau_syn_ p;
     has_connections_ := has_connections_ p; glif_model_ := glif_model_ p |}.
Definition set_tau_syn_ (x : list R) (p : Parameters_) : Parameters_ :=
  {| E_L_ := E_L_ p; G_ := G_ p; th_inf_ := th_inf_ p; C_m_ := C_m_ p; t_ref_ := t_ref_
     p; V_reset_ := V_reset_ p; a_spike_ := a_spike_ p; b_spike_ := b_spike_ p;
     voltage_reset_a_ := voltage_reset_a_ p; voltage_reset_b_ := voltage_reset_b_ p;
     a_voltage_ := a_voltage_ p; b_voltage_ := b_voltage_ p; asc_init_ := asc_init_ p;
     k_ := k_ p; asc_amps_ := asc_amps_ p; r_ := r_ p; tau_syn_ := x; has_connections_
     := has_connections_ p; glif_model_ := glif_model_ p |}.
Definition set_has_connections_ (x : bool) (p : Parameters_) : Parameters_ :=
  {| E_L_ := E_L_ p; G_ := G_ p; th_inf_ := th_inf_ p; C_m_ := C_m_ p; t_ref_ := t_ref_
     p; V_reset_ := V_reset_ p; a_spike_ := a_spike_ p; b_spike_ := b_spike_ p;
     voltage_reset_a_ := voltage_reset_a_ p; voltage_reset_b_ := voltage_reset_b_ p;
     a_voltage_ := a_voltage_ p; b_voltage_ := b_voltage_ p; asc_init_ := asc_init_ p;
     k_ := k_ p; asc_amps_ := asc_amps_ p; r_ := r_ p; tau_syn_ := tau_syn_ p;
     has_connections_ := x; glif_model_ := glif_model_ p |}.
Definition set_glif_model_ (x : string) (p : Parameters_) : Parameters_ :=
  {| E_L_ := E_L_ p; G_ := G_ p; th_inf_ := th_inf_ p; C_m_ := C_m_ p; t_ref_ := t_ref_
     p; V_reset_ := V_reset_ p; a_spike_ := a_spike_ p; b_spike_ := b_spike_ p;
     voltage_reset_a_ := voltage_reset_a_ p; voltage_reset_b_ := voltage_reset_b_ p;
     a_voltage_ := a_voltage_ p; b_voltage_ := b_voltage_ p; asc_init_ := asc_init_ p;
     k_ := k_ p; asc_amps_ := asc_amps_ p; r_ := r_ p; tau_syn_ := tau_syn_ p;
     has_connections_ := has_connections_ p; glif_model_ := x |}.


(** Modelled from the spec: [n_receptors_()] is declared in [glif_psc.h];
    it is the number of receptor ports, that is of synaptic time
    constants. *)
Definition n_receptors_ (p : Parameters_) : nat := length (tau_syn_ p).

(** [Parameters_::Parameters_()] *)
Definition Parameters_default : Parameters_ :=
  {| E_L_ := -78.85;
     G_ := 9.43;
     th_inf_ := 27.17;
     C_m_ := 58.72;
     t_ref_ := 3.75;
     V_reset_ := 0.0;
     a_spike_ := 0.37;
     b_spike_ := 0.009;
     voltage_reset_a_ := 0.20;
     voltage_reset_b_ := 18.51;
     a_voltage_ := 0.005;
     b_voltage_ := 0.09;
     asc_init_ := replicate 2 0.0;
     k_ := [0.003; 0.1];
     asc_amps_ := [-9.18; -198.94];
     r_ := replicate 2 1.0;
     tau_syn_ := replicate 1 2.0;
     has_connections_ := false;
     glif_model_ := "lif" |}.

(** [Parameters_::get] *)
Definition Parameters_get (p : Parameters_) (d : Dictionary) : Dictionary :=
  let d := def d names.V_th (DoubleDatum (th_inf_ p + E_L_ p)) in
  let d := def d names.g (DoubleDatum (G_ p)) in
  let d := def d names.E_L (DoubleDatum (E_L_ p)) in
  let d := def d names.C_m (DoubleDatum (C_m_ p)) in
  let d := def d names.t_ref (DoubleDatum (t_ref_ p)) in
  let d := def d names.V_reset (DoubleDatum (V_reset_ p + E_L_ p)) in
  let d := def d names.a_spike (DoubleDatum (a_spike_ p)) in
  let d := def d names.b_spike (DoubleDatum (b_spike_ p)) in
  let d := def d names.a_reset (DoubleDatum (voltage_reset_a_ p)) in
  let d := def d names.b_reset (DoubleDatum (voltage_reset_b_ p)) in
  let d := def d names.a_voltage (DoubleDatum (a_voltage_ p)) in
  let d := def d names.b_voltage (DoubleDatum (b_voltage_ p)) in
  let d := def d names.asc_init (DoubleVectorDatum (asc_init_ p)) in
  let d := def d names.k (DoubleVectorDatum (k_ p)) in
  let d := def d names.asc_amps (DoubleVectorDatum (asc_amps_ p)) in
  let d := def d names.r (DoubleVectorDatum (r_ p)) in
  let d := def d names.tau_syn (DoubleVectorDatum (tau_syn_ p)) in
  let d := def d names.has_connections (BoolDatum (has_connections_ p)) in
  def d names.glif_model (StringDatum (glif_model_ p)).

(** The loops [for a < v.size(): if ( v[a] <= 0 ) throw BadProperty( msg )]. *)
Fixpoint all_positive {S} (msg : string) (v : list R) : M S unit :=
  match v with
  | [] => ret tt
  | x :: v' =>
      if decide (x <= 0) then throw (BadProperty msg) else all_positive msg v'
  end.

(** [Parameters_::set]; the object is updated in place, the value returned
    is the change of [E_L_]. *)
Definition Parameters_set (d : Dictionary) : M Parameters_ R :=
  ELold <- gets E_L_ ;;
  updateValue getValue_double d names.E_L set_E_L_ ;;
  E_L_now <- gets E_L_ ;;
  let delta_EL := E_L_now - ELold in
  upd_reset <- updateValue getValue_double d names.V_reset set_V_reset_ ;;
  (if upd_reset
   then modify (fun p => set_V_reset_ (V_reset_ p - E_L_ p) p)
   else modify (fun p => set_V_reset_ (V_reset_ p - delta_EL) p)) ;;
  upd_th <- updateValue getValue_double d names.V_th set_th_inf_ ;;
  (if upd_th
   then modify (fun p => set_th_inf_ (th_inf_ p - E_L_ p) p)
   else modify (fun p => set_th_inf_ (th_inf_ p - delta_EL) p)) ;;
  updateValue getValue_double d names.g set_G_ ;;
  updateValue getValue_double d names.C_m set_C_m_ ;;
  updateValue getValue_double d names.t_ref set_t_ref_ ;;
  updateValue getValue_double d names.a_spike set_a_spike_ ;;
  updateValue getValue_double d names.b_spike set_b_spike_ ;;
  updateValue getValue_double d names.a_reset set_voltage_reset_a_ ;;
  updateValue getValue_double d names.b_reset set_voltage_reset_b_ ;;
  updateValue getValue_double d names.a_voltage set_a_voltage_ ;;
  updateValue getValue_double d names.b_voltage set_b_voltage_ ;;
  updateValue getValue_vector d names.asc_init set_asc_init_ ;;
  updateValue getValue_vector d names.k set_k_ ;;
  updateValue getValue_vector d names.asc_amps set_asc_amps_ ;;
  updateValue getValue_vector d names.r set_r_ ;;
  updateValue getValue_vector d names.tau_syn set_tau_syn_ ;;
  updateValue getValue_string d names.glif_model set_glif_model_ ;;
  p <- get ;;
  when (bool_decide (V_reset_ p >= th_inf_ p))
    (throw (BadProperty "Reset potential must be smaller than threshold.")) ;;
  when (bool_decide (C_m_ p <= 0.0))
    (throw (BadProperty "Capacitance must be strictly positive.")) ;;
  when (bool_decide (G_ p <= 0.0))
    (throw (BadProperty "Membrane conductance must be strictly positive.")) ;;
  when (bool_decide (t_ref_ p <= 0.0))
    (throw (BadProperty "Refractory time constant must be strictly positive.")) ;;
  when (bool_decide (b_voltage_ p <= 0.0))
    (throw (BadProperty
       "Voltage-induced threshold time constant must be strictly positive.")) ;;
  when (bool_decide (b_spike_ p <= 0.0))
    (throw (BadProperty
       "Spike induced threshold time constant must be strictly positive.")) ;;
  all_positive "After-spike current time constant must be strictly positive."
    (k_ p) ;;
  old_n_receptors <- gets n_receptors_ ;;
  upd_tau <- updateValue getValue_vector d names.tau_syn set_tau_syn_ ;;
  (if upd_tau
   then
     p <- get ;;
     when (bool_decide (n_receptors_ p <> old_n_receptors)
           && bool_decide (has_connections_ p = true))
       (throw (BadProperty
          "The neuron has connections, therefore the number of ports cannot be reduced.")) ;;
     all_positive "All synaptic time constants must be strictly positive."
       (tau_syn_ p)
   else ret tt) ;;
  ret delta_EL.

(** ** State_ *)

Record State_ : Type := {
  U_ : R;                 (* membrane potential, mV, relative to E_L_ *)
  ASCurrents_ : list R;   (* after-spike currents, pA *)
  ASCurrents_sum_ : R;
  threshold_ : R;         (* mV, relative to E_L_ *)
  I_ : R;                 (* external current, pA *)
  I_syn_ : R;
  y1_ : list R;           (* first stage of the synaptic current, per receptor *)
  y2_ : list R            (* second stage of the synaptic current, per receptor *)
}.

Definition set_U_ (x : R) (s : State_) : State_ :=
  {| U_ := x; ASCurrents_ := ASCurrents_ s; ASCurrents_sum_ := ASCurrents_sum_ s;
     threshold_ := threshold_ s; I_ := I_ s; I_syn_ := I_syn_ s; y1_ := y1_ s; y2_ :=
     y2_ s |}.
Definition set_ASCurrents_ (x : list R) (s : State_) : State_ :=
  {| U_ := U_ s; ASCurrents_ := x; ASCurrents_sum_ := ASCurrents_sum_ s; threshold_ :=
     threshold_ s; I_ := I_ s; I_syn_ := I_syn_ s; y1_ := y1_ s; y2_ := y2_ s |}.
Definition set_ASCurrents_sum_ (x : R) (s : State_) : State_ :=
  {| U_ := U_ s; ASCurrents_ := ASCurrents_ s; ASCurrents_sum_ := x; threshold_ :=
     threshold_ s; I_ := I_ s; I_syn_ := I_syn_ s; y1_ := y1_ s; y2_ := y2_ s |}.
Definition set_threshold_ (x : R) (s : State_) : State_ :=
  {| U_ := U_ s; ASCurrents_ := ASCurrents_ s; ASCurrents_sum_ := ASCurrents_sum_ s;
     threshold_ := x; I_ := I_ s; I_syn_ := I_syn_ s; y1_ := y1_ s; y2_ := y2_ s |}.
Definition set_I_ (x : R) (s : State_) : State_ :=
  {| U_ := U_ s; ASCurrents_ := ASCurrents_ s; ASCurrents_sum_ := ASCurrents_sum_ s;
     threshold_ := threshold_ s; I_ := x; I_syn_ := I_syn_ s; y1_ := y1_ s; y2_ := y2_ s
     |}.
Definition set_I_syn_ (x : R) (s : State_) : State_ :=
  {| U_ := U_ s; ASCurrents_ := ASCurrents_ s; ASCurrents_sum_ := ASCurrents_sum_ s;
     threshold_ := threshold_ s; I_ := I_ s; I_syn_ := x; y1_ := y1_ s; y2_ := y2_ s |}.
Definition set_y1_ (x : list R) (s : State_) : State_ :=
  {| U_ := U_ s; ASCurrents_ := ASCurrents_ s; ASCurrents_sum_ := ASCurrents_sum_ s;
     threshold_ := threshold_ s; I_ := I_ s; I_syn_ := I_syn_ s; y1_ := x; y2_ := y2_ s
     |}.
Definition set_y2_ (x : list R) (s : State_) : State_ :=
  {| U_ := U_ s; ASCurrents_ := ASCurrents_ s; ASCurrents_sum_ := ASCurrents_sum_ s;
     threshold_ := threshold_ s; I_ := I_ s; I_syn_ := I_syn_ s; y1_ := y1_ s; y2_ := x
     |}.

(** [State_::State_( const Parameters_& )]: two after-spike currents are
    read from [asc_init_]; [ASCurrents_sum_] and [I_syn_] are not
    initialised by the constructor and are written by [update] before it
    reads them, they start at [0] here. *)
Definition State_new (p : Parameters_) : outcome State_ :=
  match asc_init_ p !! 0%nat, asc_init_ p !! 1%nat with
  | Some a0, Some a1 =>
      Ok {| U_ := 0.0; ASCurrents_ := [a0; a1]; ASCurrents_sum_ := 0;
            threshold_ := -51.68 - E_L_ p; I_ := 0.0; I_syn_ := 0;
            y1_ := []; y2_ := [] |}
  | _, _ => OutOfRange
  end.

(** [State_::get] *)
Definition State_get (s : State_) (p : Parameters_) (d : Dictionary) : Dictionary :=
  let d := def d names.V_m (DoubleDatum (U_ s + E_L_ p)) in
  def d names.ASCurrents (DoubleVectorDatum (ASCurrents_ s)).

(** [State_::set] *)
Definition State_set (d : Dictionary) (p : Parameters_) (delta_EL : R) : M State_ unit :=
  upd_V_m <- updateValue getValue_double d names.V_m set_U_ ;;
  (if upd_V_m
   then modify (fun s => set_U_ (U_ s - E_L_ p) s)
   else modify (fun s => set_U_ (U_ s - delta_EL) s)) ;;
  updateValue getValue_vector d names.ASCurrents set_ASCurrents_ ;;
  ret tt.

(** ** Variables_ *)

Record Variables_ : Type := {
  t_ref_remaining_ : R;
  t_ref_total_ : R;
  last_spike_ : R;        (* spike component of the threshold *)
  last_voltage_ : R;      (* voltage component of the threshold *)
  P11_ : list R;
  P21_ : list R;
  P22_ : list R;
  P31_ : list R;
  P32_ : list R;
  P30_ : R;
  P33_ : R;
  PSCInitialValues_ : list R
}.

Definition set_t_ref_remaining_ (x : R) (v : Variables_) : Variables_ :=
  {| t_ref_remaining_ := x; t_ref_total_ := t_ref_total_ v; last_spike_ := last_spike_
     v; last_voltage_ := last_voltage_ v; P11_ := P11_ v; P21_ := P21_ v; P22_ := P22_
     v; P31_ := P31_ v; P32_ := P32_ v; P30_ := P30_ v; P33_ := P33_ v;
     PSCInitialValues_ := PSCInitialValues_ v |}.
Definition set_last_spike_ (x : R) (v : Variables_) : Variables_ :=
  {| t_ref_remaining_ := t_ref_remaining_ v; t_ref_total_ := t_ref_total_ v; last_spike_
     := x; last_voltage_ := last_voltage_ v; P11_ := P11_ v; P21_ := P21_ v; P22_ :=
     P22_ v; P31_ := P31_ v; P32_ := P32_ v; P30_ := P30_ v; P33_ := P33_ v;
     PSCInitialValues_ := PSCInitialValues_ v |}.
Definition set_last_voltage_ (x : R) (v : Variables_) : Variables_ :=
  {| t_ref_remaining_ := t_ref_remaining_ v; t_ref_total_ := t_ref_total_ v; last_spike_
     := last_spike_ v; last_voltage_ := x; P11_ := P11_ v; P21_ := P21_ v; P22_ := P22_
     v; P31_ := P31_ v; P32_ := P32_ v; P30_ := P30_ v; P33_ := P33_ v;
     PSCInitialValues_ := PSCInitialValues_ v |}.

(** ** Buffers_

    Modelled from the spec: the Input Aggregator ([ring_buffer.h]).
    [add(step_offset, weight)] adds [weight] into the bucket of that step,
    several events on one step add up; consuming a step returns the
    accumulated value and clears it.  The bounded horizon is not part of
    this model. *)

Abbreviation RingBuffer := (gmap Z R).

Definition RingBuffer_peek (b : RingBuffer) (offs : Z) : R := default 0 (b !! offs).

Definition add_value (offs : Z) (w : R) (b : RingBuffer) : RingBuffer :=
  <[offs := RingBuffer_peek b offs + w]> b.

Definition get_value (offs : Z) (b : RingBuffer) : R * RingBuffer :=
  (RingBuffer_peek b offs, delete offs b).

Record Buffers_ : Type := {
  spikes_ : list RingBuffer;   (* one per receptor port *)
  currents_ : RingBuffer
}.

Definition set_spikes_ (x : list RingBuffer) (b : Buffers_) : Buffers_ :=
  {| spikes_ := x; currents_ := currents_ b |}.
Definition set_currents_ (x : RingBuffer) (b : Buffers_) : Buffers_ :=
  {| spikes_ := spikes_ b; currents_ := x |}.

(** ** The node

    Modelled from the spec: of [Archiving_Node] ([archiving_node.h]) only
    the spike register written by [set_spiketime] is kept.  [sent_] holds
    the spike events handed to the event delivery manager (sub-step offset
    and lag), [printed_] the pairs of values written by [printf]. *)

Record Archiving_Node : Type := { spiketimes_ : list (Z * R) }.

Record glif_psc : Type := {
  P_ : Parameters_;
  S_ : State_;
  V_ : Variables_;
  B_ : Buffers_;
  archive_ : Archiving_Node;
  sent_ : list (R * Z);
  printed_ : list (R * R)
}.

Definition on_P (f : Parameters_ -> Parameters_) (n : glif_psc) : glif_psc :=
  {| P_ := f (P_ n); S_ := S_ n; V_ := V_ n; B_ := B_ n; archive_ := archive_ n;
     sent_ := sent_ n; printed_ := printed_ n |}.
Definition on_S (f : State_ -> State_) (n : glif_psc) : glif_psc :=
  {| P_ := P_ n; S_ := f (S_ n); V_ := V_ n; B_ := B_ n; archive_ := archive_ n;
     sent_ := sent_ n; printed_ := printed_ n |}.
Definition on_V (f : Variables_ -> Variables_) (n : glif_psc) : glif_psc :=
  {| P_ := P_ n; S_ := S_ n; V_ := f (V_ n); B_ := B_ n; archive_ := archive_ n;
     sent_ := sent_ n; printed_ := printed_ n |}.
Definition on_B (f : Buffers_ -> Buffers_) (n : glif_psc) : glif_psc :=
  {| P_ := P_ n; S_ := S_ n; V_ := V_ n; B_ := f (B_ n); archive_ := archive_ n;
     sent_ := sent_ n; printed_ := printed_ n |}.
Definition on_archive (f : Archiving_Node -> Archiving_Node) (n : glif_psc) : glif_psc :=
  {| P_ := P_ n; S_ := S_ n; V_ := V_ n; B_ := B_ n; archive_ := f (archive_ n);
     sent_ := sent_ n; printed_ := printed_ n |}.
Definition send (se : R * Z) (n : glif_psc) : glif_psc :=
  {| P_ := P_ n; S_ := S_ n; V_ := V_ n; B_ := B_ n; archive_ := archive_ n;
     sent_ := sent_ n ++ [se]; printed_ := printed_ n |}.
Definition printf (x : R * R) (n : glif_psc) : glif_psc :=
  {| P_ := P_ n; S_ := S_ n; V_ := V_ n; B_ := B_ n; archive_ := archive_ n;
     sent_ := sent_ n; printed_ := printed_ n ++ [x] |}.

(** What the simulation kernel and the headers outside these sources
    provide: the resolution [Time::get_resolution().get_ms()], the
    propagators of [propagator_stability.h], the table [model_type_lu] of
    [glif_psc.h], and [Archiving_Node::set_status]. *)
Record Kernel : Type := {
  resolution : R;
  propagator_31 : R -> R -> R -> R -> R;
  propagator_32 : R -> R -> R -> R -> R;
  model_type_lu : list (string * Z);
  Archiving_Node_set_status : Dictionary -> M Archiving_Node unit
}.

(** Run a member function of a sub-object on a copy; the copy is returned
    with the outcome. *)
Definition run {S A} (c : M S A) (s : S) : outcome A * S := c s.

(** [set_status], as written in [iaf_psc_alpha_multisynapse.h]: the new
    parameters and state are computed on temporary copies and written back
    only when nothing has thrown. *)
Definition set_status (K : Kernel) (d : Dictionary) : M glif_psc unit :=
  fun n =>
    let ptmp := P_ n in
    match run (Parameters_set d) ptmp with
    | (Ok delta_EL, ptmp) =>
        let stmp := S_ n in
        match run (State_set d ptmp delta_EL) stmp with
        | (Ok _, stmp) =>
            match run (Archiving_Node_set_status K d) (archive_ n) with
            | (Ok _, a) =>
                (Ok tt, on_S (fun _ => stmp) (on_P (fun _ => ptmp)
                                               (on_archive (fun _ => a) n)))
            | (Throw e, a) => (Throw e, on_archive (fun _ => a) n)
            | (AssertionFailed, a) => (AssertionFailed, on_archive (fun _ => a) n)
            | (OutOfRange, a) => (OutOfRange, on_archive (fun _ => a) n)
            end
        | (Throw e, _) => (Throw e, n)
        | (AssertionFailed, _) => (AssertionFailed, n)
        | (OutOfRange, _) => (OutOfRange, n)
        end
    | (Throw e, _) => (Throw e, n)
    | (AssertionFailed, _) => (AssertionFailed, n)
    | (OutOfRange, _) => (OutOfRange, n)
    end.

(** [get_status]: the parameter and state entries. *)
Definition get_status (n : glif_psc) (d : Dictionary) : Dictionary :=
  State_get (S_ n) (P_ n) (Parameters_get (P_ n) d).

(** [handles_test_event( SpikeEvent&, rport )] *)
Definition handles_test_event (receptor_type : Z) : M glif_psc Z :=
  n <- get ;;
  when ((receptor_type <=? 0)%Z
        || (Z.of_nat (n_receptors_ (P_ n)) <? receptor_type)%Z)
    (throw (IncompatibleReceptorType receptor_type)) ;;
  modify (on_P (set_has_connections_ true)) ;;
  ret receptor_type.

(** [handle( SpikeEvent& )]; [rel_delivery_steps] is what
    [e.get_rel_delivery_steps( slice_origin )] returns. *)
Record SpikeEvent : Type := {
  rport : Z;
  delay_steps : Z;
  rel_delivery_steps : Z;
  weight : R;
  multiplicity : Z
}.

Definition handle_SpikeEvent (e : SpikeEvent) : M glif_psc unit :=
  assert (0 <? delay_steps e)%Z ;;
  n <- get ;;
  buf <- at_Z (spikes_ (B_ n)) (rport e - 1) ;;
  modify (on_B (set_spikes_
    (<[Z.to_nat (rport e - 1) :=
         add_value (rel_delivery_steps e) (weight e * IZR (multiplicity e)) buf]>
       (spikes_ (B_ n))))).

(** ** calibrate *)

(** [v.resize( n )] on a [std::vector<double>] *)
Definition resize {T} (n : nat) (x : T) (v : list T) : list T :=
  take n v ++ replicate (n - length v) x.

(** [numerics::e] *)
Definition numerics_e : R := exp 1.

(** Every per-receptor vector is resized to [n_receptors_()] and each of
    its entries [i < n_receptors_()] is assigned from [tau_syn_[ i ]]. *)
Definition calibrate (K : Kernel) : M glif_psc unit :=
  n <- get ;;
  let p := P_ n in
  let h := resolution K in
  let Tau_ := C_m_ p / G_ p in
  let P33 := exp (- h / Tau_) in
  let P30 := 1 / C_m_ p * (1 - P33) * Tau_ in
  let P11 := map (fun tau => exp (- h / tau)) (tau_syn_ p) in
  modify (on_V (fun _ =>
    {| t_ref_remaining_ := 0.0;
       t_ref_total_ := t_ref_ p;
       last_spike_ := 0.0;
       last_voltage_ := 0.0;
       P11_ := P11;
       P21_ := map (fun p11 => h * p11) P11;
       P22_ := P11;
       P31_ := map (fun tau => propagator_31 K tau Tau_ (C_m_ p) h) (tau_syn_ p);
       P32_ := map (fun tau => propagator_32 K tau Tau_ (C_m_ p) h) (tau_syn_ p);
       P30_ := P30;
       P33_ := P33;
       PSCInitialValues_ := map (fun tau => 1.0 * numerics_e / tau) (tau_syn_ p) |})) ;;
  modify (on_S (fun s => set_y2_ (resize (n_receptors_ p) 0 (y2_ s))
                           (set_y1_ (resize (n_receptors_ p) 0 (y1_ s)) s))) ;;
  modify (on_B (fun b => set_spikes_ (resize (n_receptors_ p) ∅ (spikes_ b)) b)).

(** ** update *)

(** [::tolower] on each character of the string *)
Definition tolower (c : ascii) : ascii :=
  let n := nat_of_ascii c in
  if (65 <=? n)%nat && (n <=? 90)%nat then ascii_of_nat (n + 32) else c.

Fixpoint transform_tolower (s : string) : string :=
  match s with
  | EmptyString => EmptyString
  | String c s' => String (tolower c) (transform_tolower s')
  end.

(** [model_type_lu.find( model_str )] *)
Fixpoint find_model (lu : list (string * Z)) (model_str : string) : option Z :=
  match lu with
  | [] => None
  | (key, model_type) :: lu' =>
      if String.eqb key model_str then Some model_type else find_model lu' model_str
  end.

(** The variables of [update] that live across the steps of the loop. *)
Record Locals : Type := {
  v_old : R;
  spike_component : R;
  voltage_component : R;
  th_old : R
}.

(** [for ( a = from; a < from + count; ++a ) body] *)
Fixpoint for_loop {St} (from count : nat) (body : nat -> M St unit) : M St unit :=
  match count with
  | O => ret tt
  | S count' => body from ;; for_loop (S from) count' body
  end.

(** The sub-step offset of a threshold crossing. *)
Definition spike_offset (v_old th_old U threshold resolution_ms : R) : R :=
  (1 - (v_old - th_old) / ((threshold - th_old) - (U - v_old))) * resolution_ms.

(** Reset of the after-spike currents when the refractory period ends. *)
Definition reset_ASCurrents : M glif_psc unit :=
  n <- get ;;
  for_loop 0 (length (ASCurrents_ (S_ n))) (fun a =>
    n <- get ;;
    amp <- at_ (asc_amps_ (P_ n)) a ;;
    cur <- at_ (ASCurrents_ (S_ n)) a ;;
    ra <- at_ (r_ (P_ n)) a ;;
    ka <- at_ (k_ (P_ n)) a ;;
    modify (on_S (fun s => set_ASCurrents_
      (<[a := amp + cur * ra * exp (- ka * t_ref_total_ (V_ n))]> (ASCurrents_ s)) s))).

(** Sum and decay of the after-spike currents over one step. *)
Definition decay_ASCurrents (dt : R) : M glif_psc unit :=
  n <- get ;;
  for_loop 0 (length (ASCurrents_ (S_ n))) (fun a =>
    n <- get ;;
    cur <- at_ (ASCurrents_ (S_ n)) a ;;
    modify (on_S (fun s => set_ASCurrents_sum_ (ASCurrents_sum_ s + cur) s)) ;;
    ka <- at_ (k_ (P_ n)) a ;;
    modify (on_S (fun s => set_ASCurrents_
      (<[a := cur * exp (- ka * dt)]> (ASCurrents_ s)) s))).

(** The synaptic contribution to the membrane potential. *)
Definition add_synapse_component : M glif_psc unit :=
  n <- get ;;
  for_loop 0 (n_receptors_ (P_ n)) (fun i =>
    n <- get ;;
    p31 <- at_ (P31_ (V_ n)) i ;;
    y1 <- at_ (y1_ (S_ n)) i ;;
    p32 <- at_ (P32_ (V_ n)) i ;;
    y2 <- at_ (y2_ (S_ n)) i ;;
    modify (on_S (fun s => set_U_ (U_ s + (p31 * y1 + p32 * y2)) s)) ;;
    modify (on_S (fun s => set_I_syn_ (I_syn_ s + y2) s))).

(** The alpha-shaped post-synaptic currents, with the spikes delivered in
    this step. *)
Definition alpha_PSCs (lag : Z) : M glif_psc unit :=
  n <- get ;;
  for_loop 0 (n_receptors_ (P_ n)) (fun i =>
    n <- get ;;
    p21 <- at_ (P21_ (V_ n)) i ;;
    y1 <- at_ (y1_ (S_ n)) i ;;
    p22 <- at_ (P22_ (V_ n)) i ;;
    y2 <- at_ (y2_ (S_ n)) i ;;
    modify (on_S (fun s => set_y2_ (<[i := p21 * y1 + p22 * y2]> (y2_ s)) s)) ;;
    p11 <- at_ (P11_ (V_ n)) i ;;
    modify (on_S (fun s => set_y1_ (<[i := y1 * p11]> (y1_ s)) s)) ;;
    psc <- at_ (PSCInitialValues_ (V_ n)) i ;;
    buf <- at_ (spikes_ (B_ n)) i ;;
    let (delivered, buf) := get_value lag buf in
    modify (on_B (fun b => set_spikes_ (<[i := buf]> (spikes_ b)) b)) ;;
    modify (on_S (fun s => set_y1_ (<[i := y1 * p11 + psc * delivered]> (y1_ s)) s))).

(** The neuron has left the refractory period: reset of the after-spike
    currents (models 3, 4, 5), of the voltage, and for the models with
    "R" of the spike component of the threshold and of the threshold. *)
Definition leave_refractory (model_type : Z) : M glif_psc unit :=
  when ((model_type =? 3)%Z || (model_type =? 4)%Z || (model_type =? 5)%Z)
    reset_ASCurrents ;;
  n <- get ;;
  if (model_type =? 1)%Z || (model_type =? 3)%Z
  then modify (on_S (set_U_ (V_reset_ (P_ n))))
  else
    modify (on_S (fun s =>
      set_U_ (voltage_reset_a_ (P_ n) * U_ s + voltage_reset_b_ (P_ n)) s)) ;;
    modify (on_V (fun v => set_last_spike_ (last_spike_ v + a_spike_ (P_ n)) v)) ;;
    n <- get ;;
    modify (on_S (set_threshold_
      (last_spike_ (V_ n) + last_voltage_ (V_ n) + th_inf_ (P_ n)))).

(** "Check if bad reset": the diagnostic is printed, then [assert] stops
    the process ([assert] is taken as compiled in). *)
Definition check_reset : M glif_psc unit :=
  n <- get ;;
  when (bool_decide (U_ (S_ n) > threshold_ (S_ n)))
    (modify (printf (U_ (S_ n), threshold_ (S_ n)))) ;;
  assert (bool_decide (U_ (S_ n) <= threshold_ (S_ n))).

(** The branch of a step taken while [t_ref_remaining_ > 0]: count down;
    the voltage is held until the count reaches zero. *)
Definition refractory_step (K : Kernel) (model_type : Z) (loc : Locals)
  : M glif_psc unit :=
  let dt := resolution K in
  modify (on_V (fun v => set_t_ref_remaining_ (t_ref_remaining_ v - dt) v)) ;;
  n <- get ;;
  if decide (t_ref_remaining_ (V_ n) <= 0.0)
  then leave_refractory model_type ;; check_reset
  else modify (on_S (set_U_ (v_old loc))).

(** The exact solution of the voltage component of the threshold (model 5). *)
Definition voltage_component_exact (p : Parameters_) (dt I ASCurrents_sum v_old
    last_voltage : R) : R :=
  let beta := (I + ASCurrents_sum) / G_ p in
  let phi := a_voltage_ p / (b_voltage_ p - G_ p / C_m_ p) in
  phi * (v_old - beta) * exp (- G_ p * dt / C_m_ p)
  + 1 / (exp (b_voltage_ p * dt))
    * (last_voltage - phi * (v_old - beta) - (a_voltage_ p / b_voltage_ p) * beta)
  + (a_voltage_ p / b_voltage_ p) * beta.

(** The branch of a step taken otherwise: integrate voltage and currents,
    update the threshold, detect a spike.  The value returned is the local
    [voltage_component]. *)
Definition integrate_step (K : Kernel) (model_type : Z) (origin lag : Z)
    (loc : Locals) : M glif_psc R :=
  let dt := resolution K in
  modify (on_S (set_ASCurrents_sum_ 0.0)) ;;
  when ((model_type =? 3)%Z || (model_type =? 4)%Z || (model_type =? 5)%Z)
    (decay_ASCurrents dt) ;;
  n <- get ;;
  modify (on_S (set_U_
    (v_old loc * P33_ (V_ n) + (I_ (S_ n) + ASCurrents_sum_ (S_ n)) * P30_ (V_ n)))) ;;
  modify (on_S (set_I_syn_ 0.0)) ;;
  add_synapse_component ;;
  n <- get ;;
  let voltage_component :=
    if (model_type =? 5)%Z
    then voltage_component_exact (P_ n) dt (I_ (S_ n)) (ASCurrents_sum_ (S_ n))
           (v_old loc) (last_voltage_ (V_ n))
    else voltage_component loc in
  modify (on_S (set_threshold_
    (last_spike_ (V_ n) + voltage_component + th_inf_ (P_ n)))) ;;
  modify (on_V (set_last_voltage_ voltage_component)) ;;
  n <- get ;;
  when (bool_decide (U_ (S_ n) > threshold_ (S_ n)))
    (modify (on_V (set_t_ref_remaining_ (t_ref_total_ (V_ n)))) ;;
     let offset :=
       spike_offset (v_old loc) (th_old loc) (U_ (S_ n)) (threshold_ (S_ n))
         (resolution K) in
     modify (on_archive (fun a =>
       {| spiketimes_ := spiketimes_ a ++ [((origin + lag + 1)%Z, offset)] |})) ;;
     modify (send (offset, lag))) ;;
  ret voltage_component.

(** One pass through the body of the loop of [update].  (The sum [cursum]
    of the first stages is computed by the source and never used; the data
    logger only reads the state.) *)
Definition update_step (K : Kernel) (model_type : Z) (origin lag : Z)
    (loc : Locals) : M glif_psc Locals :=
  let dt := resolution K in
  n <- get ;;
  let spike_component :=
    if (model_type =? 2)%Z || (model_type =? 4)%Z || (model_type =? 5)%Z
    then last_spike_ (V_ n) * exp (- b_spike_ (P_ n) * dt)
    else spike_component loc in
  modify (on_V (set_last_spike_ spike_component)) ;;
  voltage_component <-
    (if decide (t_ref_remaining_ (V_ n) > 0.0)
     then refractory_step K model_type loc ;; ret (voltage_component loc)
     else integrate_step K model_type origin lag loc) ;;
  alpha_PSCs lag ;;
  n <- get ;;
  let (current, buf) := get_value lag (currents_ (B_ n)) in
  modify (on_B (set_currents_ buf)) ;;
  modify (on_S (set_I_ current)) ;;
  n <- get ;;
  ret {| v_old := U_ (S_ n);
         spike_component := spike_component;
         voltage_component := voltage_component;
         th_old := threshold_ (S_ n) |}.

(** [for ( long lag = from; lag < to; ++lag )] *)
Fixpoint update_loop (K : Kernel) (model_type : Z) (origin : Z) (lags : list Z)
    (loc : Locals) : M glif_psc Locals :=
  match lags with
  | [] => ret loc
  | lag :: lags' =>
      loc' <- update_step K model_type origin lag loc ;;
      update_loop K model_type origin lags' loc'
  end.

(** [glif_psc::update( origin, from, to )] *)
Definition update (K : Kernel) (origin from to : Z) : M glif_psc unit :=
  n <- get ;;
  let model_str := transform_tolower (glif_model_ (P_ n)) in
  match find_model (model_type_lu K) model_str with
  | None => throw (BadProperty "Bad glif model type string.")
  | Some model_type =>
      update_loop K model_type origin (seqZ from (to - from))
        {| v_old := U_ (S_ n); spike_component := 0.0;
           voltage_component := 0.0; th_old := threshold_ (S_ n) |} ;;
      ret tt
  end.

(** ** What a dictionary assigns

    [tvalue getValue d n] is the value [updateValue] reads at key [n], if
    the key is present with a datum of the expected type. *)

Definition tvalue {T} (getValue : Datum -> outcome T) (d : Dictionary) (n : Name)
  : option T :=
  match d !! n with
  | Some t => match getValue t with Ok v => Some v | _ => None end
  | None => None
  end.

Definition present {T} (o : option T) : bool :=
  match o with Some _ => true | None => false end.

Definition is_typed {T} (getValue : Datum -> outcome T) (d : Dictionary) (n : Name)
  : Prop :=
  forall t, d !! n = Some t -> exists v, getValue t = Ok v.

Definition dbl := tvalue getValue_double.
Definition vec := tvalue getValue_vector.
Definition str := tvalue getValue_string.

(** The keys read by [Parameters_::set], each with the type it is read at. *)
Definition double_keys : list Name :=
  [names.E_L; names.V_reset; names.V_th; names.g; names.C_m; names.t_ref;
   names.a_spike; names.b_spike; names.a_reset; names.b_reset;
   names.a_voltage; names.b_voltage].

Definition vector_keys : list Name :=
  [names.asc_init; names.k; names.asc_amps; names.r; names.tau_syn].

Definition Parameters_typed (d : Dictionary) : Prop :=
  Forall (is_typed getValue_double d) double_keys
  /\ Forall (is_typed getValue_vector d) vector_keys
  /\ is_typed getValue_string d names.glif_model.

(** The parameters after all the assignments of [Parameters_::set]. *)
Definition assigned (d : Dictionary) (p : Parameters_) : Parameters_ :=
  let E_L' := default (E_L_ p) (dbl d names.E_L) in
  let delta_EL := E_L' - E_L_ p in
  {| E_L_ := E_L';
     G_ := default (G_ p) (dbl d names.g);
     th_inf_ :=
       match dbl d names.V_th with
       | Some th => th - E_L'
       | None => th_inf_ p - delta_EL
       end;
     C_m_ := default (C_m_ p) (dbl d names.C_m);
     t_ref_ := default (t_ref_ p) (dbl d names.t_ref);
     V_reset_ :=
       match dbl d names.V_reset with
       | Some v => v - E_L'
       | None => V_reset_ p - delta_EL
       end;
     a_spike_ := default (a_spike_ p) (dbl d names.a_spike);
     b_spike_ := default (b_spike_ p) (dbl d names.b_spike);
     voltage_reset_a_ := default (voltage_reset_a_ p) (dbl d names.a_reset);
     voltage_reset_b_ := default (voltage_reset_b_ p) (dbl d names.b_reset);
     a_voltage_ := default (a_voltage_ p) (dbl d names.a_voltage);
     b_voltage_ := default (b_voltage_ p) (dbl d names.b_voltage);
     asc_init_ := default (asc_init_ p) (vec d names.asc_init);
     k_ := default (k_ p) (vec d names.k);
     asc_amps_ := default (asc_amps_ p) (vec d names.asc_amps);
     r_ := default (r_ p) (vec d names.r);
     tau_syn_ := default (tau_syn_ p) (vec d names.tau_syn);
     has_connections_ := has_connections_ p;
     glif_model_ := default (glif_model_ p) (str d names.glif_model) |}.

(** The checks of [Parameters_::set] that can fail. *)
Definition valid (d : Dictionary) (p : Parameters_) : Prop :=
  V_reset_ p < th_inf_ p
  /\ 0 < C_m_ p /\ 0 < G_ p /\ 0 < t_ref_ p /\ 0 < b_voltage_ p /\ 0 < b_spike_ p
  /\ Forall (fun x => 0 < x) (k_ p)
  /\ (present (vec d names.tau_syn) = true -> Forall (fun x => 0 < x) (tau_syn_ p)).

(** The invariant of the parameters of a node: what the checks of
    [Parameters_::set] establish. *)
Definition Parameters_ok (p : Parameters_) : Prop :=
  V_reset_ p < th_inf_ p
  /\ 0 < C_m_ p /\ 0 < G_ p /\ 0 < t_ref_ p /\ 0 < b_voltage_ p /\ 0 < b_spike_ p
  /\ Forall (fun x => 0 < x) (k_ p)
  /\ Forall (fun x => 0 < x) (tau_syn_ p).

(** The keys of [Parameters_::get] that [Parameters_::set] reads. *)
Definition settable_keys : list Name := double_keys ++ vector_keys ++ [names.glif_model].

(** ** Concrete nodes and kernels used in the examples *)

Definition example_kernel : Kernel :=
  {| resolution := 1;
     propagator_31 := fun _ _ _ _ => 0;
     propagator_32 := fun _ _ _ _ => 0;
     model_type_lu :=
       [("lif", 1%Z); ("lif_r", 2%Z); ("lif_asc", 3%Z); ("lif_r_asc", 4%Z);
        ("lif_r_asc_a", 5%Z)];
     Archiving_Node_set_status := fun _ => ret tt |}.

(** [glif_psc::glif_psc()]; [V_] is not initialised by the constructor,
    [calibrate] assigns each of its members. *)
Definition glif_psc_default : glif_psc :=
  {| P_ := Parameters_default;
     S_ := {| U_ := 0.0; ASCurrents_ := [0.0; 0.0]; ASCurrents_sum_ := 0;
              threshold_ := -51.68 - E_L_ Parameters_default; I_ := 0.0;
              I_syn_ := 0; y1_ := []; y2_ := [] |};
     V_ := {| t_ref_remaining_ := 0; t_ref_total_ := 0; last_spike_ := 0;
              last_voltage_ := 0; P11_ := []; P21_ := []; P22_ := []; P31_ := [];
              P32_ := []; P30_ := 0; P33_ := 0; PSCInitialValues_ := [] |};
     B_ := {| spikes_ := []; currents_ := ∅ |};
     archive_ := {| spiketimes_ := [] |};
     sent_ := [];
     printed_ := [] |}.

(** A node with two receptor ports, one of which has received a
    connection. *)
Definition two_ports_connected : glif_psc :=
  on_P (fun p => set_has_connections_ true (set_tau_syn_ [2.0; 3.0] p))
    glif_psc_default.

(** The time, counted from the start of a step of length [h], at which
    the straight line from the pre-step potential [v_old] to the post-step
    potential [U] meets the straight line from the pre-step threshold
    [th_old] to the post-step threshold [threshold]. *)
Definition crossing_time (v_old th_old U threshold h : R) : R :=
  (th_old - v_old) / ((U - v_old) - (threshold - th_old)) * h.

(** ** Vocabulary for the statements about [update] *)

(** The per-receptor vectors read by the loop over the receptors all have
    [n_receptors_()] entries; [calibrate] establishes this. *)
Definition synapses_sized (n : glif_psc) : Prop :=
  let m := n_receptors_ (P_ n) in
  length (y1_ (S_ n)) = m /\ length (y2_ (S_ n)) = m
  /\ length (P11_ (V_ n)) = m /\ length (P21_ (V_ n)) = m
  /\ length (P22_ (V_ n)) = m /\ length (PSCInitialValues_ (V_ n)) = m
  /\ length (spikes_ (B_ n)) = m.

(** The stages of receptor [i] after one step, from the values before it. *)
Definition y2_next (n : glif_psc) (i : nat) : R :=
  nth i (P21_ (V_ n)) 0 * nth i (y1_ (S_ n)) 0
  + nth i (P22_ (V_ n)) 0 * nth i (y2_ (S_ n)) 0.

Definition y1_next (n : glif_psc) (lag : Z) (i : nat) : R :=
  nth i (y1_ (S_ n)) 0 * nth i (P11_ (V_ n)) 0
  + nth i (PSCInitialValues_ (V_ n)) 0
    * RingBuffer_peek (nth i (spikes_ (B_ n)) ∅) lag.

Definition spikes_next (n : glif_psc) (lag : Z) (i : nat) : RingBuffer :=
  delete lag (nth i (spikes_ (B_ n)) ∅).

Definition with_synapses (y1 y2 : list R) (sp : list RingBuffer) (n : glif_psc)
  : glif_psc :=
  on_B (set_spikes_ sp) (on_S (fun s => set_y2_ y2 (set_y1_ y1 s)) n).

(** The value an after-spike current is reset to. *)
Definition asc_reset_value (n : glif_psc) (a : nat) : R :=
  nth a (asc_amps_ (P_ n)) 0
  + nth a (ASCurrents_ (S_ n)) 0 * nth a (r_ (P_ n)) 0
    * exp (- nth a (k_ (P_ n)) 0 * t_ref_total_ (V_ n)).

(** The neuron is in the Refractory state. *)
Definition refractory (n : glif_psc) : Prop := t_ref_remaining_ (V_ n) > 0.0.

(** What the membrane part of a step leaves alone. *)
Definition same_synapses (n n' : glif_psc) : Prop :=
  P_ n' = P_ n
  /\ y1_ (S_ n') = y1_ (S_ n) /\ y2_ (S_ n') = y2_ (S_ n)
  /\ spikes_ (B_ n') = spikes_ (B_ n)
  /\ P11_ (V_ n') = P11_ (V_ n) /\ P21_ (V_ n') = P21_ (V_ n)
  /\ P22_ (V_ n') = P22_ (V_ n)
  /\ PSCInitialValues_ (V_ n') = PSCInitialValues_ (V_ n).

(** A computation all of whose runs, whatever their outcome, relate the
    state they start from to the state they end in. *)
Definition preserves {St A} (F : St -> St -> Prop) (c : M St A) : Prop :=
  forall s o s', c s = (o, s') -> F s s'.

(** The list [l] after its first [i] entries have been replaced by
    [f 0], ..., [f (i - 1)]. *)
Definition prefix_updated {A} (f : nat -> A) (i : nat) (l : list A) : list A :=
  map f (seq 0 i) ++ drop i l.

(** The two halves of a step: the membrane part (refractory countdown or
    integration), and the consumption of the inputs delivered in the
    step. *)
Definition membrane_part (K : Kernel) (model_type origin lag : Z) (loc : Locals)
  : M glif_psc R :=
  n <- get ;;
  if decide (t_ref_remaining_ (V_ n) > 0.0)
  then refractory_step K model_type loc ;; ret (voltage_component loc)
  else integrate_step K model_type origin lag loc.

Definition decayed_spike_component (K : Kernel) (model_type : Z) (loc : Locals)
    (n : glif_psc) : R :=
  if (model_type =? 2)%Z || (model_type =? 4)%Z || (model_type =? 5)%Z
  then last_spike_ (V_ n) * exp (- b_spike_ (P_ n) * resolution K)
  else spike_component loc.

Definition consume_inputs (lag : Z) (n : glif_psc) : glif_psc :=
  let m := n_receptors_ (P_ n) in
  on_S (set_I_ (RingBuffer_peek (currents_ (B_ n)) lag))
    (on_B (set_currents_ (delete lag (currents_ (B_ n))))
       (with_synapses (map (y1_next n lag) (seq 0 m)) (map (y2_next n) (seq 0 m))
          (map (spikes_next n lag) (seq 0 m)) n)).

(** The parameter vectors of the after-spike currents cover the currents
    of the state. *)
Definition asc_sized (n : glif_psc) : Prop :=
  let m := length (ASCurrents_ (S_ n)) in
  (m <= length (asc_amps_ (P_ n)))%nat /\ (m <= length (r_ (P_ n)))%nat
  /\ (m <= length (k_ (P_ n)))%nat.

Definition has_ASC (model_type : Z) : bool :=
  (model_type =? 3)%Z || (model_type =? 4)%Z || (model_type =? 5)%Z.

(** The node after the resets at the end of the refractory period. *)
Definition after_reset (model_type : Z) (n : glif_psc) : glif_psc :=
  let n1 :=
    if has_ASC model_type
    then on_S (set_ASCurrents_
                 (map (asc_reset_value n) (seq 0 (length (ASCurrents_ (S_ n)))))) n
    else n in
  if (model_type =? 1)%Z || (model_type =? 3)%Z
  then on_S (set_U_ (V_reset_ (P_ n1))) n1
  else
    let spike := last_spike_ (V_ n1) + a_spike_ (P_ n1) in
    on_S (set_threshold_ (spike + last_voltage_ (V_ n1) + th_inf_ (P_ n1)))
      (on_V (set_last_spike_ spike)
         (on_S (set_U_ (voltage_reset_a_ (P_ n1) * U_ (S_ n1)
                        + voltage_reset_b_ (P_ n1))) n1)).

(** The node when the membrane part of a step starts: the spike component
    of the threshold has decayed. *)
Definition decay_spike_component (K : Kernel) (model_type : Z) (loc : Locals)
    (n : glif_psc) : glif_psc :=
  on_V (set_last_spike_ (decayed_spike_component K model_type loc n)) n.

(** The node after the countdown of one step. *)
Definition count_down (K : Kernel) (n : glif_psc) : glif_psc :=
  on_V (fun v => set_t_ref_remaining_ (t_ref_remaining_ v - resolution K) v) n.

(** What stays as it is while the neuron is held in the Refractory state:
    no integration of voltage or currents, no spike. *)
Definition held (n n' : glif_psc) : Prop :=
  P_ n' = P_ n
  /\ U_ (S_ n') = U_ (S_ n)
  /\ ASCurrents_ (S_ n') = ASCurrents_ (S_ n)
  /\ threshold_ (S_ n') = threshold_ (S_ n)
  /\ t_ref_total_ (V_ n') = t_ref_total_ (V_ n)
  /\ last_voltage_ (V_ n') = last_voltage_ (V_ n)
  /\ archive_ n' = archive_ n
  /\ sent_ n' = sent_ n
  /\ printed_ n' = printed_ n.

(** A refractory node with the example parameters and one receptor port:
    a threshold crossing has set the remaining refractory time, of which
    [t_rem] is left; [b_reset] is the offset of the voltage reset. *)
Definition spiked_node (t_rem b_reset : R) : glif_psc :=
  {| P_ := set_voltage_reset_b_ b_reset (set_asc_init_ [1.5; 2.5] Parameters_default);
     S_ := {| U_ := 30; ASCurrents_ := [1.5; 2.5]; ASCurrents_sum_ := 4;
              threshold_ := 27.17; I_ := 0; I_syn_ := 0; y1_ := [0]; y2_ := [0] |};
     V_ := {| t_ref_remaining_ := t_rem; t_ref_total_ := 3.75; last_spike_ := 0;
              last_voltage_ := 0;
              P11_ := [exp (- (1) / 2.0)]; P21_ := [1 * exp (- (1) / 2.0)];
              P22_ := [exp (- (1) / 2.0)]; P31_ := [0]; P32_ := [0];
              P30_ := 1 / 58.72 * (1 - exp (- (1) / (58.72 / 9.43))) * (58.72 / 9.43);
              P33_ := exp (- (1) / (58.72 / 9.43));
              PSCInitialValues_ := [1.0 * numerics_e / 2.0] |};
     B_ := {| spikes_ := [∅]; currents_ := ∅ |};
     archive_ := {| spiketimes_ := [(1%Z, 0.6)] |};
     sent_ := [(0.6, 0%Z)];
     printed_ := [] |}.

Definition spiked_locals : Locals :=
  {| v_old := 30; spike_component := 0; voltage_component := 0; th_old := 27.17 |}.

(** The entries of receptor [i] in the per-receptor vectors of a node. *)
Record Receptor : Type := {
  rc_y1 : R; rc_y2 : R; rc_buffer : RingBuffer;
  rc_P11 : R; rc_P21 : R; rc_P22 : R; rc_PSCInitialValue : R
}.

Definition receptor_at (n : glif_psc) (i : nat) (rc : Receptor) : Prop :=
  y1_ (S_ n) !! i = Some (rc_y1 rc) /\ y2_ (S_ n) !! i = Some (rc_y2 rc)
  /\ spikes_ (B_ n) !! i = Some (rc_buffer rc)
  /\ P11_ (V_ n) !! i = Some (rc_P11 rc) /\ P21_ (V_ n) !! i = Some (rc_P21 rc)
  /\ P22_ (V_ n) !! i = Some (rc_P22 rc)
  /\ PSCInitialValues_ (V_ n) !! i = Some (rc_PSCInitialValue rc).

(** One step of the two-stage kinetics of a receptor. *)
Definition receptor_step (lag : Z) (rc : Receptor) : Receptor :=
  {| rc_y1 := rc_y1 rc * rc_P11 rc
              + rc_PSCInitialValue rc * RingBuffer_peek (rc_buffer rc) lag;
     rc_y2 := rc_P21 rc * rc_y1 rc + rc_P22 rc * rc_y2 rc;
     rc_buffer := delete lag (rc_buffer rc);
     rc_P11 := rc_P11 rc; rc_P21 := rc_P21 rc; rc_P22 := rc_P22 rc;
     rc_PSCInitialValue := rc_PSCInitialValue rc |}.

(** A unit-weight spike event for receptor port [i + 1], to be delivered
    at step [d] of the slice. *)
Definition unit_spike (i d : nat) : SpikeEvent :=
  {| rport := Z.of_nat i + 1; delay_steps := 1; rel_delivery_steps := Z.of_nat d;
     weight := 1; multiplicity := 1 |}.

(** ** The integration step in closed form *)

(** The sum of the after-spike currents, accumulated from [0.0] in the
    order of the loop. *)
Definition ASCurrents_total (n : glif_psc) : R :=
  fold_left Rplus (ASCurrents_ (S_ n)) 0.0.

Definition ASCurrents_decayed (dt : R) (n : glif_psc) (a : nat) : R :=
  nth a (ASCurrents_ (S_ n)) 0 * exp (- nth a (k_ (P_ n)) 0 * dt).

(** The membrane potential and the synaptic current accumulated over the
    receptors, in the order of the loop. *)
Definition synapse_component (n : glif_psc) (i : nat) : R :=
  nth i (P31_ (V_ n)) 0 * nth i (y1_ (S_ n)) 0
  + nth i (P32_ (V_ n)) 0 * nth i (y2_ (S_ n)) 0.

Definition with_synapse_components (n : glif_psc) (U : R) : R :=
  fold_left (fun u i => u + synapse_component n i) (seq 0 (n_receptors_ (P_ n))) U.

Definition synaptic_current (n : glif_psc) : R :=
  fold_left (fun s i => s + nth i (y2_ (S_ n)) 0) (seq 0 (n_receptors_ (P_ n))) 0.0.

(** The vectors read by the integration have the entries it indexes. *)
Definition membrane_sized (n : glif_psc) : Prop :=
  let m := n_receptors_ (P_ n) in
  length (P31_ (V_ n)) = m /\ length (P32_ (V_ n)) = m
  /\ length (y1_ (S_ n)) = m /\ length (y2_ (S_ n)) = m.

(** The node after voltage, currents and threshold have been integrated
    over one step, before the threshold test. *)
Definition integrated (K : Kernel) (model_type : Z) (loc : Locals) (n : glif_psc)
  : glif_psc :=
  let dt := resolution K in
  let sum := if has_ASC model_type then ASCurrents_total n else 0.0 in
  let asc :=
    if has_ASC model_type
    then map (ASCurrents_decayed dt n) (seq 0 (length (ASCurrents_ (S_ n))))
    else ASCurrents_ (S_ n) in
  let U :=
    with_synapse_components n
      (v_old loc * P33_ (V_ n) + (I_ (S_ n) + sum) * P30_ (V_ n)) in
  let vc :=
    if (model_type =? 5)%Z
    then voltage_component_exact (P_ n) dt (I_ (S_ n)) sum (v_old loc)
           (last_voltage_ (V_ n))
    else voltage_component loc in
  on_V (set_last_voltage_ vc)
    (on_S (fun s =>
       set_threshold_ (last_spike_ (V_ n) + vc + th_inf_ (P_ n))
         (set_I_syn_ (synaptic_current n)
            (set_U_ U (set_ASCurrents_ asc (set_ASCurrents_sum_ sum s))))) n).

(** The threshold test and what a crossing does. *)
Definition detect_spike (K : Kernel) (origin lag : Z) (loc : Locals) (n : glif_psc)
  : glif_psc :=
  if decide (U_ (S_ n) > threshold_ (S_ n))
  then
    let offset :=
      spike_offset (v_old loc) (th_old loc) (U_ (S_ n)) (threshold_ (S_ n))
        (resolution K) in
    send (offset, lag)
      (on_archive (fun a =>
         {| spiketimes_ := spiketimes_ a ++ [((origin + lag + 1)%Z, offset)] |})
         (on_V (set_t_ref_remaining_ (t_ref_total_ (V_ n))) n))
  else n.

(** A node of model 1 about to cross its threshold: pre-step potential 9
    and threshold 10 (relative to [E_L_]), threshold baseline 10.5, one
    receptor port without input, propagators as [calibrate] computes them
    for a step of 1 ms, and the external current that takes the potential
    to 12 within the step. *)
Definition crossing_node : glif_psc :=
  let P33 := exp (- (1) / (58.72 / 9.43)) in
  let P30 := 1 / 58.72 * (1 - P33) * (58.72 / 9.43) in
  {| P_ := set_th_inf_ 10.5 (set_E_L_ (-61.68) Parameters_default);
     S_ := {| U_ := 9; ASCurrents_ := [0.0; 0.0]; ASCurrents_sum_ := 0;
              threshold_ := -51.68 - -61.68; I_ := (12 - 9 * P33) / P30;
              I_syn_ := 0; y1_ := [0]; y2_ := [0] |};
     V_ := {| t_ref_remaining_ := 0.0; t_ref_total_ := 3.75; last_spike_ := 0.0;
              last_voltage_ := 0.0;
              P11_ := [exp (- (1) / 2.0)]; P21_ := [1 * exp (- (1) / 2.0)];
              P22_ := [exp (- (1) / 2.0)]; P31_ := [0]; P32_ := [0];
              P30_ := P30; P33_ := P33;
              PSCInitialValues_ := [1.0 * numerics_e / 2.0] |};
     B_ := {| spikes_ := [∅]; currents_ := ∅ |};
     archive_ := {| spiketimes_ := [] |};
     sent_ := [];
     printed_ := [] |}.

Definition crossing_locals : Locals :=
  {| v_old := 9; spike_component := 0.0; voltage_component := 0.0;
     th_old := -51.68 - -61.68 |}.

(** Every vector that a step indexes has the entries the step reads:
    [calibrate] sizes the per-receptor vectors, and the vectors of the
    after-spike currents come from the parameters. *)
Definition well_sized (model_type : Z) (n : glif_psc) : Prop :=
  synapses_sized n /\ membrane_sized n
  /\ (has_ASC model_type = true -> asc_sized n).

(** Two nodes with the same parameters and vectors of the same lengths. *)
Definition same_shape (n n' : glif_psc) : Prop :=
  P_ n' = P_ n
  /\ length (ASCurrents_ (S_ n')) = length (ASCurrents_ (S_ n))
  /\ length (y1_ (S_ n')) = length (y1_ (S_ n))
  /\ length (y2_ (S_ n')) = length (y2_ (S_ n))
  /\ length (P11_ (V_ n')) = length (P11_ (V_ n))
  /\ length (P21_ (V_ n')) = length (P21_ (V_ n))
  /\ length (P22_ (V_ n')) = length (P22_ (V_ n))
  /\ length (P31_ (V_ n')) = length (P31_ (V_ n))
  /\ length (P32_ (V_ n')) = length (P32_ (V_ n))
  /\ length (PSCInitialValues_ (V_ n')) = length (PSCInitialValues_ (V_ n))
  /\ length (spikes_ (B_ n')) = length (spikes_ (B_ n)).
(** ** The other members of the node *)

(** [handle( CurrentEvent& )]; [ce_rel_delivery_steps] is what
    [e.get_rel_delivery_steps( slice_origin )] returns. *)
Record CurrentEvent : Type := {
  ce_delay_steps : Z;
  ce_rel_delivery_steps : Z;
  ce_weight : R;
  ce_current : R
}.

Definition handle_CurrentEvent (e : CurrentEvent) : M glif_psc unit :=
  assert (0 <? ce_delay_steps e)%Z ;;
  modify (on_B (fun b =>
    set_currents_
      (add_value (ce_rel_delivery_steps e) (ce_weight e * ce_current e) (currents_ b))
      b)).

(** [init_buffers_]: the vector of spike buffers is emptied
    ([std::vector::clear]), the buffer of currents is cleared. *)
Definition init_buffers_ : M glif_psc unit :=
  modify (on_B (set_spikes_ [])) ;;
  modify (on_B (set_currents_ ∅)).

(** The kernel with another resolution. *)
Definition with_resolution (h : R) (K : Kernel) : Kernel :=
  {| resolution := h;
     propagator_31 := propagator_31 K;
     propagator_32 := propagator_32 K;
     model_type_lu := model_type_lu K;
     Archiving_Node_set_status := Archiving_Node_set_status K |}.

(** What [update] leaves alone, whatever its outcome: the parameters and
    the values set by [calibrate]; the record of spikes sent, the spike
    register and the diagnostics only grow. *)
Definition update_frame (n n' : glif_psc) : Prop :=
  P_ n' = P_ n
  /\ t_ref_total_ (V_ n') = t_ref_total_ (V_ n)
  /\ P11_ (V_ n') = P11_ (V_ n) /\ P21_ (V_ n') = P21_ (V_ n)
  /\ P22_ (V_ n') = P22_ (V_ n)
  /\ P31_ (V_ n') = P31_ (V_ n) /\ P32_ (V_ n') = P32_ (V_ n)
  /\ P30_ (V_ n') = P30_ (V_ n) /\ P33_ (V_ n') = P33_ (V_ n)
  /\ PSCInitialValues_ (V_ n') = PSCInitialValues_ (V_ n)
  /\ sent_ n `prefix_of` sent_ n'
  /\ spiketimes_ (archive_ n) `prefix_of` spiketimes_ (archive_ n')
  /\ printed_ n `prefix_of` printed_ n'.

(** The pending currents are the same. *)
Definition same_currents (n n' : glif_psc) : Prop :=
  currents_ (B_ n') = currents_ (B_ n).

(** What holds between two steps of a run of [update] that started below
    the threshold: the vectors are sized, the locals [v_old] and [th_old]
    are the potential and the threshold of the state, and the neuron is
    refractory or its potential is not above its threshold. *)
Definition between_steps (model_type : Z) (loc : Locals) (n : glif_psc) : Prop :=
  well_sized model_type n
  /\ 0 < t_ref_total_ (V_ n)
  /\ v_old loc = U_ (S_ n) /\ th_old loc = threshold_ (S_ n)
  /\ (refractory n \/ U_ (S_ n) <= threshold_ (S_ n)).

(** The entry of the spike register for a spike event sent with offset
    [ev.1] in the step of lag [ev.2]. *)
Definition registered (origin : Z) (ev : R * Z) : Z * R :=
  ((origin + ev.2 + 1)%Z, ev.1).

(** The locals of [update] as far as a step reads them: [v_old] and
    [th_old] always, [spike_component] unless the model recomputes it at
    the start of every step (models 2, 4, 5), [voltage_component] unless
    the model recomputes it before it uses it (model 5). *)
Definition same_locals (model_type : Z) (l1 l2 : Locals) : Prop :=
  v_old l1 = v_old l2 /\ th_old l1 = th_old l2
  /\ ((model_type =? 2)%Z || (model_type =? 4)%Z || (model_type =? 5)%Z = false ->
      spike_component l1 = spike_component l2)
  /\ ((model_type =? 5)%Z = false -> voltage_component l1 = voltage_component l2).

(** Two outcomes of the same kind, with related results. *)
Definition outcome_rel {A} (Q : A -> A -> Prop) (o1 o2 : outcome A) : Prop :=
  match o1, o2 with
  | Ok a, Ok b => Q a b
  | Throw e1, Throw e2 => e1 = e2
  | AssertionFailed, AssertionFailed => True
  | OutOfRange, OutOfRange => True
  | _, _ => False
  end.

(** Every result that a computation returns satisfies [Q]. *)
Definition returns {St A} (Q : A -> Prop) (c : M St A) : Prop :=
  forall s a s', c s = (Ok a, s') -> Q a.

(** The second half of a step: the synaptic stages are advanced, the
    inputs of the lag are consumed, and the locals for the next step are
    returned. *)
Definition input_part (lag : Z) (spike_component voltage_component : R)
  : M glif_psc Locals :=
  alpha_PSCs lag ;;
  n <- get ;;
  let (current, buf) := get_value lag (currents_ (B_ n)) in
  modify (on_B (set_currents_ buf)) ;;
  modify (on_S (set_I_ current)) ;;
  n <- get ;;
  ret {| v_old := U_ (S_ n);
         spike_component := spike_component;
         voltage_component := voltage_component;
         th_old := threshold_ (S_ n) |}.

(** The body of the loop of [decay_ASCurrents]. *)
Definition decay_body (dt : R) (a : nat) : M glif_psc unit :=
  n <- get ;;
  cur <- at_ (ASCurrents_ (S_ n)) a ;;
  modify (on_S (fun s => set_ASCurrents_sum_ (ASCurrents_sum_ s + cur) s)) ;;
  ka <- at_ (k_ (P_ n)) a ;;
  modify (on_S (fun s => set_ASCurrents_
    (<[a := cur * exp (- ka * dt)]> (ASCurrents_ s)) s)).

(** A node that [set_status] accepts and [calibrate] sizes, with one
    time constant for two after-spike currents. *)
Definition short_k_dictionary : Dictionary :=
  {[names.k := DoubleVectorDatum [0.003]; names.glif_model := StringDatum "lif_asc"]}.


(** ** The countdown and the re-based potentials in binary64

    Everything above reads a [double] as a real number.  At two places the
    code feeds a rounded result back into a comparison or into the status
    dictionary, so that rounding shows in what the neuron does: the
    refractory countdown of [update], which subtracts the step size from
    [t_ref_remaining_] once per step and compares the result with zero,
    and the potentials [V_reset] and [V_th], which [Parameters_::set]
    stores relative to [E_L_] and [Parameters_::get] shows with [E_L_]
    added back.  Both are embedded here a second time, on binary64 numbers
    (IEEE 754, rounding to nearest even). *)
Module binary64.
Import PrimFloat.




(** [Parameters_::set], [th_inf_ -= E_L_] (and [V_reset_ -= E_L_]) on the
    entry of the dictionary, followed by [Parameters_::get],
    [th_inf_ + E_L_] (and [V_reset_ + E_L_]). *)
Definition read_back (E_L x : float) : float := add (sub x E_L) E_L.



(** The doubles next to [-78.85], the default of [E_L], and to [-31.8]. *)
Definition E_L_default : float := (-0x1.3b66666666666p+6)%float.
Definition minus_31_8 : float := (-0x1.fcccccccccccdp+4)%float.

(** The double just above the one next to [-31.8]. *)
Definition above_minus_31_8 : float := (-0x1.fccccccccccccp+4)%float.

End binary64.

(** * Properties *)

(** ** The monad *)

Lemma bind_Ok {S A B} (c : M S A) (f : A -> M S B) s a s' :
  c s = (Ok a, s') -> bind c f s = f a s'.
Proof. unfold bind. intros ->. reflexivity. Qed.

Lemma bind_not_Ok {S A B} (c : M S A) (f : A -> M S B) s o s' :
  c s = (o, s') -> (forall a, o <> Ok a) ->
  exists o', bind c f s = (o', s') /\ (forall b, o' <> Ok b)
             /\ (forall e, o = Throw e -> o' = Throw e)
             /\ (o = AssertionFailed -> o' = AssertionFailed).
Proof.
  unfold bind. intros -> Hne. destruct o as [a|e| |].
  - destruct (Hne a eq_refl).
  - exists (Throw e). repeat split; congruence.
  - exists AssertionFailed. repeat split; congruence.
  - exists OutOfRange. repeat split; congruence.
Qed.

Lemma bind_Ok_inv {S A B} (c : M S A) (f : A -> M S B) s b s'' :
  bind c f s = (Ok b, s'') ->
  exists a s', c s = (Ok a, s') /\ f a s' = (Ok b, s'').
Proof.
  unfold bind. destruct (c s) as [[a|e| |] s']; try discriminate.
  intros H. exists a, s'. split; [reflexivity | exact H].
Qed.

Lemma bind_assoc {S A B C} (c : M S A) (f : A -> M S B) (g : B -> M S C) s :
  bind (bind c f) g s = bind c (fun a => bind (f a) g) s.
Proof. unfold bind. destruct (c s) as [[a|e| |] s']; reflexivity. Qed.

(** ** updateValue *)

Lemma updateValue_typed {S T} (gv : Datum -> outcome T) d n
    (setter : T -> S -> S) (getter : S -> T) s :
  (forall s, setter (getter s) s = s) ->
  is_typed gv d n ->
  updateValue gv d n setter s
  = (Ok (present (tvalue gv d n)),
     setter (default (getter s) (tvalue gv d n)) s).
Proof.
  intros Heta Hty. unfold updateValue, tvalue, is_typed in *.
  destruct (d !! n) as [t|].
  - destruct (Hty t eq_refl) as [v ->]. cbn. reflexivity.
  - cbn. rewrite Heta. reflexivity.
Qed.

Lemma updateValue_Ok_typed {S T} (gv : Datum -> outcome T) d n
    (setter : T -> S -> S) s b s' :
  updateValue gv d n setter s = (Ok b, s') -> is_typed gv d n.
Proof.
  unfold updateValue, is_typed. intros H t Ht. rewrite Ht in H.
  destruct (gv t) as [v| | |]; try discriminate. exists v. reflexivity.
Qed.

Lemma updateValue_untyped {S T} (gv : Datum -> outcome T) d n
    (setter : T -> S -> S) s :
  (forall t, gv t = AssertionFailed -> False) ->
  (forall t, gv t = OutOfRange -> False) ->
  ~ is_typed gv d n ->
  exists e, updateValue gv d n setter s = (Throw e, s).
Proof.
  intros H1 H2 Hn. unfold updateValue, is_typed in *.
  destruct (d !! n) as [t|] eqn:Ht.
  - destruct (gv t) as [v|e| |] eqn:Hg.
    + destruct Hn. intros t' [= <-]. exists v. exact Hg.
    + exists e. reflexivity.
    + destruct (H1 t Hg).
    + destruct (H2 t Hg).
  - destruct Hn. intros t' [=].
Qed.

Lemma all_positive_run {S} msg (v : list R) (s : S) :
  all_positive msg v s
  = if decide (Forall (fun x => 0 < x) v) then (Ok tt, s)
    else (Throw (BadProperty msg), s).
Proof.
  induction v as [|x v IH]; cbn [all_positive].
  - destruct (decide (Forall _ [])) as [_|H]; [reflexivity | destruct H; constructor].
  - destruct (decide (x <= 0)) as [Hx|Hx].
    + destruct (decide (Forall _ (x :: v))) as [H|_]; [|reflexivity].
      inversion H; subst. lra.
    + rewrite IH. destruct (decide (Forall _ v)) as [Hv|Hv].
      * destruct (decide (Forall _ (x :: v))) as [_|H]; [reflexivity|].
        destruct H. constructor; [lra | exact Hv].
      * destruct (decide (Forall _ (x :: v))) as [H|_]; [|reflexivity].
        inversion H; subst. contradiction.
Qed.

(** ** Parameters_::set *)

Ltac split_typed H :=
  unfold Parameters_typed, double_keys, vector_keys in H;
  destruct H as (?Hd & ?Hv & ?Hs);
  repeat match goal with
         | H' : Forall _ (_ :: _) |- _ =>
             apply Forall_cons_1 in H'; destruct H' as [? H']
         | H' : Forall _ [] |- _ => clear H'
         end.

Ltac getter_of setter :=
  lazymatch setter with
  | set_E_L_ => constr:(E_L_)
  | set_G_ => constr:(G_)
  | set_th_inf_ => constr:(th_inf_)
  | set_C_m_ => constr:(C_m_)
  | set_t_ref_ => constr:(t_ref_)
  | set_V_reset_ => constr:(V_reset_)
  | set_a_spike_ => constr:(a_spike_)
  | set_b_spike_ => constr:(b_spike_)
  | set_voltage_reset_a_ => constr:(voltage_reset_a_)
  | set_voltage_reset_b_ => constr:(voltage_reset_b_)
  | set_a_voltage_ => constr:(a_voltage_)
  | set_b_voltage_ => constr:(b_voltage_)
  | set_asc_init_ => constr:(asc_init_)
  | set_k_ => constr:(k_)
  | set_asc_amps_ => constr:(asc_amps_)
  | set_r_ => constr:(r_)
  | set_tau_syn_ => constr:(tau_syn_)
  | set_glif_model_ => constr:(glif_model_)
  | set_U_ => constr:(U_)
  | set_ASCurrents_ => constr:(ASCurrents_)
  end.

Ltac norm_param t :=
  eval cbv beta iota zeta delta
      [E_L_ G_ th_inf_ C_m_ t_ref_ V_reset_ a_spike_ b_spike_ voltage_reset_a_
       voltage_reset_b_ a_voltage_ b_voltage_ asc_init_ k_ asc_amps_ r_ tau_syn_
       has_connections_ glif_model_
       set_E_L_ set_G_ set_th_inf_ set_C_m_ set_t_ref_ set_V_reset_ set_a_spike_
       set_b_spike_ set_voltage_reset_a_ set_voltage_reset_b_ set_a_voltage_
       set_b_voltage_ set_asc_init_ set_k_ set_asc_amps_ set_r_ set_tau_syn_
       set_has_connections_ set_glif_model_ n_receptors_] in t.

Ltac param_proj_in E :=
  unfold n_receptors_ in E;
  cbn [E_L_ G_ th_inf_ C_m_ t_ref_ V_reset_ a_spike_ b_spike_ voltage_reset_a_
       voltage_reset_b_ a_voltage_ b_voltage_ asc_init_ k_ asc_amps_ r_ tau_syn_
       has_connections_ glif_model_ default from_option Datatypes.id present] in E.

(** One step of symbolic execution in the hypothesis [E]; the state is a
    record in constructor form. *)
Ltac run_in E :=
  lazymatch type of E with
  | context [bind (gets ?f) ?k ?s] =>
      let v := norm_param (f s) in
      change (bind (gets f) k s) with (k v s) in E; cbv beta in E
  | context [bind get ?k ?s] =>
      change (bind get k s) with (k s s) in E; cbv beta in E
  | context [bind (modify ?f) ?k ?s] =>
      let s' := norm_param (f s) in
      change (bind (modify f) k s) with (k tt s') in E; cbv beta in E
  | context [bind (ret ?a) ?k ?s] =>
      change (bind (ret a) k s) with (k a s) in E; cbv beta in E
  | context [bind (bind ?c ?f) ?g ?s] =>
      rewrite (bind_assoc c f g s) in E
  | context [bind (when (bool_decide (?x <> ?x) && ?b) ?c) ?k ?s] =>
      rewrite (bool_decide_eq_false_2 (x <> x)) in E
        by (let HH := fresh in intros HH; apply HH; reflexivity);
      change (bind (when (false && b) c) k s) with (k tt s) in E; cbv beta in E
  | context [bind (updateValue ?gv ?d ?n ?setter) ?k ?s] =>
      let getter := getter_of setter in
      let s' := norm_param (setter (default (getter s) (tvalue gv d n)) s) in
      let H := fresh in
      assert (H : updateValue gv d n setter s = (Ok (present (tvalue gv d n)), s'))
        by (apply (updateValue_typed gv d n setter getter);
            [intros []; reflexivity | assumption]);
      rewrite (bind_Ok _ k s _ _ H) in E; clear H; cbv beta in E
  end.

Lemma if_modify {S} (b : bool) (f g : S -> S) :
  (if b then modify f else modify g) = modify (fun s => if b then f s else g s).
Proof. destruct b; reflexivity. Qed.

Ltac run_when E :=
  lazymatch type of E with
  | context [bind (when (bool_decide ?P) ?c) ?k ?s] =>
      destruct (decide P);
      [ rewrite (bool_decide_eq_true_2 P) in E by assumption
      | rewrite (bool_decide_eq_false_2 P) in E by assumption;
        change (bind (when false c) k s) with (k tt s) in E; cbv beta in E ]
  | context [bind (all_positive ?msg ?v) ?k ?s] =>
      unfold bind at 1 in E; rewrite (all_positive_run msg v s) in E;
      destruct (decide (Forall (fun x => 0 < x) v))
  end.

Ltac param_proj :=
  cbv beta iota zeta delta
      [E_L_ G_ th_inf_ C_m_ t_ref_ V_reset_ a_spike_ b_spike_ voltage_reset_a_
       voltage_reset_b_ a_voltage_ b_voltage_ asc_init_ k_ asc_amps_ r_ tau_syn_
       has_connections_ glif_model_ n_receptors_ present];
  cbn [default from_option Datatypes.id].

Ltac show_assigned :=
  unfold valid, assigned, dbl, vec, str;
  repeat match goal with H : tvalue _ _ _ = _ |- _ => rewrite H end;
  param_proj.

Ltac failed_check E :=
  lazy beta iota delta [bind when throw] in E; injection E as <- <-;
  right; split;
  [ show_assigned; intros (? & ? & ? & ? & ? & ? & ? & ?);
    first [ lra | contradiction
          | match goal with H : true = true -> _ |- _ =>
              specialize (H eq_refl); contradiction end ]
  | eexists; show_assigned; reflexivity ].

Lemma Parameters_set_typed d p :
  Parameters_typed d ->
  (valid d (assigned d p)
   /\ Parameters_set d p = (Ok (E_L_ (assigned d p) - E_L_ p), assigned d p))
  \/ (~ valid d (assigned d p)
      /\ exists msg, Parameters_set d p = (Throw (BadProperty msg), assigned d p)).
Proof.
  intros Hty. split_typed Hty.
  destruct (Parameters_set d p) as [o p'] eqn:E.
  destruct p. unfold Parameters_set in E.
  destruct (tvalue getValue_double d names.V_reset) as [vr|] eqn:Hvr;
  destruct (tvalue getValue_double d names.V_th) as [vt|] eqn:Hvt;
  destruct (tvalue getValue_vector d names.tau_syn) as [ts|] eqn:Hts.
  all: repeat (first [run_in E | rewrite if_modify in E];
               rewrite ?Hvr, ?Hvt, ?Hts in E; param_proj_in E).
  all: do 7 (run_when E; try solve [failed_check E]; lazy beta iota in E).
  all: repeat (first [run_in E | rewrite if_modify in E];
               rewrite ?Hvr, ?Hvt, ?Hts in E; param_proj_in E).
  all: try (run_when E; try solve [failed_check E]; lazy beta iota in E).
  all: lazy beta iota delta [bind ret] in E; injection E as <- <-.
  all: left; split; [show_assigned; repeat split; try lra; auto
                    | show_assigned; reflexivity].
Qed.

Lemma Parameters_set_Ok_typed d p delta p' :
  Parameters_set d p = (Ok delta, p') -> Parameters_typed d.
Proof.
  intros E. unfold Parameters_set in E.
  repeat (apply bind_Ok_inv in E as (? & ? & ? & E)).
  repeat match goal with
         | H : updateValue _ _ _ _ _ = (Ok _, _) |- _ =>
             apply updateValue_Ok_typed in H
         end.
  unfold Parameters_typed, double_keys, vector_keys.
  repeat first [assumption | split | constructor].
Qed.

(** [Parameters_::set] returns exactly when the dictionary is well typed and
    the assigned values pass the checks; the object then holds the assigned
    values. *)
Lemma Parameters_set_Ok d p delta p' :
  Parameters_set d p = (Ok delta, p') <->
  Parameters_typed d /\ valid d (assigned d p)
  /\ delta = E_L_ (assigned d p) - E_L_ p /\ p' = assigned d p.
Proof.
  split.
  - intros E. pose proof (Parameters_set_Ok_typed _ _ _ _ E) as Hty.
    destruct (Parameters_set_typed d p Hty) as [[Hv E'] | [_ [msg E']]];
      rewrite E' in E; [|discriminate].
    injection E as <- <-. auto.
  - intros (Hty & Hv & -> & ->).
    destruct (Parameters_set_typed d p Hty) as [[_ E'] | [Hn _]];
      [exact E' | contradiction].
Qed.

(** With a well-typed dictionary, values that fail a check make
    [Parameters_::set] throw [BadProperty]. *)
Lemma Parameters_set_invalid d p :
  Parameters_typed d -> ~ valid d (assigned d p) ->
  exists msg, Parameters_set d p = (Throw (BadProperty msg), assigned d p).
Proof.
  intros Hty Hn.
  destruct (Parameters_set_typed d p Hty) as [[Hv _] | [_ H]];
    [contradiction | exact H].
Qed.


(** ** Evaluation of [Parameters_::set] on concrete dictionaries *)

Ltac solve_typed :=
  unfold Parameters_typed, double_keys, vector_keys;
  repeat first [split | constructor];
  (let t := fresh "t" in let Ht := fresh "Ht" in
   intros t Ht; simplify_map_eq; cbn; eauto).

Ltac eval_assigned :=
  unfold valid, Parameters_ok, assigned, dbl, vec, str, tvalue;
  simplify_map_eq; cbn.

Ltac solve_valid :=
  eval_assigned; repeat split; try lra; try (intros _); repeat constructor;
  cbv beta; lra.

Ltac eval_set :=
  apply Parameters_set_Ok; split; [solve_typed | split; [solve_valid | split; reflexivity]].

(** ** set_status *)

(** Whatever makes [set_status] fail, the parameters, the state, the
    internal variables and the buffers of the node are those from before
    the call. *)
Lemma set_status_atomic K d n o n' :
  set_status K d n = (o, n') -> (forall u, o <> Ok u) ->
  P_ n' = P_ n /\ S_ n' = S_ n /\ V_ n' = V_ n /\ B_ n' = B_ n.
Proof.
  unfold set_status, run. intros E Hne.
  destruct (Parameters_set d (P_ n)) as [[delta|e| |] ptmp].
  2-4: injection E as <- <-; auto.
  destruct (State_set d ptmp delta (S_ n)) as [[[]|e| |] stmp].
  2-4: injection E as <- <-; auto.
  destruct (Archiving_Node_set_status K d (archive_ n)) as [[[]|e| |] a];
    injection E as <- <-; auto.
  destruct (Hne tt eq_refl).
Qed.

(** Values that fail a check make [set_status] throw [BadProperty] and
    leave the node as it was. *)
Lemma set_status_invalid K d n :
  Parameters_typed d -> ~ valid d (assigned d (P_ n)) ->
  exists msg, set_status K d n = (Throw (BadProperty msg), n).
Proof.
  intros Hty Hn. destruct (Parameters_set_invalid d (P_ n) Hty Hn) as [msg E].
  exists msg. unfold set_status, run. rewrite E. reflexivity.
Qed.

(** [Parameters_::set] on its own does leave a partial update behind. *)
Lemma Parameters_set_not_atomic :
  exists msg p',
    Parameters_set {[names.C_m := DoubleDatum 100; names.t_ref := DoubleDatum 0]}
      Parameters_default = (Throw (BadProperty msg), p')
    /\ C_m_ p' = 100 /\ C_m_ Parameters_default <> 100.
Proof.
  destruct (Parameters_set_invalid
              {[names.C_m := DoubleDatum 100; names.t_ref := DoubleDatum 0]}
              Parameters_default) as [msg E].
  - solve_typed.
  - eval_assigned. intros (_ & _ & _ & H & _). lra.
  - exists msg. eexists. split; [exact E|]. eval_assigned. split; [reflexivity | lra].
Qed.

(** The check of the number of receptor ports compares the new number with
    itself: a well-typed dictionary whose values pass the other checks is
    accepted whatever it does to the number of ports. *)
Lemma port_count_check_never_fails d p :
  Parameters_typed d -> valid d (assigned d p) ->
  exists delta, Parameters_set d p = (Ok delta, assigned d p).
Proof.
  intros Hty Hv. eexists. apply Parameters_set_Ok. eauto.
Qed.

Lemma State_set_absent d p delta s :
  d !! names.V_m = None -> d !! names.ASCurrents = None ->
  State_set d p delta s = (Ok tt, set_U_ (U_ s - delta) s).
Proof.
  intros H1 H2. unfold State_set, bind, updateValue. rewrite H1. cbn.
  rewrite H2. reflexivity.
Qed.

(** The node [two_ports_connected] is reached from a fresh node: two ports
    are configured, then a connection to port 2 is registered. *)
Lemma two_ports_connected_reachable :
  exists n1 n2,
    set_status example_kernel {[names.tau_syn := DoubleVectorDatum [2.0; 3.0]]}
      glif_psc_default = (Ok tt, n1)
    /\ handles_test_event 2 n1 = (Ok 2%Z, n2)
    /\ P_ n2 = P_ two_ports_connected.
Proof.
  set (d := {[names.tau_syn := DoubleVectorDatum [2.0; 3.0]]} : Dictionary).
  assert (E : Parameters_set d Parameters_default
              = (Ok (E_L_ (assigned d Parameters_default) - E_L_ Parameters_default),
                 assigned d Parameters_default)).
  { subst d. eval_set. }
  eexists. eexists. split; [|split].
  - unfold set_status, run. cbn [P_ S_ glif_psc_default]. rewrite E.
    rewrite State_set_absent by (subst d; simplify_map_eq; reflexivity).
    cbn. reflexivity.
  - reflexivity.
  - subst d. eval_assigned.
    unfold Parameters_default, set_has_connections_, set_tau_syn_. cbn.
    f_equal; try reflexivity; lra.
Qed.

(** C1, the code at the failing input: on a node with two receptor ports
    and a connection, an update that reduces the ports to one is not
    refused.  [set_status] returns normally and a subsequent [get] shows one
    synaptic time constant where there were two. *)
Theorem set_status_accepts_port_reduction :
  has_connections_ (P_ two_ports_connected) = true
  /\ get_status two_ports_connected ∅ !! names.tau_syn
     = Some (DoubleVectorDatum [2.0; 3.0])
  /\ exists n',
       set_status example_kernel {[names.tau_syn := DoubleVectorDatum [2.0]]}
         two_ports_connected = (Ok tt, n')
       /\ get_status n' ∅ !! names.tau_syn = Some (DoubleVectorDatum [2.0]).
Proof.
  split; [reflexivity|]. split; [reflexivity|].
  set (d := {[names.tau_syn := DoubleVectorDatum [2.0]]} : Dictionary).
  set (p := P_ two_ports_connected).
  assert (E : Parameters_set d p = (Ok (E_L_ (assigned d p) - E_L_ p), assigned d p)).
  { subst d p. eval_set. }
  eexists. split.
  - unfold set_status, run. fold p. rewrite E.
    rewrite State_set_absent by (subst d; simplify_map_eq; reflexivity).
    cbn [Archiving_Node_set_status example_kernel ret]. reflexivity.
  - subst d p. unfold get_status, State_get, Parameters_get, def.
    simplify_map_eq. reflexivity.
Qed.

(** C2, the code at the failing input: with [has_connections_] set,
    [Parameters_::set] accepts a dictionary that takes the number of
    receptor ports from two to one, and one that takes it from two to
    three. *)
Theorem Parameters_set_changes_port_count :
  let p := P_ two_ports_connected in
  has_connections_ p = true /\ n_receptors_ p = 2%nat
  /\ (exists delta p',
        Parameters_set {[names.tau_syn := DoubleVectorDatum [2.0]]} p
        = (Ok delta, p') /\ n_receptors_ p' = 1%nat)
  /\ (exists delta p',
        Parameters_set {[names.tau_syn := DoubleVectorDatum [2.0; 3.0; 4.0]]} p
        = (Ok delta, p') /\ n_receptors_ p' = 3%nat).
Proof.
  intros p. split; [reflexivity|]. split; [reflexivity|]. split.
  - eexists. exists (assigned {[names.tau_syn := DoubleVectorDatum [2.0]]} p).
    split; [|subst p; eval_assigned; reflexivity].
    subst p. eval_set.
  - eexists.
    exists (assigned {[names.tau_syn := DoubleVectorDatum [2.0; 3.0; 4.0]]} p).
    split; [|subst p; eval_assigned; reflexivity].
    subst p. eval_set.
Qed.

(** ** get after set *)

Lemma tvalue_Some_typed {T} (gv : Datum -> outcome T) d n t :
  is_typed gv d n -> d !! n = Some t -> exists v, gv t = Ok v /\ tvalue gv d n = Some v.
Proof.
  intros Hty Ht. destruct (Hty t Ht) as [v Hv]. exists v. split; [exact Hv|].
  unfold tvalue. rewrite Ht, Hv. reflexivity.
Qed.

Lemma tvalue_None {T} (gv : Datum -> outcome T) d n :
  d !! n = None -> tvalue gv d n = None.
Proof. unfold tvalue. intros ->. reflexivity. Qed.

Lemma getValue_double_Ok t v : getValue_double t = Ok v -> t = DoubleDatum v.
Proof. destruct t; cbn; congruence. Qed.

Lemma getValue_vector_Ok t v : getValue_vector t = Ok v -> t = DoubleVectorDatum v.
Proof. destruct t; cbn; congruence. Qed.

Lemma getValue_string_Ok t v : getValue_string t = Ok v -> t = StringDatum v.
Proof. destruct t; cbn; congruence. Qed.

Ltac get_entry :=
  unfold Parameters_get, def; simplify_map_eq;
  unfold assigned, dbl, vec, str; cbn.

Ltac key_case d gv_Ok n :=
  let t := fresh "t" in let Ht := fresh "Ht" in
  let v := fresh "v" in let Hv := fresh "Hv" in let Htv := fresh "Htv" in
  destruct (d !! n) as [t|] eqn:Ht;
  [ match goal with
    | Hty : is_typed _ _ n |- _ =>
        destruct (tvalue_Some_typed _ _ _ _ Hty Ht) as (v & Hv & Htv)
    end;
    apply gv_Ok in Hv; subst t; get_entry; rewrite ?Htv; cbn
  | pose proof (tvalue_None getValue_double _ _ Ht);
    pose proof (tvalue_None getValue_vector _ _ Ht);
    pose proof (tvalue_None getValue_string _ _ Ht);
    get_entry;
    repeat match goal with H : tvalue _ _ n = None |- _ => rewrite H end; cbn ].

(** After an accepted update, each key that [Parameters_::set] reads shows
    the value of the dictionary if present there, and its former value
    otherwise. *)
Lemma Parameters_get_assigned d p n :
  Parameters_typed d -> n ∈ settable_keys ->
  Parameters_get (assigned d p) ∅ !! n
  = match d !! n with Some t => Some t | None => Parameters_get p ∅ !! n end.
Proof.
  intros Hty Hn. split_typed Hty.
  unfold settable_keys, double_keys, vector_keys in Hn. cbn [app] in Hn.
  repeat (apply elem_of_cons in Hn as [->|Hn]); [..|inversion Hn].
  1-12: match goal with |- _ !! ?n = _ =>
          key_case d getValue_double_Ok n end;
        try reflexivity; do 2 f_equal;
        repeat match goal with |- context [tvalue ?g ?d' ?k] =>
                 destruct (tvalue g d' k) end; cbn; lra.
  1-5: match goal with |- _ !! ?n = _ =>
          key_case d getValue_vector_Ok n end; reflexivity.
  match goal with |- _ !! ?n = _ =>
    key_case d getValue_string_Ok n end; reflexivity.
Qed.

Lemma assigned_get_id p d0 : assigned (Parameters_get p d0) p = p.
Proof.
  destruct p. unfold assigned, dbl, vec, str, tvalue, Parameters_get, def.
  simplify_map_eq. cbn. f_equal; lra.
Qed.

Lemma assigned_empty_id p : assigned ∅ p = p.
Proof.
  destruct p. unfold assigned, dbl, vec, str, tvalue.
  simplify_map_eq. cbn. f_equal; lra.
Qed.

Lemma Parameters_get_typed p d0 : Parameters_typed (Parameters_get p d0).
Proof.
  unfold Parameters_typed, double_keys, vector_keys, Parameters_get, def.
  repeat first [split | constructor].
  all: intros t Ht; simplify_map_eq; cbn; eauto.
Qed.

(** A full [get]/[set] round trip, and an empty update, are accepted on
    valid parameters and change nothing. *)
Lemma Parameters_set_get_roundtrip p d0 :
  Parameters_ok p -> Parameters_set (Parameters_get p d0) p = (Ok 0, p).
Proof.
  intros (H1 & H2 & H3 & H4 & H5 & H6 & H7 & H8).
  apply Parameters_set_Ok. rewrite assigned_get_id.
  split; [apply Parameters_get_typed|]. split; [|split; [lra | reflexivity]].
  unfold valid. auto 10.
Qed.

Lemma Parameters_set_empty p :
  valid ∅ p -> Parameters_set ∅ p = (Ok 0, p).
Proof.
  intros Hv. apply Parameters_set_Ok. rewrite assigned_empty_id.
  split; [|split; [exact Hv | split; [lra | reflexivity]]].
  unfold Parameters_typed. repeat split.
  1-2: apply Forall_forall; intros n _ t Ht; rewrite lookup_empty in Ht; discriminate.
  intros t Ht; rewrite lookup_empty in Ht; discriminate.
Qed.

(** What [get] shows for the two potentials that [set] stores relative to
    [E_L_]: the expressions of the code. *)
Lemma Parameters_get_rebased d p :
  Parameters_get (assigned d p) ∅ !! names.V_reset
  = Some (DoubleDatum
            (match dbl d names.V_reset with
             | Some x => x - E_L_ (assigned d p)
             | None => V_reset_ p - (E_L_ (assigned d p) - E_L_ p)
             end + E_L_ (assigned d p)))
  /\ Parameters_get (assigned d p) ∅ !! names.V_th
     = Some (DoubleDatum
               (match dbl d names.V_th with
                | Some x => x - E_L_ (assigned d p)
                | None => th_inf_ p - (E_L_ (assigned d p) - E_L_ p)
                end + E_L_ (assigned d p))).
Proof.
  split; unfold Parameters_get, def; simplify_map_eq; reflexivity.
Qed.

(** C6, counterexample: [get] exposes the key [has_connections], and an
    accepted update that carries it leaves the flag as it was. *)
Lemma get_after_set_has_connections :
  let d : Dictionary := {[names.has_connections := BoolDatum true]} in
  exists delta p',
    Parameters_set d Parameters_default = (Ok delta, p')
    /\ d !! names.has_connections = Some (BoolDatum true)
    /\ Parameters_get p' ∅ !! names.has_connections = Some (BoolDatum false)
    /\ Parameters_get p' ∅ !! names.has_connections <> d !! names.has_connections.
Proof.
  intros d. eexists. exists (assigned d Parameters_default).
  split; [subst d; eval_set|]. split; [reflexivity|].
  assert (H : Parameters_get (assigned d Parameters_default) ∅ !! names.has_connections
              = Some (BoolDatum false)).
  { subst d. unfold Parameters_get, def. simplify_map_eq. reflexivity. }
  split; [exact H|]. rewrite H. discriminate.
Qed.

(** C6, as amended: after an accepted update [get] returns, for every key
    that [set] reads (all the keys of [get] but [has_connections]) other
    than [V_reset] and [V_th], the value of the update if the key is
    present and the previous value otherwise; [has_connections] keeps its
    value.  [V_reset] and [V_th] are stored relative to [E_L_] and shown
    with [E_L_] added back: [(x - E_L_) + E_L_] for an entry [x] of the
    update, and [(v - (E_L_ - ELold)) + E_L_] for a stored value [v] that
    the update leaves alone.  An empty update is then accepted and leaves
    every parameter unchanged.  In exact arithmetic (the last two parts)
    [V_reset] and [V_th] also read back as given, or as they were, and a
    full [get]/[set] round trip is accepted and leaves every parameter
    unchanged. *)
Theorem get_after_set (d : Dictionary) (p p' : Parameters_) (delta : R) :
  Parameters_set d p = (Ok delta, p') ->
  (forall n, n ∈ settable_keys -> n <> names.V_reset -> n <> names.V_th ->
     Parameters_get p' ∅ !! n
     = match d !! n with Some t => Some t | None => Parameters_get p ∅ !! n end)
  /\ Parameters_get p' ∅ !! names.has_connections
     = Parameters_get p ∅ !! names.has_connections
  /\ Parameters_get p' ∅ !! names.V_reset
     = Some (DoubleDatum
               (match dbl d names.V_reset with
                | Some x => x - E_L_ p'
                | None => V_reset_ p - (E_L_ p' - E_L_ p)
                end + E_L_ p'))
  /\ Parameters_get p' ∅ !! names.V_th
     = Some (DoubleDatum
               (match dbl d names.V_th with
                | Some x => x - E_L_ p'
                | None => th_inf_ p - (E_L_ p' - E_L_ p)
                end + E_L_ p'))
  /\ Parameters_set ∅ p' = (Ok 0, p')
  /\ (forall n, n = names.V_reset \/ n = names.V_th ->
        Parameters_get p' ∅ !! n
        = match d !! n with Some t => Some t | None => Parameters_get p ∅ !! n end)
  /\ (Forall (fun x => 0 < x) (tau_syn_ p') ->
      Parameters_set (Parameters_get p' ∅) p' = (Ok 0, p')).
Proof.
  intros E. apply Parameters_set_Ok in E as (Hty & Hv & -> & ->).
  split; [intros n Hn _ _; apply Parameters_get_assigned; assumption|].
  split; [unfold Parameters_get, def; simplify_map_eq; reflexivity|].
  split; [apply Parameters_get_rebased|].
  split; [apply Parameters_get_rebased|].
  destruct Hv as (H1 & H2 & H3 & H4 & H5 & H6 & H7 & H8).
  split; [|split].
  - apply Parameters_set_empty. unfold valid. repeat split; try assumption.
    unfold vec, tvalue. rewrite lookup_empty. discriminate.
  - intros n Hn. apply Parameters_get_assigned; [assumption|].
    unfold settable_keys, double_keys. destruct Hn as [-> | ->]; set_solver.
  - intros Htau. apply Parameters_set_get_roundtrip.
    unfold Parameters_ok. auto 10.
Qed.

Lemma get_after_set_witness :
  exists delta p',
    Parameters_set {[names.E_L := DoubleDatum (-70); names.C_m := DoubleDatum 100]}
      Parameters_default = (Ok delta, p')
    /\ Parameters_get p' ∅ !! names.E_L = Some (DoubleDatum (-70))
    /\ Parameters_get p' ∅ !! names.C_m = Some (DoubleDatum 100)
    /\ Parameters_get p' ∅ !! names.V_th
       = Some (DoubleDatum (27.17 - (-70 - -78.85) + -70))
    /\ Parameters_set ∅ p' = (Ok 0, p').
Proof.
  set (d := {[names.E_L := DoubleDatum (-70); names.C_m := DoubleDatum 100]} : Dictionary).
  assert (E : Parameters_set d Parameters_default
              = (Ok (E_L_ (assigned d Parameters_default) - E_L_ Parameters_default),
                 assigned d Parameters_default)) by (subst d; eval_set).
  assert (HE : E_L_ (assigned d Parameters_default) = -70) by reflexivity.
  assert (Hd : dbl d names.V_th = None) by reflexivity.
  assert (H1 : names.E_L ∈ settable_keys)
    by (unfold settable_keys, double_keys; set_solver).
  assert (H2 : names.C_m ∈ settable_keys)
    by (unfold settable_keys, double_keys; set_solver).
  destruct (get_after_set _ _ _ _ E) as (Hk & _ & _ & Hth & He & _).
  pose proof (Hk names.E_L H1 ltac:(discriminate) ltac:(discriminate)) as K1.
  pose proof (Hk names.C_m H2 ltac:(discriminate) ltac:(discriminate)) as K2.
  rewrite Hd, HE in Hth. clear Hk.
  eexists. eexists. split; [exact E|].
  split; [exact K1|]. split; [exact K2|]. split; [exact Hth | exact He].
Defined.

(** In doubles the value shown for [V_th] need not be the value given:
    with the default [E_L] of [-78.85], a threshold [-31.8] is shown as
    the double just above it, [-31.799999999999997]. *)
Lemma V_th_read_back_binary64 :
  binary64.read_back binary64.E_L_default binary64.minus_31_8
  = binary64.above_minus_31_8
  /\ PrimFloat.eqb (binary64.read_back binary64.E_L_default binary64.minus_31_8)
       binary64.minus_31_8 = false.
Proof. split; vm_compute; reflexivity. Qed.

(** ** The model string *)

Lemma tvalue_insert_ne {T} (gv : Datum -> outcome T) d n n' t :
  n <> n' -> tvalue gv (<[n := t]> d) n' = tvalue gv d n'.
Proof. intros Hne. unfold tvalue. rewrite lookup_insert_ne by exact Hne. reflexivity. Qed.

Lemma tvalue_insert_eq {T} (gv : Datum -> outcome T) d n t :
  tvalue gv (<[n := t]> d) n = match gv t with Ok v => Some v | _ => None end.
Proof. unfold tvalue. rewrite lookup_insert_eq. reflexivity. Qed.

Lemma is_typed_insert_ne {T} (gv : Datum -> outcome T) d n n' t t' :
  n <> n' -> is_typed gv (<[n := t]> d) n' -> is_typed gv (<[n := t']> d) n'.
Proof.
  intros Hne H u. rewrite lookup_insert_ne by exact Hne. intros Hu.
  apply H. rewrite lookup_insert_ne by exact Hne. exact Hu.
Qed.

Lemma Parameters_typed_glif_model d s s' :
  Parameters_typed (<[names.glif_model := StringDatum s]> d) ->
  Parameters_typed (<[names.glif_model := StringDatum s']> d).
Proof.
  intros (Hd & Hv & _). split; [|split].
  - eapply Forall_impl; [exact Hd|]. intros n Hn.
    destruct (decide (names.glif_model = n)) as [<-|Hne].
    + intros t. rewrite lookup_insert_eq. intros [= <-].
      destruct (Hn (StringDatum s)) as [v Hv']; [apply lookup_insert_eq | discriminate].
    + eapply is_typed_insert_ne; eauto.
  - eapply Forall_impl; [exact Hv|]. intros n Hn.
    destruct (decide (names.glif_model = n)) as [<-|Hne].
    + intros t. rewrite lookup_insert_eq. intros [= <-].
      destruct (Hn (StringDatum s)) as [v Hv']; [apply lookup_insert_eq | discriminate].
    + eapply is_typed_insert_ne; eauto.
  - intros t. rewrite lookup_insert_eq. intros [= <-]. eexists. reflexivity.
Qed.

Lemma assigned_glif_model d p s :
  assigned (<[names.glif_model := StringDatum s]> d) p
  = set_glif_model_ s (assigned d p).
Proof.
  unfold assigned, dbl, vec, str.
  rewrite !tvalue_insert_ne by discriminate.
  rewrite tvalue_insert_eq. reflexivity.
Qed.

Lemma valid_glif_model d p s :
  valid (<[names.glif_model := StringDatum s]> d) (set_glif_model_ s p) <-> valid d p.
Proof.
  unfold valid, vec. rewrite tvalue_insert_ne by discriminate. reflexivity.
Qed.

(** C10: [Parameters_::set] stores whatever string comes under
    [glif_model]: if it accepts a dictionary with one string it accepts it
    with any other.  A string that is not in [model_type_lu] after
    lower-casing makes the next [update] throw [BadProperty], the node
    being as it was before the call. *)
Theorem glif_model_checked_in_update (K : Kernel) (d : Dictionary)
    (p p' : Parameters_) (s : string) (delta : R) (n : glif_psc)
    (origin from to : Z) :
  Parameters_set (<[names.glif_model := StringDatum s]> d) p = (Ok delta, p') ->
  P_ n = p' ->
  find_model (model_type_lu K) (transform_tolower s) = None ->
  glif_model_ p' = s
  /\ (forall s', Parameters_set (<[names.glif_model := StringDatum s']> d) p
                 = (Ok delta, set_glif_model_ s' p'))
  /\ update K origin from to n
     = (Throw (BadProperty "Bad glif model type string."), n).
Proof.
  intros E HP Hfind.
  apply Parameters_set_Ok in E as (Hty & Hv & -> & ->).
  rewrite assigned_glif_model in *.
  split; [reflexivity|]. split.
  - intros s'. apply Parameters_set_Ok. rewrite assigned_glif_model.
    split; [eapply Parameters_typed_glif_model; exact Hty|].
    split; [apply valid_glif_model; apply valid_glif_model in Hv; exact Hv|].
    split; reflexivity.
  - unfold update. change (bind get ?k n) with (k n n). cbv beta.
    rewrite HP. cbn [glif_model_ set_glif_model_]. rewrite Hfind. reflexivity.
Qed.

Lemma glif_model_checked_in_update_witness :
  exists delta p',
    Parameters_set {[names.glif_model := StringDatum "GLIF_9"]} Parameters_default
    = (Ok delta, p')
    /\ glif_model_ p' = "GLIF_9"
    /\ update example_kernel 0 0 10 (on_P (fun _ => p') glif_psc_default)
       = (Throw (BadProperty "Bad glif model type string."),
          on_P (fun _ => p') glif_psc_default).
Proof.
  set (d := {[names.glif_model := StringDatum "GLIF_9"]} : Dictionary).
  assert (E : Parameters_set (<[names.glif_model := StringDatum "GLIF_9"]> ∅)
                Parameters_default
              = (Ok (E_L_ (assigned d Parameters_default) - E_L_ Parameters_default),
                 assigned d Parameters_default)) by (subst d; eval_set).
  eexists. eexists. split; [exact E|].
  destruct (glif_model_checked_in_update example_kernel ∅ Parameters_default
              _ "GLIF_9" _ (on_P (fun _ => assigned d Parameters_default)
                              glif_psc_default) 0 0 10 E eq_refl eq_refl)
    as (H1 & _ & H3).
  split; [exact H1 | exact H3].
Defined.

(** ** The sub-step offset of a spike *)

(** The offset is the part of the step that remains after the crossing:
    it is counted back from the end of the step. *)
Lemma spike_offset_from_step_end (v_old th_old U threshold h : R) :
  (U - v_old) - (threshold - th_old) <> 0 -> h <> 0 ->
  let t := crossing_time v_old th_old U threshold h in
  spike_offset v_old th_old U threshold h = h - t
  /\ v_old + (U - v_old) * (t / h) = th_old + (threshold - th_old) * (t / h).
Proof.
  intros Hd Hh. unfold spike_offset, crossing_time. cbv zeta. split.
  - field. lra.
  - field. split; lra.
Qed.

(** ** calibrate *)

Lemma calibrate_run K n :
  calibrate K n
  = (Ok tt,
     let p := P_ n in
     let h := resolution K in
     let Tau_ := C_m_ p / G_ p in
     let P11 := map (fun tau => exp (- h / tau)) (tau_syn_ p) in
     on_B (fun b => set_spikes_ (resize (n_receptors_ p) ∅ (spikes_ b)) b)
       (on_S (fun s => set_y2_ (resize (n_receptors_ p) 0 (y2_ s))
                         (set_y1_ (resize (n_receptors_ p) 0 (y1_ s)) s))
          (on_V (fun _ =>
             {| t_ref_remaining_ := 0.0;
                t_ref_total_ := t_ref_ p;
                last_spike_ := 0.0;
                last_voltage_ := 0.0;
                P11_ := P11;
                P21_ := map (fun p11 => h * p11) P11;
                P22_ := P11;
                P31_ := map (fun tau => propagator_31 K tau Tau_ (C_m_ p) h) (tau_syn_ p);
                P32_ := map (fun tau => propagator_32 K tau Tau_ (C_m_ p) h) (tau_syn_ p);
                P30_ := 1 / C_m_ p * (1 - exp (- h / Tau_)) * Tau_;
                P33_ := exp (- h / Tau_);
                PSCInitialValues_ :=
                  map (fun tau => 1.0 * numerics_e / tau) (tau_syn_ p) |}) n))).
Proof. reflexivity. Qed.

Lemma exp_decay_lt_1 (h tau : R) : 0 < h -> 0 < tau -> exp (- h / tau) < 1.
Proof.
  intros Hh Htau. rewrite <- exp_0. apply exp_increasing.
  unfold Rdiv. rewrite <- Ropp_mult_distr_l.
  apply Ropp_lt_gt_0_contravar. apply Rmult_gt_0_compat; [lra|].
  apply Rinv_0_lt_compat. exact Htau.
Qed.

(** C5: for positive capacitance, conductance and step size, [calibrate]
    returns and leaves in [P33_] the exponential decay
    [exp (- h / (C_m / G))] of the membrane time constant over one step,
    a number strictly between 0 and 1 whatever the step size. *)
Theorem calibrate_P33 (K : Kernel) (n : glif_psc) :
  0 < C_m_ (P_ n) -> 0 < G_ (P_ n) -> 0 < resolution K ->
  exists n',
    calibrate K n = (Ok tt, n')
    /\ P33_ (V_ n') = exp (- resolution K / (C_m_ (P_ n) / G_ (P_ n)))
    /\ 0 < P33_ (V_ n') < 1.
Proof.
  intros HC HG Hh. eexists. split; [apply calibrate_run|].
  cbn. split; [reflexivity|]. split; [apply exp_pos|].
  apply exp_decay_lt_1; [exact Hh|]. apply Rdiv_lt_0_compat; assumption.
Qed.

Lemma calibrate_P33_witness :
  exists n',
    calibrate example_kernel glif_psc_default = (Ok tt, n')
    /\ P33_ (V_ n') = exp (- 1 / (58.72 / 9.43))
    /\ 0 < P33_ (V_ n') < 1.
Proof.
  apply (calibrate_P33 example_kernel glif_psc_default); cbn; lra.
Defined.

(** The decay over a step [h1 + h2] is the decay over [h1] followed by the
    decay over [h2]: no step-size dependent error. *)
Lemma P33_step_additive (C G h1 h2 : R) :
  exp (- (h1 + h2) / (C / G)) = exp (- h1 / (C / G)) * exp (- h2 / (C / G)).
Proof. rewrite <- exp_plus. f_equal. unfold Rdiv. ring. Qed.

(** ** Loops *)

Lemma for_loop_inv {St} (I : nat -> St -> Prop) (body : nat -> M St unit)
    (count from : nat) (s : St) :
  I from s ->
  (forall i s, (from <= i < from + count)%nat -> I i s ->
     exists s', body i s = (Ok tt, s') /\ I (S i) s') ->
  exists s', for_loop from count body s = (Ok tt, s') /\ I (from + count)%nat s'.
Proof.
  revert from s. induction count as [|count IH]; intros from s HI Hbody.
  - exists s. rewrite Nat.add_0_r. split; [reflexivity | exact HI].
  - destruct (Hbody from s) as (s1 & E1 & HI1); [lia | exact HI |].
    destruct (IH (S from) s1 HI1) as (s2 & E2 & HI2).
    { intros i s' Hi. apply Hbody. lia. }
    exists s2. split.
    + cbn [for_loop]. rewrite (bind_Ok _ _ _ _ _ E1). exact E2.
    + replace (from + S count)%nat with (S from + count)%nat by lia. exact HI2.
Qed.

Lemma preserves_ret {St A} (F : St -> St -> Prop) `{!Reflexive F} (a : A) :
  preserves F (ret a).
Proof. intros s o s' [= <- <-]. reflexivity. Qed.

Lemma preserves_get {St} (F : St -> St -> Prop) `{!Reflexive F} :
  preserves F (@get St).
Proof. intros s o s' [= <- <-]. reflexivity. Qed.

Lemma preserves_modify {St} (F : St -> St -> Prop) (f : St -> St) :
  (forall s, F s (f s)) -> preserves F (modify f).
Proof. intros H s o s' [= <- <-]. apply H. Qed.

Lemma preserves_throw {St A} (F : St -> St -> Prop) `{!Reflexive F} e :
  preserves F (@throw St A e).
Proof. intros s o s' [= <- <-]. reflexivity. Qed.

Lemma preserves_assert {St} (F : St -> St -> Prop) `{!Reflexive F} b :
  preserves F (@assert St b).
Proof. intros s o s'. unfold assert. destruct b; intros [= <- <-]; reflexivity. Qed.

Lemma preserves_at {St T} (F : St -> St -> Prop) `{!Reflexive F} (v : list T) i :
  preserves F (@at_ St T v i).
Proof.
  intros s o s'. unfold at_. destruct (v !! i); intros [= <- <-]; reflexivity.
Qed.

Lemma preserves_bind {St A B} (F : St -> St -> Prop) `{!Transitive F}
    (c : M St A) (f : A -> M St B) :
  preserves F c -> (forall a, preserves F (f a)) -> preserves F (bind c f).
Proof.
  intros Hc Hf s o s'. unfold bind.
  destruct (c s) as [[a|e| |] s1] eqn:E; pose proof (Hc _ _ _ E) as H1.
  - intros E2. etransitivity; [exact H1 | exact (Hf a _ _ _ E2)].
  - intros [= <- <-]. exact H1.
  - intros [= <- <-]. exact H1.
  - intros [= <- <-]. exact H1.
Qed.

Lemma preserves_when {St} (F : St -> St -> Prop) `{!Reflexive F} b (c : M St unit) :
  preserves F c -> preserves F (when b c).
Proof. intros Hc. destruct b; [exact Hc | apply preserves_ret; exact _]. Qed.

Lemma preserves_for_loop {St} (F : St -> St -> Prop) `{!Reflexive F, !Transitive F}
    (body : nat -> M St unit) count from :
  (forall i, preserves F (body i)) -> preserves F (for_loop from count body).
Proof.
  intros Hb. revert from. induction count as [|count IH]; intros from; cbn [for_loop].
  - apply preserves_ret; exact _.
  - apply preserves_bind; [exact _ | apply Hb | intros _; apply IH].
Qed.

#[global] Instance same_synapses_refl : Reflexive same_synapses.
Proof. intros n. unfold same_synapses. repeat split. Qed.

#[global] Instance same_synapses_trans : Transitive same_synapses.
Proof.
  intros a b c. unfold same_synapses.
  intros (?&?&?&?&?&?&?&?) (?&?&?&?&?&?&?&?). repeat split; congruence.
Qed.

Ltac preserves_tac :=
  repeat first
    [ apply preserves_bind; [exact _ | | intros ?]
    | apply preserves_ret; exact _
    | apply preserves_get; exact _
    | apply preserves_throw; exact _
    | apply preserves_assert; exact _
    | apply preserves_at; exact _
    | apply preserves_when; [exact _ |]
    | apply preserves_for_loop; [exact _ | exact _ | intros ?]
    | apply preserves_modify; intros ?; unfold same_synapses; cbn; repeat split;
      reflexivity
    | match goal with
      | |- preserves _ (if ?b then _ else _) => destruct b
      end ].

Lemma reset_ASCurrents_same_synapses : preserves same_synapses reset_ASCurrents.
Proof. unfold reset_ASCurrents. preserves_tac. Qed.

Lemma refractory_step_same_synapses K mt loc :
  preserves same_synapses (refractory_step K mt loc).
Proof.
  unfold refractory_step, leave_refractory, check_reset, reset_ASCurrents.
  preserves_tac.
Qed.

Lemma integrate_step_same_synapses K mt origin lag loc :
  preserves same_synapses (integrate_step K mt origin lag loc).
Proof.
  unfold integrate_step, decay_ASCurrents, add_synapse_component.
  preserves_tac.
Qed.

(** ** Lists updated index by index *)

Lemma prefix_updated_0 {A} (f : nat -> A) l : prefix_updated f 0 l = l.
Proof. reflexivity. Qed.

Lemma prefix_updated_all {A} (f : nat -> A) l :
  prefix_updated f (length l) l = map f (seq 0 (length l)).
Proof. unfold prefix_updated. rewrite drop_all. apply app_nil_r. Qed.

Lemma prefix_updated_length {A} (f : nat -> A) l m :
  length l = m -> prefix_updated f m l = map f (seq 0 m).
Proof. intros <-. apply prefix_updated_all. Qed.

Lemma length_prefix_updated {A} (f : nat -> A) i l :
  (i <= length l)%nat -> length (prefix_updated f i l) = length l.
Proof.
  intros Hi. unfold prefix_updated.
  rewrite length_app, length_map, length_seq, length_drop. lia.
Qed.

Lemma lookup_prefix_updated {A} (f : nat -> A) i l :
  (i <= length l)%nat -> prefix_updated f i l !! i = l !! i.
Proof.
  intros Hi. unfold prefix_updated.
  rewrite lookup_app_r; rewrite length_map, length_seq; [|lia].
  rewrite lookup_drop. f_equal. lia.
Qed.

Lemma insert_prefix_updated {A} (f : nat -> A) i l :
  (i < length l)%nat -> <[i := f i]> (prefix_updated f i l) = prefix_updated f (S i) l.
Proof.
  intros Hi. unfold prefix_updated.
  rewrite insert_app_r_alt; rewrite length_map, length_seq; [|lia].
  rewrite Nat.sub_diag.
  destruct (lookup_lt_is_Some_2 l i Hi) as [x Hx].
  rewrite (drop_S l x i Hx). cbn [insert list_insert].
  rewrite seq_S, map_app. cbn. rewrite <- app_assoc. reflexivity.
Qed.

Lemma lookup_map_seq {A} (f : nat -> A) m i :
  (i < m)%nat -> map f (seq 0 m) !! i = Some (f i).
Proof.
  intros Hi. change (map f (seq 0 m)) with (f <$> seq 0 m).
  rewrite list_lookup_fmap, lookup_seq_lt by lia. reflexivity.
Qed.

Lemma nth_of_lookup {A} (l : list A) i x d : l !! i = Some x -> nth i l d = x.
Proof.
  revert i. induction l as [|y l IH]; intros [|i]; cbn; try discriminate.
  - congruence.
  - apply IH.
Qed.

Lemma lookup_lt_nth {A} (l : list A) i d :
  (i < length l)%nat -> l !! i = Some (nth i l d).
Proof.
  intros Hi. destruct (lookup_lt_is_Some_2 l i Hi) as [x Hx].
  rewrite Hx. f_equal. symmetry. apply nth_of_lookup. exact Hx.
Qed.

Lemma bind_at {St T B} (v : list T) i x (k : T -> M St B) s :
  v !! i = Some x -> bind (at_ v i) k s = k x s.
Proof. intros H. unfold bind, at_. rewrite H. reflexivity. Qed.

(** ** The synaptic currents over one step *)

Ltac node_proj :=
  cbn [with_synapses on_P on_S on_V on_B on_archive send printf
       P_ S_ V_ B_ archive_ sent_ printed_
       U_ ASCurrents_ ASCurrents_sum_ threshold_ I_ I_syn_ y1_ y2_
       set_U_ set_ASCurrents_ set_ASCurrents_sum_ set_threshold_ set_I_ set_I_syn_
       set_y1_ set_y2_
       t_ref_remaining_ t_ref_total_ last_spike_ last_voltage_ P11_ P21_ P22_ P31_
       P32_ P30_ P33_ PSCInitialValues_
       set_t_ref_remaining_ set_last_spike_ set_last_voltage_
       spikes_ currents_ set_spikes_ set_currents_].

Ltac node_norm :=
  cbv beta iota zeta delta
      [with_synapses on_P on_S on_V on_B on_archive send printf
       P_ S_ V_ B_ archive_ sent_ printed_
       U_ ASCurrents_ ASCurrents_sum_ threshold_ I_ I_syn_ y1_ y2_
       set_U_ set_ASCurrents_ set_ASCurrents_sum_ set_threshold_ set_I_ set_I_syn_
       set_y1_ set_y2_
       t_ref_remaining_ t_ref_total_ last_spike_ last_voltage_ P11_ P21_ P22_ P31_
       P32_ P30_ P33_ PSCInitialValues_
       set_t_ref_remaining_ set_last_spike_ set_last_voltage_
       spikes_ currents_ set_spikes_ set_currents_].

Ltac run_get :=
  match goal with
  | |- context [bind get ?k ?s] => change (bind get k s) with (k s s); cbv beta
  | |- context [bind (modify ?f) ?k ?s] =>
      change (bind (modify f) k s) with (k tt (f s)); cbv beta
  | |- context [bind (ret ?a) ?k ?s] =>
      change (bind (ret a) k s) with (k a s); cbv beta
  end.

Ltac read_at d :=
  erewrite bind_at
    by (rewrite ?lookup_prefix_updated by lia; apply (lookup_lt_nth _ _ d); lia).

Lemma with_synapses_id n :
  with_synapses (y1_ (S_ n)) (y2_ (S_ n)) (spikes_ (B_ n)) n = n.
Proof. destruct n as [p [] v [] a se pr]. reflexivity. Qed.

Lemma alpha_PSCs_run lag n :
  synapses_sized n ->
  let m := n_receptors_ (P_ n) in
  alpha_PSCs lag n
  = (Ok tt,
     with_synapses (map (y1_next n lag) (seq 0 m)) (map (y2_next n) (seq 0 m))
       (map (spikes_next n lag) (seq 0 m)) n).
Proof.
  intros (L1 & L2 & L3 & L4 & L5 & L6 & L7) m. fold m in L1, L2, L3, L4, L5, L6, L7.
  unfold alpha_PSCs. run_get. fold m.
  set (I := fun (i : nat) (s : glif_psc) =>
              s = with_synapses (prefix_updated (y1_next n lag) i (y1_ (S_ n)))
                    (prefix_updated (y2_next n) i (y2_ (S_ n)))
                    (prefix_updated (spikes_next n lag) i (spikes_ (B_ n))) n).
  edestruct (for_loop_inv I) as (s' & E & HI); [| |rewrite E].
  - unfold I. rewrite !prefix_updated_0. symmetry. apply with_synapses_id.
  - intros i s Hi ->. cbn [Nat.add] in Hi. eexists. split.
    + run_get. node_proj.
      do 4 read_at 0. run_get. node_proj.
      read_at 0. run_get. node_proj.
      read_at 0. read_at (∅ : RingBuffer).
      unfold get_value. run_get. node_proj. unfold modify. reflexivity.
    + unfold I.
      transitivity
        (with_synapses
           (<[i := y1_next n lag i]> (prefix_updated (y1_next n lag) i (y1_ (S_ n))))
           (<[i := y2_next n i]> (prefix_updated (y2_next n) i (y2_ (S_ n))))
           (<[i := spikes_next n lag i]>
              (prefix_updated (spikes_next n lag) i (spikes_ (B_ n)))) n).
      * rewrite <- (list_insert_insert_eq _ i (y1_next n lag i)
                      (nth i (y1_ (S_ n)) 0 * nth i (P11_ (V_ n)) 0)).
        destruct n as [p [] v [] a se pr]. reflexivity.
      * rewrite !insert_prefix_updated by lia. reflexivity.
  - unfold I in HI. cbn [Nat.add] in HI. subst s'.
    rewrite !prefix_updated_length by assumption. reflexivity.
Qed.

(** ** One step of [update] *)

Lemma synapses_sized_same n n' :
  same_synapses n n' -> synapses_sized n -> synapses_sized n'.
Proof.
  unfold same_synapses, synapses_sized.
  intros (-> & -> & -> & -> & -> & -> & -> & ->). auto.
Qed.

(** A step is its membrane part followed by the consumption of the
    inputs. *)
Lemma update_step_Ok K mt origin lag loc n vc n1 :
  membrane_part K mt origin lag loc
    (on_V (set_last_spike_ (decayed_spike_component K mt loc n)) n) = (Ok vc, n1) ->
  synapses_sized n ->
  update_step K mt origin lag loc n
  = (Ok {| v_old := U_ (S_ n1);
           spike_component := decayed_spike_component K mt loc n;
           voltage_component := vc;
           th_old := threshold_ (S_ n1) |},
     consume_inputs lag n1).
Proof.
  intros E Hs.
  assert (Hs1 : synapses_sized n1).
  { eapply synapses_sized_same; [|exact Hs].
    assert (H : preserves same_synapses (membrane_part K mt origin lag loc)).
    { unfold membrane_part. preserves_tac.
      all: first [apply refractory_step_same_synapses
                 | apply integrate_step_same_synapses]. }
    pose proof (H _ _ _ E) as H1. etransitivity; [|exact H1].
    unfold same_synapses. cbn. repeat split. }
  unfold update_step. run_get.
  fold (decayed_spike_component K mt loc n). run_get.
  unfold membrane_part in E. revert E. run_get. node_proj. intros E.
  rewrite (bind_Ok _ _ _ _ _ E).
  rewrite (bind_Ok _ _ _ _ _ (alpha_PSCs_run lag n1 Hs1)).
  reflexivity.
Qed.

Lemma update_step_not_Ok K mt origin lag loc n o n1 :
  membrane_part K mt origin lag loc
    (on_V (set_last_spike_ (decayed_spike_component K mt loc n)) n) = (o, n1) ->
  (forall vc, o <> Ok vc) ->
  exists o', update_step K mt origin lag loc n = (o', n1)
             /\ (forall loc', o' <> Ok loc')
             /\ (o = AssertionFailed -> o' = AssertionFailed).
Proof.
  intros E Hne. unfold update_step. run_get.
  fold (decayed_spike_component K mt loc n). run_get.
  unfold membrane_part in E. revert E. run_get. node_proj. intros E.
  destruct (bind_not_Ok _ (fun voltage_component =>
     alpha_PSCs lag;;
     n0 <- get;;
     (let (current, buf) := get_value lag (currents_ (B_ n0)) in
      modify (on_B (set_currents_ buf));;
      modify (on_S (set_I_ current));;
      n2 <- get;;
      ret {| v_old := U_ (S_ n2);
             spike_component := decayed_spike_component K mt loc n;
             voltage_component := voltage_component;
             th_old := threshold_ (S_ n2) |})) _ _ _ E Hne)
    as (o' & E' & Hne' & _ & Ha).
  exists o'. split; [exact E' | split; assumption].
Qed.

Lemma reset_ASCurrents_run n :
  asc_sized n ->
  reset_ASCurrents n
  = (Ok tt,
     on_S (set_ASCurrents_
             (map (asc_reset_value n) (seq 0 (length (ASCurrents_ (S_ n)))))) n).
Proof.
  intros (L1 & L2 & L3). unfold reset_ASCurrents. run_get.
  set (m := length (ASCurrents_ (S_ n))) in *.
  set (I := fun (i : nat) (s : glif_psc) =>
              s = on_S (set_ASCurrents_
                          (prefix_updated (asc_reset_value n) i (ASCurrents_ (S_ n)))) n).
  edestruct (for_loop_inv I) as (s' & E & HI); [| |rewrite E].
  - unfold I. rewrite prefix_updated_0. destruct n as [p [] v b a se pr]. reflexivity.
  - intros i s Hi ->. cbn [Nat.add] in Hi. eexists. split.
    + run_get. node_proj. do 4 read_at 0. unfold modify. reflexivity.
    + unfold I. rewrite <- (insert_prefix_updated (asc_reset_value n) i) by (fold m; lia).
      destruct n as [p [] v b a se pr]. reflexivity.
  - unfold I in HI. cbn [Nat.add] in HI. subst s'.
    rewrite prefix_updated_length by reflexivity. reflexivity.
Qed.

Lemma leave_refractory_run mt n :
  (has_ASC mt = true -> asc_sized n) ->
  leave_refractory mt n = (Ok tt, after_reset mt n).
Proof.
  intros Hasc. unfold leave_refractory, after_reset.
  fold (has_ASC mt). destruct (has_ASC mt).
  - cbn [when]. rewrite (bind_Ok _ _ _ _ _ (reset_ASCurrents_run n (Hasc eq_refl))).
    run_get. destruct ((mt =? 1)%Z || (mt =? 3)%Z).
    + reflexivity.
    + repeat run_get. reflexivity.
  - cbn [when]. repeat run_get. destruct ((mt =? 1)%Z || (mt =? 3)%Z).
    + reflexivity.
    + repeat run_get. reflexivity.
Qed.

Lemma check_reset_run n :
  check_reset n
  = if decide (U_ (S_ n) <= threshold_ (S_ n)) then (Ok tt, n)
    else (AssertionFailed, printf (U_ (S_ n), threshold_ (S_ n)) n).
Proof.
  unfold check_reset. run_get.
  destruct (decide (U_ (S_ n) <= threshold_ (S_ n))) as [Hle|Hgt].
  - rewrite (bool_decide_eq_false_2 (U_ (S_ n) > threshold_ (S_ n))) by lra.
    rewrite (bool_decide_eq_true_2 _ Hle). reflexivity.
  - rewrite (bool_decide_eq_true_2 (U_ (S_ n) > threshold_ (S_ n))) by lra.
    rewrite (bool_decide_eq_false_2 _ Hgt). reflexivity.
Qed.

(** The membrane part of a step while the countdown has not reached
    zero: the voltage is held. *)
Lemma membrane_part_hold' K mt origin lag loc n :
  t_ref_remaining_ (V_ n) > 0.0 ->
  ~ t_ref_remaining_ (V_ n) - resolution K <= 0.0 ->
  membrane_part K mt origin lag loc n
  = (Ok (voltage_component loc), on_S (set_U_ (v_old loc)) (count_down K n)).
Proof.
  intros Ht Hh. unfold membrane_part. run_get.
  destruct (decide (t_ref_remaining_ (V_ n) > 0.0)) as [_|Hn]; [|contradiction].
  unfold refractory_step. rewrite bind_assoc. run_get. fold (count_down K n).
  rewrite bind_assoc. run_get.
  destruct (decide (t_ref_remaining_ (V_ (count_down K n)) <= 0.0)) as [Hle|_].
  { cbn in Hle. contradiction. }
  run_get. reflexivity.
Qed.

Lemma membrane_part_hold K mt origin lag loc n :
  t_ref_remaining_ (V_ n) > resolution K -> resolution K > 0 ->
  membrane_part K mt origin lag loc n
  = (Ok (voltage_component loc), on_S (set_U_ (v_old loc)) (count_down K n)).
Proof. intros Ht Hh. apply membrane_part_hold'; lra. Qed.

(** The membrane part of the step on which the countdown reaches zero. *)
Lemma membrane_part_leave' K mt origin lag loc n :
  t_ref_remaining_ (V_ n) > 0.0 ->
  t_ref_remaining_ (V_ n) - resolution K <= 0.0 ->
  (has_ASC mt = true -> asc_sized n) ->
  let n1 := after_reset mt (count_down K n) in
  membrane_part K mt origin lag loc n
  = if decide (U_ (S_ n1) <= threshold_ (S_ n1))
    then (Ok (voltage_component loc), n1)
    else (AssertionFailed, printf (U_ (S_ n1), threshold_ (S_ n1)) n1).
Proof.
  intros Ht Hl Hasc n1. unfold membrane_part. run_get.
  destruct (decide (t_ref_remaining_ (V_ n) > 0.0)) as [_|Hn]; [|contradiction].
  unfold refractory_step. rewrite bind_assoc. run_get. fold (count_down K n).
  rewrite bind_assoc. run_get.
  destruct (decide (t_ref_remaining_ (V_ (count_down K n)) <= 0.0)) as [_|Hn].
  2:{ cbn in Hn. contradiction. }
  rewrite bind_assoc.
  rewrite (bind_Ok _ _ _ _ _ (leave_refractory_run mt (count_down K n) Hasc)).
  fold n1. unfold bind. rewrite check_reset_run.
  destruct (decide (U_ (S_ n1) <= threshold_ (S_ n1))); reflexivity.
Qed.

Lemma membrane_part_leave K mt origin lag loc n :
  0.0 < t_ref_remaining_ (V_ n) <= resolution K ->
  (has_ASC mt = true -> asc_sized n) ->
  let n1 := after_reset mt (count_down K n) in
  membrane_part K mt origin lag loc n
  = if decide (U_ (S_ n1) <= threshold_ (S_ n1))
    then (Ok (voltage_component loc), n1)
    else (AssertionFailed, printf (U_ (S_ n1), threshold_ (S_ n1)) n1).
Proof. intros Ht Hasc. apply membrane_part_leave'; [lra | lra | exact Hasc]. Qed.

(** The membrane part of a step of a neuron that is not refractory. *)
Lemma membrane_part_integrate K mt origin lag loc n :
  ~ refractory n ->
  membrane_part K mt origin lag loc n = integrate_step K mt origin lag loc n.
Proof.
  intros Hn. unfold membrane_part, refractory in *. run_get.
  destruct (decide (t_ref_remaining_ (V_ n) > 0.0)); [contradiction | reflexivity].
Qed.

(** ** The end of the refractory period *)

Lemma update_loop_cons K mt origin lag lags loc n :
  update_loop K mt origin (lag :: lags) loc n
  = bind (update_step K mt origin lag loc)
      (fun loc' => update_loop K mt origin lags loc') n.
Proof. reflexivity. Qed.

(** The step on which the countdown reaches zero. *)
Lemma update_step_leave K mt origin lag loc n :
  synapses_sized n ->
  (has_ASC mt = true -> asc_sized n) ->
  0.0 < t_ref_remaining_ (V_ n) <= resolution K ->
  let n1 := after_reset mt (count_down K (decay_spike_component K mt loc n)) in
  update_step K mt origin lag loc n
  = if decide (U_ (S_ n1) <= threshold_ (S_ n1))
    then (Ok {| v_old := U_ (S_ n1);
                spike_component := decayed_spike_component K mt loc n;
                voltage_component := voltage_component loc;
                th_old := threshold_ (S_ n1) |},
          consume_inputs lag n1)
    else (AssertionFailed, printf (U_ (S_ n1), threshold_ (S_ n1)) n1).
Proof.
  intros Hs Hasc Ht n1.
  pose proof (membrane_part_leave K mt origin lag loc
                (decay_spike_component K mt loc n) Ht Hasc) as E.
  cbv zeta in E. fold n1 in E.
  destruct (decide (U_ (S_ n1) <= threshold_ (S_ n1))) as [Hle|Hgt].
  - apply (update_step_Ok _ _ _ _ _ _ _ _ E Hs).
  - destruct (update_step_not_Ok _ _ _ _ _ _ _ _ E) as (o' & E' & _ & Ha);
      [discriminate|].
    rewrite (Ha eq_refl) in E'. exact E'.
Qed.

(** C8: on the step on which the refractory period ends, a reset that
    leaves the potential above the threshold prints both values and then
    fails the assertion; the step and the whole loop stop there, in the
    state the reset produced, nothing being clamped and no later step
    being run.  Otherwise the step returns and the potential is not above
    the threshold. *)
Theorem reset_above_threshold_is_fatal (K : Kernel) (mt origin lag : Z)
    (lags : list Z) (loc : Locals) (n : glif_psc) :
  synapses_sized n ->
  (has_ASC mt = true -> asc_sized n) ->
  0.0 < t_ref_remaining_ (V_ n) <= resolution K ->
  let n1 := after_reset mt (count_down K (decay_spike_component K mt loc n)) in
  (U_ (S_ n1) > threshold_ (S_ n1) ->
     update_step K mt origin lag loc n
     = (AssertionFailed, printf (U_ (S_ n1), threshold_ (S_ n1)) n1)
     /\ update_loop K mt origin (lag :: lags) loc n
        = (AssertionFailed, printf (U_ (S_ n1), threshold_ (S_ n1)) n1))
  /\ (U_ (S_ n1) <= threshold_ (S_ n1) ->
      exists loc',
        update_step K mt origin lag loc n = (Ok loc', consume_inputs lag n1)
        /\ U_ (S_ (consume_inputs lag n1)) <= threshold_ (S_ (consume_inputs lag n1))).
Proof.
  intros Hs Hasc Ht n1.
  pose proof (update_step_leave K mt origin lag loc n Hs Hasc Ht) as E.
  cbv zeta in E. fold n1 in E.
  destruct (decide (U_ (S_ n1) <= threshold_ (S_ n1))) as [Hle|Hgt].
  - split; [intros Hgt; lra|]. intros _. eexists. split; [exact E|].
    cbn. exact Hle.
  - split; [|intros Hle; contradiction]. intros _. split; [exact E|].
    rewrite update_loop_cons. unfold bind. rewrite E. reflexivity.
Qed.

Lemma reset_above_threshold_is_fatal_witness :
  exists n1,
    update_loop example_kernel 2 0 [3; 4; 5]%Z spiked_locals (spiked_node 0.75 100)
    = (AssertionFailed, printf (106, 27.54) n1).
Proof.
  destruct (reset_above_threshold_is_fatal example_kernel 2 0 3 [4; 5]%Z
              spiked_locals (spiked_node 0.75 100)) as [H _].
  - unfold synapses_sized. cbn. repeat split.
  - discriminate.
  - cbn. lra.
  - destruct H as [_ H].
    + cbn. lra.
    + eexists. rewrite H. f_equal. f_equal. cbn. f_equal; lra.
Defined.

(** ** The refractory period *)

#[global] Instance held_refl : Reflexive held.
Proof. intros n. unfold held. repeat split. Qed.

#[global] Instance held_trans : Transitive held.
Proof.
  intros a b c. unfold held.
  intros (?&?&?&?&?&?&?&?&?) (?&?&?&?&?&?&?&?&?). repeat split; congruence.
Qed.

(** One step of a neuron whose countdown does not reach zero. *)
Lemma update_step_hold K mt origin lag loc n :
  resolution K > 0 -> t_ref_remaining_ (V_ n) > resolution K ->
  v_old loc = U_ (S_ n) -> synapses_sized n ->
  exists loc' n',
    update_step K mt origin lag loc n = (Ok loc', n')
    /\ held n n' /\ synapses_sized n'
    /\ t_ref_remaining_ (V_ n') = t_ref_remaining_ (V_ n) - resolution K
    /\ v_old loc' = U_ (S_ n').
Proof.
  intros Hh Ht Hv Hs.
  pose proof (membrane_part_hold K mt origin lag loc
                (decay_spike_component K mt loc n) Ht Hh) as E.
  eexists. eexists. split; [apply (update_step_Ok _ _ _ _ _ _ _ _ E Hs)|].
  split; [|split; [|split]].
  - unfold held. cbn. rewrite Hv. repeat split.
  - destruct Hs as (?&?&?&?&?&?&?). unfold synapses_sized. cbn.
    rewrite !length_map, !length_seq. repeat split; assumption.
  - reflexivity.
  - reflexivity.
Qed.

(** A run of steps that all stay within the refractory period. *)
Lemma update_loop_hold K mt origin lags : forall loc n,
  resolution K > 0 ->
  t_ref_remaining_ (V_ n) > INR (length lags) * resolution K ->
  v_old loc = U_ (S_ n) -> synapses_sized n ->
  exists loc' n',
    update_loop K mt origin lags loc n = (Ok loc', n')
    /\ held n n' /\ synapses_sized n'
    /\ t_ref_remaining_ (V_ n')
       = t_ref_remaining_ (V_ n) - INR (length lags) * resolution K
    /\ v_old loc' = U_ (S_ n').
Proof.
  induction lags as [|lag lags IH]; intros loc n Hh Ht Hv Hs.
  - exists loc, n. cbn [update_loop length]. change (INR 0) with 0.
    split; [reflexivity|]. split; [reflexivity|]. split; [exact Hs|].
    split; [lra | exact Hv].
  - cbn [length] in Ht. rewrite S_INR in Ht.
    assert (Hk : 0 <= INR (length lags)) by apply pos_INR.
    destruct (update_step_hold K mt origin lag loc n Hh) as (loc1 & n1 & E1 & Hh1 & Hs1 & Ht1 & Hv1);
      [nra | exact Hv | exact Hs |].
    destruct (IH loc1 n1 Hh) as (loc2 & n2 & E2 & Hh2 & Hs2 & Ht2 & Hv2);
      [rewrite Ht1; nra | exact Hv1 | exact Hs1 |].
    exists loc2, n2. split; [|split; [|split; [|split]]].
    + rewrite update_loop_cons. rewrite (bind_Ok _ _ _ _ _ E1). exact E2.
    + etransitivity; eassumption.
    + exact Hs2.
    + rewrite Ht2, Ht1. cbn [length]. rewrite S_INR. lra.
    + exact Hv2.
Qed.





Lemma after_reset_frame mt n :
  t_ref_remaining_ (V_ (after_reset mt n)) = t_ref_remaining_ (V_ n)
  /\ sent_ (after_reset mt n) = sent_ n
  /\ P_ (after_reset mt n) = P_ n
  /\ ASCurrents_ (S_ (after_reset mt n))
     = if has_ASC mt
       then map (asc_reset_value n) (seq 0 (length (ASCurrents_ (S_ n))))
       else ASCurrents_ (S_ n).
Proof.
  unfold after_reset.
  destruct (has_ASC mt); destruct ((mt =? 1)%Z || (mt =? 3)%Z); repeat split.
Qed.


(** The countdown in binary64. *)








(** C7: on the step on which the remaining refractory time reaches zero
    or below (it starts refractory, and the remaining time less the step
    size is not positive), the models with after-spike currents (3, 4 and
    5) have each current [j] at
    [asc_amps[j] + previous_j * r[j] * exp (- k[j] * t_ref_total)], where
    [previous_j] is its value before the step; the other models have the
    after-spike currents unchanged; this whether the step returns or stops
    on a bad reset.  A step that starts refractory and stays so leaves
    the after-spike currents, the parameters and [t_ref_total_] as they
    are and returns, so that [previous_j] is the value these currents had
    when the spike was detected. *)
Theorem after_spike_currents_reset (K : Kernel) (mt origin lag : Z) (loc : Locals)
    (n n' : glif_psc) (o : outcome Locals) :
  synapses_sized n -> asc_sized n -> refractory n ->
  update_step K mt origin lag loc n = (o, n') ->
  (t_ref_remaining_ (V_ n) - resolution K > 0 ->
     ASCurrents_ (S_ n') = ASCurrents_ (S_ n)
     /\ P_ n' = P_ n /\ t_ref_total_ (V_ n') = t_ref_total_ (V_ n)
     /\ refractory n' /\ synapses_sized n' /\ asc_sized n'
     /\ exists loc', o = Ok loc')
  /\ (t_ref_remaining_ (V_ n) - resolution K <= 0 ->
      ~ refractory n'
      /\ ((mt = 3 \/ mt = 4 \/ mt = 5)%Z ->
          forall j previous amp r k,
            ASCurrents_ (S_ n) !! j = Some previous ->
            asc_amps_ (P_ n) !! j = Some amp ->
            r_ (P_ n) !! j = Some r ->
            k_ (P_ n) !! j = Some k ->
            ASCurrents_ (S_ n') !! j
            = Some (amp + previous * r * exp (- k * t_ref_total_ (V_ n))))
      /\ ((mt <> 3 /\ mt <> 4 /\ mt <> 5)%Z ->
          ASCurrents_ (S_ n') = ASCurrents_ (S_ n))).
Proof.
  intros Hs Hasc Hr E. unfold refractory in Hr. split.
  - intros Ht.
    assert (Hh : ~ t_ref_remaining_ (V_ (decay_spike_component K mt loc n))
                   - resolution K <= 0.0) by (cbn; lra).
    pose proof (membrane_part_hold' K mt origin lag loc
                  (decay_spike_component K mt loc n) Hr Hh) as E1.
    rewrite (update_step_Ok _ _ _ _ _ _ _ _ E1 Hs) in E. injection E as <- <-.
    split; [reflexivity|]. split; [reflexivity|]. split; [reflexivity|].
    split; [unfold refractory; cbn; lra|]. split; [|split; [exact Hasc | eauto]].
    destruct Hs as (?&?&?&?&?&?&?). unfold synapses_sized. cbn.
    rewrite !length_map, !length_seq. repeat split; assumption.
  - intros Ht.
    assert (Ht' : 0.0 < t_ref_remaining_ (V_ n) <= resolution K) by lra.
    pose proof (update_step_leave K mt origin lag loc n Hs (fun _ => Hasc) Ht') as E2.
    cbv zeta in E2.
    set (n0 := count_down K (decay_spike_component K mt loc n)) in *.
    destruct (after_reset_frame mt n0) as (Hrem & _ & _ & HA).
    assert (HA' : ASCurrents_ (S_ n')
                  = if has_ASC mt
                    then map (asc_reset_value n0) (seq 0 (length (ASCurrents_ (S_ n0))))
                    else ASCurrents_ (S_ n0)).
    { rewrite <- HA. rewrite E2 in E.
      destruct (decide _) in E; injection E as _ <-; reflexivity. }
    assert (Hrem' : t_ref_remaining_ (V_ n') = t_ref_remaining_ (V_ n) - resolution K).
    { rewrite E2 in E.
      destruct (decide _) in E; injection E as _ <-;
        [change (V_ (consume_inputs lag (after_reset mt n0))) with (V_ (after_reset mt n0))
        |change (V_ (printf (U_ (S_ (after_reset mt n0)), threshold_ (S_ (after_reset mt n0)))
                       (after_reset mt n0))) with (V_ (after_reset mt n0))];
        rewrite Hrem; reflexivity. }
    clear E E2 HA Hrem.
    split; [unfold refractory; rewrite Hrem'; lra|].
    rewrite HA'. split.
    + intros Hmt j previous amp r k Hprev Hamp Hr' Hk.
      assert (HA : has_ASC mt = true).
      { unfold has_ASC. destruct Hmt as [->|[->| ->]]; reflexivity. }
      rewrite HA. rewrite lookup_map_seq.
      * unfold asc_reset_value. subst n0. cbn.
        rewrite (nth_of_lookup _ _ _ _ Hprev), (nth_of_lookup _ _ _ _ Hamp),
          (nth_of_lookup _ _ _ _ Hr'), (nth_of_lookup _ _ _ _ Hk). reflexivity.
      * subst n0. cbn. apply lookup_lt_Some in Hprev. exact Hprev.
    + intros (H3 & H4 & H5).
      assert (HA : has_ASC mt = false).
      { unfold has_ASC. apply Z.eqb_neq in H3, H4, H5. rewrite H3, H4, H5. reflexivity. }
      rewrite HA. reflexivity.
Qed.

Lemma after_spike_currents_reset_witness :
  exists loc' n',
    update_step example_kernel 3 0 3 spiked_locals (spiked_node 0.75 18.51)
    = (Ok loc', n')
    /\ ~ refractory n'
    /\ ASCurrents_ (S_ n') !! 0%nat = Some (-9.18 + 1.5 * 1.0 * exp (- (0.003) * 3.75))
    /\ ASCurrents_ (S_ n') !! 1%nat = Some (-198.94 + 2.5 * 1.0 * exp (- (0.1) * 3.75)).
Proof.
  assert (Hs : synapses_sized (spiked_node 0.75 18.51))
    by (unfold synapses_sized; cbn; repeat split).
  assert (Ha : asc_sized (spiked_node 0.75 18.51))
    by (unfold asc_sized; cbn; repeat split; lia).
  assert (Ht : 0.0 < t_ref_remaining_ (V_ (spiked_node 0.75 18.51))
               <= resolution example_kernel) by (cbn; lra).
  pose proof (update_step_leave example_kernel 3 0 3 spiked_locals
                (spiked_node 0.75 18.51) Hs (fun _ => Ha) Ht) as E.
  cbv zeta in E.
  destruct (decide _) as [_|Hgt] in E.
  2:{ destruct Hgt. cbn. lra. }
  eexists. eexists. split; [exact E|].
  assert (Hr : refractory (spiked_node 0.75 18.51)) by (unfold refractory; cbn; lra).
  destruct (after_spike_currents_reset example_kernel 3 0 3 spiked_locals
              (spiked_node 0.75 18.51) _ _ Hs Ha Hr E) as [_ H].
  destruct H as (Hn & H & _); [cbn; lra|]. split; [exact Hn|]. split.
  - apply (H (or_introl eq_refl) 0%nat 1.5 (-9.18) 1.0 0.003); reflexivity.
  - apply (H (or_introl eq_refl) 1%nat 2.5 (-198.94) 1.0 0.1); reflexivity.
Defined.

(** ** The synaptic currents *)

Lemma update_loop_app_inv K mt origin lags1 lags2 : forall loc n loc' n',
  update_loop K mt origin (lags1 ++ lags2) loc n = (Ok loc', n') ->
  exists loc1 n1,
    update_loop K mt origin lags1 loc n = (Ok loc1, n1)
    /\ update_loop K mt origin lags2 loc1 n1 = (Ok loc', n').
Proof.
  induction lags1 as [|lag lags1 IH]; intros loc n loc' n' E.
  - exists loc, n. split; [reflexivity | exact E].
  - cbn [app] in E. rewrite update_loop_cons in E.
    apply bind_Ok_inv in E as (loc0 & n0 & E0 & E).
    destruct (IH _ _ _ _ E) as (loc1 & n1 & E1 & E2).
    exists loc1, n1. split; [|exact E2].
    rewrite update_loop_cons. rewrite (bind_Ok _ _ _ _ _ E0). exact E1.
Qed.

(** A step that returns has advanced each receptor by one step of its
    kinetics, whatever the membrane part did. *)
Lemma update_step_receptor K mt origin lag loc n loc' n' i rc :
  synapses_sized n -> update_step K mt origin lag loc n = (Ok loc', n') ->
  receptor_at n i rc ->
  synapses_sized n' /\ P_ n' = P_ n /\ receptor_at n' i (receptor_step lag rc).
Proof.
  intros Hs E Hrc.
  destruct (membrane_part K mt origin lag loc (decay_spike_component K mt loc n))
    as [o n1] eqn:Em.
  assert (Hsame : same_synapses n n1).
  { assert (H : preserves same_synapses (membrane_part K mt origin lag loc)).
    { unfold membrane_part. preserves_tac.
      all: first [apply refractory_step_same_synapses
                 | apply integrate_step_same_synapses]. }
    pose proof (H _ _ _ Em) as H1. etransitivity; [|exact H1].
    unfold same_synapses. cbn. repeat split. }
  destruct o as [vc|e| |].
  2-4: destruct (update_step_not_Ok _ _ _ _ _ _ _ _ Em) as (o' & E' & Hne & _);
       [discriminate | rewrite E' in E; injection E as -> _;
                       destruct (Hne loc' eq_refl)].
  rewrite (update_step_Ok _ _ _ _ _ _ _ _ Em Hs) in E. injection E as _ <-.
  pose proof (synapses_sized_same _ _ Hsame Hs) as Hs1.
  destruct Hsame as (HP & Hy1 & Hy2 & Hsp & H11 & H21 & H22 & Hpsc).
  destruct Hrc as (R1 & R2 & R3 & R4 & R5 & R6 & R7).
  assert (Hi : (i < n_receptors_ (P_ n1))%nat).
  { destruct Hs1 as (L1 & _). rewrite <- L1, Hy1. apply lookup_lt_Some in R1. exact R1. }
  split; [|split].
  - destruct Hs1 as (?&?&?&?&?&?&?). unfold synapses_sized. cbn.
    rewrite !length_map, !length_seq. repeat split; assumption.
  - cbn. exact HP.
  - unfold receptor_at. cbn. rewrite !lookup_map_seq by exact Hi.
    unfold y1_next, y2_next, spikes_next.
    rewrite Hy1, Hy2, Hsp, H11, H21, H22, Hpsc.
    rewrite (nth_of_lookup _ _ _ _ R1), (nth_of_lookup _ _ _ _ R2),
      (nth_of_lookup _ _ _ ∅ R3), (nth_of_lookup _ _ _ _ R4),
      (nth_of_lookup _ _ _ _ R5), (nth_of_lookup _ _ _ _ R6),
      (nth_of_lookup _ _ _ _ R7).
    repeat split; assumption.
Qed.

(** A run of steps that returns has advanced each receptor step by step. *)
Lemma update_loop_receptor K mt origin lags : forall loc n loc' n' i rc,
  synapses_sized n -> update_loop K mt origin lags loc n = (Ok loc', n') ->
  receptor_at n i rc ->
  synapses_sized n' /\ P_ n' = P_ n
  /\ receptor_at n' i (fold_left (fun rc lag => receptor_step lag rc) lags rc).
Proof.
  induction lags as [|lag lags IH]; intros loc n loc' n' i rc Hs E Hrc.
  - cbn in E. injection E as _ <-. cbn. auto.
  - rewrite update_loop_cons in E. apply bind_Ok_inv in E as (loc1 & n1 & E1 & E).
    destruct (update_step_receptor _ _ _ _ _ _ _ _ _ _ Hs E1 Hrc) as (Hs1 & HP1 & Hrc1).
    destruct (IH _ _ _ _ _ _ Hs1 E Hrc1) as (Hs' & HP' & Hrc').
    cbn [fold_left]. split; [exact Hs'|]. split; [congruence | exact Hrc'].
Qed.

Lemma peek_add_value (b : RingBuffer) (d l : Z) (w : R) :
  RingBuffer_peek (add_value d w b) l
  = if decide (l = d) then RingBuffer_peek b d + w else RingBuffer_peek b l.
Proof.
  unfold add_value, RingBuffer_peek at 1. destruct (decide (l = d)) as [->|Hne].
  - rewrite lookup_insert_eq. reflexivity.
  - rewrite lookup_insert_ne by congruence. reflexivity.
Qed.

Lemma peek_delete_ne (b : RingBuffer) (lag l : Z) :
  lag <> l -> RingBuffer_peek (delete lag b) l = RingBuffer_peek b l.
Proof. intros Hne. unfold RingBuffer_peek. rewrite lookup_delete_ne by exact Hne. reflexivity. Qed.

Lemma seqZ_S_end (N : nat) :
  seqZ 0 (Z.of_nat (S N)) = (seqZ 0 (Z.of_nat N) ++ [Z.of_nat N])%list.
Proof.
  rewrite Nat2Z.inj_succ. unfold Z.succ.
  rewrite seqZ_app by lia. f_equal.
Qed.

(** The alpha-shaped response of one receptor to one event: with both
    stages at zero and a single event of weight [w] due at step [d], the
    stages stay at zero through step [d - 1]; [k] steps after step [d]
    they are [c w exp (- t / tau)] and [c w t exp (- t / tau)] at
    [t = k h], for the initial value [c] and the decay [exp (- h / tau)]
    per step. *)
Lemma alpha_response (h tau c w : R) (d : nat) (buffer : RingBuffer) :
  tau <> 0 ->
  (forall l : Z, RingBuffer_peek buffer l = if decide (l = Z.of_nat d) then w else 0) ->
  forall N : nat,
    let rc := fold_left (fun rc lag => receptor_step lag rc) (seqZ 0 (Z.of_nat N))
                {| rc_y1 := 0; rc_y2 := 0; rc_buffer := buffer;
                   rc_P11 := exp (- h / tau); rc_P21 := h * exp (- h / tau);
                   rc_P22 := exp (- h / tau); rc_PSCInitialValue := c |} in
    (rc_P11 rc = exp (- h / tau) /\ rc_P21 rc = h * exp (- h / tau)
     /\ rc_P22 rc = exp (- h / tau) /\ rc_PSCInitialValue rc = c)
    /\ (forall l : Z, (Z.of_nat N <= l)%Z ->
          RingBuffer_peek (rc_buffer rc) l = if decide (l = Z.of_nat d) then w else 0)
    /\ ((N <= d)%nat -> rc_y1 rc = 0 /\ rc_y2 rc = 0)
    /\ (forall k : nat, N = (d + 1 + k)%nat ->
          rc_y1 rc = c * w * exp (- (INR k * h) / tau)
          /\ rc_y2 rc = c * w * (INR k * h) * exp (- (INR k * h) / tau)).
Proof.
  intros Htau Hbuf N. induction N as [|N IH].
  - cbn. split; [auto|]. split; [intros l _; apply Hbuf|].
    split; [auto|]. intros k Hk. lia.
  - rewrite seqZ_S_end. rewrite fold_left_app. cbn [fold_left].
    set (rc := fold_left _ (seqZ 0 (Z.of_nat N)) _) in *.
    cbv zeta in IH. destruct IH as ((H11 & H21 & H22 & Hc) & Hb & Hzero & Hresp).
    cbv zeta. cbn [receptor_step rc_y1 rc_y2 rc_buffer rc_P11 rc_P21 rc_P22
                   rc_PSCInitialValue].
    split; [auto|]. split; [|split].
    + intros l Hl. rewrite peek_delete_ne by lia. apply Hb. lia.
    + intros HN. destruct Hzero as [-> ->]; [lia|].
      rewrite (Hb (Z.of_nat N)) by lia.
      destruct (decide (Z.of_nat N = Z.of_nat d)); [lia|]. split; lra.
    + intros k Hk. rewrite (Hb (Z.of_nat N)) by lia. rewrite H11, H21, H22, Hc.
      destruct k as [|k].
      * destruct Hzero as [-> ->]; [lia|].
        destruct (decide (Z.of_nat N = Z.of_nat d)); [|lia].
        change (INR 0) with 0. replace (- (0 * h) / tau) with 0 by (field; exact Htau).
        rewrite exp_0. split; lra.
      * destruct (Hresp k) as [-> ->]; [lia|].
        destruct (decide (Z.of_nat N = Z.of_nat d)); [lia|].
        rewrite S_INR.
        replace (- ((INR k + 1) * h) / tau) with (- (INR k * h) / tau + - h / tau)
          by (field; exact Htau).
        rewrite exp_plus. split; ring.
Qed.

Lemma handle_unit_spike n i d :
  (i < length (spikes_ (B_ n)))%nat ->
  handle_SpikeEvent (unit_spike i d) n
  = (Ok tt,
     on_B (set_spikes_
             (<[i := add_value (Z.of_nat d) (1 * IZR 1) (nth i (spikes_ (B_ n)) ∅)]>
                (spikes_ (B_ n)))) n).
Proof.
  intros Hi. unfold handle_SpikeEvent, unit_spike.
  cbn [delay_steps rport rel_delivery_steps weight multiplicity].
  change (bind (assert (0 <? 1)%Z) ?k n) with (k tt n). cbv beta. run_get.
  unfold at_Z. replace (Z.of_nat i + 1 - 1)%Z with (Z.of_nat i) by lia.
  destruct (Z.of_nat i <? 0)%Z eqn:Hneg; [apply Z.ltb_lt in Hneg; lia|].
  rewrite Nat2Z.id.
  rewrite (bind_at _ _ _ _ _ (lookup_lt_nth _ i ∅ Hi)). reflexivity.
Qed.

(** What [calibrate] leaves for receptor [i] of a node whose synaptic
    stages and spike buffers were empty, as after construction and
    [init_buffers_]. *)
Lemma calibrate_receptor K n n' i tau :
  calibrate K n = (Ok tt, n') ->
  y1_ (S_ n) = [] -> y2_ (S_ n) = [] -> spikes_ (B_ n) = [] ->
  tau_syn_ (P_ n) !! i = Some tau ->
  synapses_sized n'
  /\ receptor_at n' i
       {| rc_y1 := 0; rc_y2 := 0; rc_buffer := ∅;
          rc_P11 := exp (- resolution K / tau);
          rc_P21 := resolution K * exp (- resolution K / tau);
          rc_P22 := exp (- resolution K / tau);
          rc_PSCInitialValue := 1.0 * numerics_e / tau |}.
Proof.
  rewrite calibrate_run. intros [= <-] Hy1 Hy2 Hsp Htau.
  pose proof (lookup_lt_Some _ _ _ Htau) as Hi.
  split.
  - unfold synapses_sized, resize, n_receptors_. cbn. rewrite Hy1, Hy2, Hsp.
    rewrite !take_nil. cbn [app length].
    rewrite !length_map, !length_replicate. repeat split; lia.
  - unfold receptor_at, resize, n_receptors_. cbn. rewrite Hy1, Hy2, Hsp.
    rewrite !take_nil. cbn [app length].
    rewrite !Nat.sub_0_r.
    rewrite !lookup_replicate_2 by exact Hi.
    change (map ?f ?l) with (f <$> l).
    rewrite !list_lookup_fmap, Htau. cbn. repeat split.
Qed.

(** C9: one unit-weight spike event for receptor [i], due at step [d],
    given to a node whose entries for that receptor are as [calibrate]
    leaves them.  After any number [N] of steps that [update] has run,
    both stages of the receptor are zero as long as step [d] has not been
    run ([N <= d]); and [k] steps after step [d] the first stage is
    [e / tau * exp (- t / tau)] and the second stage
    [e / tau * t * exp (- t / tau)] with [t = k h]: the first stage has
    jumped by [e / tau] at step [d] and both follow the alpha kinetics with
    decay [exp (- h / tau)] per step. *)
Theorem single_spike_response (K : Kernel) (mt origin : Z) (n0 : glif_psc)
    (i d : nat) (tau : R) :
  let h := resolution K in
  0 < tau -> synapses_sized n0 ->
  receptor_at n0 i
    {| rc_y1 := 0; rc_y2 := 0; rc_buffer := ∅;
       rc_P11 := exp (- h / tau); rc_P21 := h * exp (- h / tau);
       rc_P22 := exp (- h / tau); rc_PSCInitialValue := 1.0 * numerics_e / tau |} ->
  exists n1,
    handle_SpikeEvent (unit_spike i d) n0 = (Ok tt, n1)
    /\ forall (N : nat) (loc loc' : Locals) (n' : glif_psc),
         update_loop K mt origin (seqZ 0 (Z.of_nat N)) loc n1 = (Ok loc', n') ->
         exists y1 y2,
           y1_ (S_ n') !! i = Some y1 /\ y2_ (S_ n') !! i = Some y2
           /\ ((N <= d)%nat -> y1 = 0 /\ y2 = 0)
           /\ (forall k : nat, N = (d + 1 + k)%nat ->
                 let t := INR k * h in
                 y1 = numerics_e / tau * exp (- t / tau)
                 /\ y2 = numerics_e / tau * t * exp (- t / tau)
                 /\ 0 < y1).
Proof.
  intros h Htau Hs Hrc.
  destruct Hrc as (R1 & R2 & R3 & R4 & R5 & R6 & R7).
  cbn [rc_y1 rc_y2 rc_buffer rc_P11 rc_P21 rc_P22 rc_PSCInitialValue] in *.
  pose proof (lookup_lt_Some _ _ _ R3) as Hi.
  eexists. split; [apply handle_unit_spike; exact Hi|].
  rewrite (nth_of_lookup _ _ _ ∅ R3).
  set (buffer := add_value (Z.of_nat d) (1 * IZR 1) ∅).
  set (n1 := on_B _ n0).
  intros N loc loc' n' E.
  assert (Hs1 : synapses_sized n1).
  { destruct Hs as (?&?&?&?&?&?&?). unfold synapses_sized, n1. cbn.
    rewrite length_insert. repeat split; assumption. }
  assert (Hrc1 : receptor_at n1 i
            {| rc_y1 := 0; rc_y2 := 0; rc_buffer := buffer;
               rc_P11 := exp (- h / tau); rc_P21 := h * exp (- h / tau);
               rc_P22 := exp (- h / tau);
               rc_PSCInitialValue := 1.0 * numerics_e / tau |}).
  { unfold receptor_at, n1. cbn. rewrite list_lookup_insert_eq by exact Hi.
    repeat split; assumption. }
  destruct (update_loop_receptor _ _ _ _ _ _ _ _ _ _ Hs1 E Hrc1) as (_ & _ & Hrc').
  assert (Hbuf : forall l : Z,
             RingBuffer_peek buffer l = if decide (l = Z.of_nat d) then 1 else 0).
  { intros l. unfold buffer. rewrite peek_add_value. unfold RingBuffer_peek.
    rewrite !lookup_empty. cbn. destruct (decide (l = Z.of_nat d)); lra. }
  destruct (alpha_response h tau (1.0 * numerics_e / tau) 1 d buffer
              ltac:(lra) Hbuf N) as (_ & _ & Hzero & Hresp).
  destruct Hrc' as (Y1 & Y2 & _).
  eexists. eexists. split; [exact Y1|]. split; [exact Y2|]. split; [exact Hzero|].
  intros k Hk. cbv zeta. destruct (Hresp k Hk) as [E1 E2].
  set (t := INR k * h) in *.
  rewrite E1, E2. unfold Rdiv. split; [nra|]. split; [nra|].
  assert (He : 0 < numerics_e) by apply exp_pos.
  pose proof (exp_pos (- t / tau)) as Hx.
  apply Rmult_lt_0_compat; [|exact Hx].
  apply Rmult_lt_0_compat; [|lra].
  apply Rmult_lt_0_compat; [lra | apply Rinv_0_lt_compat; lra].
Qed.

Lemma single_spike_response_witness :
  exists n1 loc' n' y1 y2,
    handle_SpikeEvent (unit_spike 0 1) (spiked_node 3.75 18.51) = (Ok tt, n1)
    /\ update_loop example_kernel 1 0 (seqZ 0 3) spiked_locals n1 = (Ok loc', n')
    /\ y1_ (S_ n') !! 0%nat = Some y1 /\ y2_ (S_ n') !! 0%nat = Some y2
    /\ y1 = numerics_e / 2.0 * exp (- (INR 1 * 1) / 2.0)
    /\ y2 = numerics_e / 2.0 * (INR 1 * 1) * exp (- (INR 1 * 1) / 2.0)
    /\ 0 < y1.
Proof.
  assert (Hs : synapses_sized (spiked_node 3.75 18.51))
    by (unfold synapses_sized; cbn; repeat split).
  destruct (single_spike_response example_kernel 1 0 (spiked_node 3.75 18.51)
              0 1 2.0) as (n1 & E1 & H).
  - lra.
  - exact Hs.
  - unfold receptor_at. cbn. repeat split.
  - rewrite handle_unit_spike in E1 by (cbn; lia). injection E1 as <-.
    edestruct (update_loop_hold example_kernel 1 0 (seqZ 0 3) spiked_locals)
      as (loc' & n' & E & _).
    5: { destruct (H 3%nat _ _ _ E) as (y1 & y2 & Y1 & Y2 & _ & Hk).
         destruct (Hk 1%nat eq_refl) as (Hy1 & Hy2 & Hpos).
         change (resolution example_kernel) with 1 in Hy1, Hy2.
         eexists. exists loc', n', y1, y2. split; [reflexivity|].
         split; [exact E|]. auto 10. }
    + cbn. lra.
    + change (length (seqZ 0 3)) with 3%nat. cbn. lra.
    + reflexivity.
    + unfold synapses_sized. cbn. repeat split.
Defined.

(** ** The integration step *)

Lemma fold_left_seq_S {A} (f : A -> nat -> A) (i : nat) (a : A) :
  fold_left f (seq 0 (S i)) a = f (fold_left f (seq 0 i) a) i.
Proof. rewrite seq_S, fold_left_app. reflexivity. Qed.

Lemma fold_left_take_S (l : list R) (i : nat) (s : R) :
  (i < length l)%nat ->
  fold_left Rplus (take (S i) l) s = fold_left Rplus (take i l) s + nth i l 0.
Proof.
  intros Hi. rewrite (take_S_r l i (nth i l 0)) by (apply lookup_lt_nth; exact Hi).
  rewrite fold_left_app. reflexivity.
Qed.

Lemma decay_ASCurrents_run dt n :
  (length (ASCurrents_ (S_ n)) <= length (k_ (P_ n)))%nat ->
  decay_ASCurrents dt n
  = (Ok tt,
     on_S (fun s =>
       set_ASCurrents_
         (map (ASCurrents_decayed dt n) (seq 0 (length (ASCurrents_ (S_ n)))))
         (set_ASCurrents_sum_
            (fold_left Rplus (ASCurrents_ (S_ n)) (ASCurrents_sum_ (S_ n))) s)) n).
Proof.
  intros L. unfold decay_ASCurrents. run_get.
  set (m := length (ASCurrents_ (S_ n))) in *.
  set (I := fun (i : nat) (s : glif_psc) =>
              s = on_S (fun st =>
                    set_ASCurrents_
                      (prefix_updated (ASCurrents_decayed dt n) i (ASCurrents_ (S_ n)))
                      (set_ASCurrents_sum_
                         (fold_left Rplus (take i (ASCurrents_ (S_ n)))
                            (ASCurrents_sum_ (S_ n))) st)) n).
  edestruct (for_loop_inv I) as (s' & E & HI); [| |rewrite E].
  - unfold I. rewrite prefix_updated_0. destruct n as [p [] v b a se pr]. reflexivity.
  - intros i s Hi ->. cbn [Nat.add] in Hi. eexists. split.
    + run_get. node_proj. read_at 0. run_get. node_proj. read_at 0.
      unfold modify. reflexivity.
    + unfold I. rewrite <- (insert_prefix_updated (ASCurrents_decayed dt n) i)
        by (fold m; lia).
      rewrite fold_left_take_S by (fold m; lia).
      destruct n as [p [] v b a se pr]. reflexivity.
  - unfold I in HI. cbn [Nat.add] in HI. subst s'.
    rewrite prefix_updated_length by reflexivity. unfold m. rewrite firstn_all.
    reflexivity.
Qed.

Lemma add_synapse_component_run n :
  membrane_sized n ->
  add_synapse_component n
  = (Ok tt,
     on_S (fun s =>
       set_I_syn_
         (fold_left (fun s i => s + nth i (y2_ (S_ n)) 0)
            (seq 0 (n_receptors_ (P_ n))) (I_syn_ (S_ n)))
         (set_U_ (with_synapse_components n (U_ (S_ n))) s)) n).
Proof.
  intros (L1 & L2 & L3 & L4). unfold add_synapse_component. run_get.
  unfold with_synapse_components.
  set (m := n_receptors_ (P_ n)) in *.
  set (I := fun (i : nat) (s : glif_psc) =>
              s = on_S (fun st =>
                    set_I_syn_
                      (fold_left (fun s i => s + nth i (y2_ (S_ n)) 0) (seq 0 i)
                         (I_syn_ (S_ n)))
                      (set_U_ (fold_left (fun u i => u + synapse_component n i)
                                 (seq 0 i) (U_ (S_ n))) st)) n).
  edestruct (for_loop_inv I) as (s' & E & HI); [| |rewrite E].
  - unfold I. destruct n as [p [] v b a se pr]. reflexivity.
  - intros i s Hi ->. cbn [Nat.add] in Hi. eexists. split.
    + run_get. node_proj. do 4 read_at 0. run_get. unfold modify. reflexivity.
    + unfold I. rewrite !fold_left_seq_S. unfold synapse_component.
      destruct n as [p [] v b a se pr]. reflexivity.
  - unfold I in HI. cbn [Nat.add] in HI. subst s'. reflexivity.
Qed.

(** The integration step returns, in the state given by [integrated] and
    [detect_spike]. *)
Lemma integrate_step_run K mt origin lag loc n :
  membrane_sized n ->
  (has_ASC mt = true -> (length (ASCurrents_ (S_ n)) <= length (k_ (P_ n)))%nat) ->
  integrate_step K mt origin lag loc n
  = (Ok (if (mt =? 5)%Z
         then voltage_component_exact (P_ n) (resolution K) (I_ (S_ n))
                (if has_ASC mt then ASCurrents_total n else 0.0) (v_old loc)
                (last_voltage_ (V_ n))
         else voltage_component loc),
     detect_spike K origin lag loc (integrated K mt loc n)).
Proof.
  intros Hm Hk. unfold integrate_step. run_get. fold (has_ASC mt).
  unfold integrated, detect_spike.
  destruct (has_ASC mt) eqn:Hasc; cbn [when].
  - erewrite bind_Ok by (apply decay_ASCurrents_run; exact (Hk eq_refl)).
    do 3 run_get.
    erewrite bind_Ok by (apply add_synapse_component_run; exact Hm).
    do 4 run_get.
    destruct n as [p [] v b a se pr]. cbn.
    destruct (decide _) as [Hgt|Hle].
    + rewrite (bool_decide_eq_true_2 _ Hgt). reflexivity.
    + rewrite (bool_decide_eq_false_2 _ Hle). reflexivity.
  - do 4 run_get.
    erewrite bind_Ok by (apply add_synapse_component_run; exact Hm).
    do 4 run_get.
    destruct n as [p [] v b a se pr]. cbn.
    destruct (decide _) as [Hgt|Hle].
    + rewrite (bool_decide_eq_true_2 _ Hgt). reflexivity.
    + rewrite (bool_decide_eq_false_2 _ Hle). reflexivity.
Qed.

(** One step of a neuron that is not refractory. *)
Lemma update_step_integrate K mt origin lag loc n :
  ~ refractory n -> synapses_sized n -> membrane_sized n ->
  (has_ASC mt = true -> (length (ASCurrents_ (S_ n)) <= length (k_ (P_ n)))%nat) ->
  let n0 := decay_spike_component K mt loc n in
  let n1 := detect_spike K origin lag loc (integrated K mt loc n0) in
  update_step K mt origin lag loc n
  = (Ok {| v_old := U_ (S_ n1);
           spike_component := decayed_spike_component K mt loc n;
           voltage_component :=
             (if (mt =? 5)%Z
              then voltage_component_exact (P_ n0) (resolution K) (I_ (S_ n0))
                     (if has_ASC mt then ASCurrents_total n0 else 0.0) (v_old loc)
                     (last_voltage_ (V_ n0))
              else voltage_component loc);
           th_old := threshold_ (S_ n1) |},
     consume_inputs lag n1).
Proof.
  intros Hn Hs Hm Hk n0 n1.
  apply update_step_Ok; [|exact Hs].
  fold n0. rewrite membrane_part_integrate by exact Hn.
  apply integrate_step_run; assumption.
Qed.

(** The update kernel on the numbers of the sub-step interpolation: the
    node crosses its threshold within the step, becomes refractory, and
    the spike event it sends carries the offset [0.6]. *)
Lemma crossing_node_offset :
  exists loc' n' offset,
    update_step example_kernel 1 0 0 crossing_locals crossing_node = (Ok loc', n')
    /\ U_ (S_ n') = 12 /\ threshold_ (S_ n') = 10.5
    /\ sent_ n' = [(offset, 0%Z)] /\ offset = 0.6
    /\ spiketimes_ (archive_ n') = [(1%Z, offset)]
    /\ refractory n'.
Proof.
  assert (HP33 : exp (- (1) / (58.72 / 9.43)) < 1).
  { apply exp_decay_lt_1; [lra|]. apply Rdiv_lt_0_compat; lra. }
  set (P33 := exp (- (1) / (58.72 / 9.43))) in *.
  assert (HP30 : 1 / 58.72 * (1 - P33) * (58.72 / 9.43) <> 0) by (unfold Rdiv; nra).
  assert (HU : U_ (S_ (integrated example_kernel 1 crossing_locals
                         (decay_spike_component example_kernel 1 crossing_locals
                            crossing_node))) = 12).
  { unfold integrated, with_synapse_components, synapse_component. cbn. fold P33.
    set (P30 := 1 / 58.72 * (1 - P33) * (58.72 / 9.43)) in *.
    assert (HI : (12 - 9 * P33) / P30 * P30 = 12 - 9 * P33) by (field; exact HP30).
    set (I := (12 - 9 * P33) / P30) in *. clearbody I P30 P33. nra. }
  assert (HT : threshold_ (S_ (integrated example_kernel 1 crossing_locals
                         (decay_spike_component example_kernel 1 crossing_locals
                            crossing_node))) = 10.5).
  { cbn. lra. }
  pose proof (update_step_integrate example_kernel 1 0 0 crossing_locals crossing_node)
    as E.
  cbv zeta in E.
  set (n1 := integrated example_kernel 1 crossing_locals
               (decay_spike_component example_kernel 1 crossing_locals crossing_node))
    in *.
  unfold detect_spike in E.
  destruct (decide (U_ (S_ n1) > threshold_ (S_ n1))) as [_|Hn]; [|lra].
  eexists. eexists. eexists. split.
  - apply E.
    + unfold refractory. cbn. lra.
    + unfold synapses_sized. cbn. repeat split.
    + unfold membrane_sized. cbn. repeat split.
    + discriminate.
  - cbn [consume_inputs send on_archive on_V on_S on_B with_synapses S_ U_ threshold_
         set_I_ sent_ archive_ spiketimes_ set_y1_ set_y2_].
    split; [exact HU|]. split; [exact HT|]. split; [reflexivity|]. split.
    + rewrite HU, HT. unfold spike_offset. cbn. lra.
    + split; [reflexivity|]. unfold refractory. cbn. lra.
Qed.

(** C3, counterexample: a node with pre-step potential 9 and threshold
    10 that one step of 1 ms takes to potential 12 and threshold 10.5.
    The update kernel sends one spike; the offset it carries is neither
    the time of the crossing counted from the start of the step nor
    within rounding of [0.67]. *)
Lemma spike_offset_not_two_thirds :
  exists loc' n' offset,
    v_old crossing_locals = 9 /\ th_old crossing_locals = 10
    /\ update_step example_kernel 1 0 0 crossing_locals crossing_node = (Ok loc', n')
    /\ U_ (S_ n') = 12 /\ threshold_ (S_ n') = 10.5
    /\ sent_ n' = [(offset, 0%Z)]
    /\ offset = spike_offset 9 10 12 10.5 1
    /\ offset <> crossing_time 9 10 12 10.5 1
    /\ ~ (0.665 <= offset <= 0.675).
Proof.
  destruct crossing_node_offset as (loc' & n' & offset & E & HU & HT & Hs & Ho & _).
  exists loc', n', offset.
  split; [reflexivity|]. split; [cbn; lra|].
  split; [exact E|]. split; [exact HU|]. split; [exact HT|]. split; [exact Hs|].
  unfold spike_offset, crossing_time. repeat split; lra.
Qed.

(** C3, as amended: with pre-step potential 9 and threshold 10, post-step
    potential 12 and threshold 10.5 and a step of 1 ms, the two linear
    trajectories meet 0.4 ms after the start of the step, and the offset
    computed by the update kernel, carried by the spike event it sends, is
    the rest of the step, 0.6 ms: the time from the crossing to the end of
    the step, not the step end itself. *)
Theorem spike_offset_interpolation :
  let t := crossing_time 9 10 12 10.5 1 in
  9 + (12 - 9) * t = 10 + (10.5 - 10) * t
  /\ t = 0.4
  /\ spike_offset 9 10 12 10.5 1 = 1 - t
  /\ spike_offset 9 10 12 10.5 1 = 0.6
  /\ exists loc' n' offset,
       v_old crossing_locals = 9 /\ th_old crossing_locals = 10
       /\ update_step example_kernel 1 0 0 crossing_locals crossing_node
          = (Ok loc', n')
       /\ U_ (S_ n') = 12 /\ threshold_ (S_ n') = 10.5
       /\ sent_ n' = [(offset, 0%Z)]
       /\ offset = spike_offset 9 10 12 10.5 1.
Proof.
  cbv zeta. split; [|split; [|split; [|split]]].
  1-4: unfold spike_offset, crossing_time; lra.
  destruct crossing_node_offset as (loc' & n' & offset & E & HU & HT & Hs & Ho & _).
  exists loc', n', offset.
  split; [reflexivity|]. split; [cbn; lra|].
  split; [exact E|]. split; [exact HU|]. split; [exact HT|]. split; [exact Hs|].
  unfold spike_offset. lra.
Qed.

(** ** The outcomes of a run *)

Lemma well_sized_same_shape mt n n' :
  same_shape n n' -> well_sized mt n -> well_sized mt n'.
Proof.
  intros (HP & Ha & Hy1 & Hy2 & H11 & H21 & H22 & H31 & H32 & Hi & Hb)
         ((S1 & S2 & S3 & S4 & S5 & S6 & S7) & (M1 & M2 & M3 & M4) & Hasc).
  unfold well_sized, synapses_sized, membrane_sized, asc_sized in *. cbv zeta in *.
  rewrite HP, Ha, Hy1, Hy2, H11, H21, H22, H31, H32, Hi, Hb.
  repeat split; try assumption; apply Hasc; assumption.
Qed.

#[local] Ltac same_shape_tac :=
  unfold same_shape; cbn;
  rewrite ?length_map, ?length_seq; repeat split; try reflexivity; try assumption.

Lemma same_shape_consume_inputs lag n :
  synapses_sized n -> same_shape n (consume_inputs lag n).
Proof.
  intros (S1 & S2 & S3 & S4 & S5 & S6 & S7). cbv zeta in *.
  same_shape_tac; congruence.
Qed.

Lemma same_shape_hold K mt loc n :
  same_shape n (on_S (set_U_ (v_old loc)) (count_down K (decay_spike_component K mt loc n))).
Proof. same_shape_tac. Qed.

Lemma same_shape_after_reset K mt loc n :
  same_shape n (after_reset mt (count_down K (decay_spike_component K mt loc n))).
Proof.
  unfold after_reset.
  destruct (has_ASC mt), ((mt =? 1)%Z || (mt =? 3)%Z); same_shape_tac.
Qed.

Lemma same_shape_integrated K mt origin lag loc n :
  same_shape n
    (detect_spike K origin lag loc
       (integrated K mt loc (decay_spike_component K mt loc n))).
Proof.
  unfold detect_spike, integrated. cbv zeta.
  destruct (decide _), (has_ASC mt); same_shape_tac.
Qed.

Lemma same_shape_trans n1 n2 n3 :
  same_shape n1 n2 -> same_shape n2 n3 -> same_shape n1 n3.
Proof.
  unfold same_shape.
  intros (?&?&?&?&?&?&?&?&?&?&?) (?&?&?&?&?&?&?&?&?&?&?).
  repeat split; congruence.
Qed.

(** One step on a node whose vectors are sized returns, leaving them
    sized, or stops on the assertion after the reset: it never reads a
    vector out of range and throws nothing. *)
Lemma update_step_outcome K mt origin lag loc n :
  well_sized mt n ->
  (exists loc' n',
      update_step K mt origin lag loc n = (Ok loc', n') /\ well_sized mt n')
  \/ (exists n', update_step K mt origin lag loc n = (AssertionFailed, n')).
Proof.
  intros Hw. pose proof Hw as (Hs & Hm & Hasc).
  destruct (decide (t_ref_remaining_ (V_ n) > 0.0)) as [Hr|Hr].
  - destruct (decide (t_ref_remaining_ (V_ n) - resolution K <= 0.0)) as [Hl|Hl].
    + pose proof (membrane_part_leave' K mt origin lag loc
                    (decay_spike_component K mt loc n) Hr Hl Hasc) as E.
      cbv zeta in E.
      destruct (decide _) as [Hle|Hgt].
      * left. eexists. eexists.
        split; [apply (update_step_Ok _ _ _ _ _ _ _ _ E Hs)|].
        eapply well_sized_same_shape; [|exact Hw].
        eapply same_shape_trans; [apply same_shape_after_reset|].
        apply same_shape_consume_inputs.
        apply (well_sized_same_shape mt _ _ (same_shape_after_reset K mt loc n) Hw).
      * right.
        destruct (update_step_not_Ok _ _ _ _ _ _ _ _ E) as (o' & E' & _ & Ha);
          [discriminate|].
        rewrite (Ha eq_refl) in E'. eexists. exact E'.
    + left.
      pose proof (membrane_part_hold' K mt origin lag loc
                    (decay_spike_component K mt loc n) Hr Hl) as E.
      eexists. eexists.
      split; [apply (update_step_Ok _ _ _ _ _ _ _ _ E Hs)|].
      eapply well_sized_same_shape; [|exact Hw].
      eapply same_shape_trans; [apply same_shape_hold|].
      apply same_shape_consume_inputs.
      apply (well_sized_same_shape mt _ _ (same_shape_hold K mt loc n) Hw).
  - left. eexists. eexists.
    split.
    + apply update_step_integrate; try assumption.
      intros Ha. apply Hasc in Ha. destruct Ha as (_ & _ & Hk). exact Hk.
    + cbv zeta. eapply well_sized_same_shape; [|exact Hw].
      eapply same_shape_trans; [apply same_shape_integrated|].
      apply same_shape_consume_inputs.
      apply (well_sized_same_shape mt _ _
               (same_shape_integrated K mt origin lag loc n) Hw).
Qed.

(** A run of steps on a sized node returns or stops on the assertion. *)
Lemma update_loop_outcome K mt origin lags : forall loc n,
  well_sized mt n ->
  (exists loc' n',
      update_loop K mt origin lags loc n = (Ok loc', n') /\ well_sized mt n')
  \/ (exists n', update_loop K mt origin lags loc n = (AssertionFailed, n')).
Proof.
  induction lags as [|lag lags IH]; intros loc n Hw.
  - left. exists loc, n. split; [reflexivity | exact Hw].
  - rewrite update_loop_cons.
    destruct (update_step_outcome K mt origin lag loc n Hw)
      as [(loc1 & n1 & E & Hw1) | (n1 & E)].
    + rewrite (bind_Ok _ _ _ _ _ E). apply IH. exact Hw1.
    + right. exists n1. unfold bind. rewrite E. reflexivity.
Qed.

(** [calibrate] sizes every per-receptor vector. *)
Lemma calibrate_well_sized K mt n :
  (has_ASC mt = true -> asc_sized n) ->
  exists n', calibrate K n = (Ok tt, n') /\ well_sized mt n'.
Proof.
  intros Hasc. eexists. split; [apply calibrate_run|].
  unfold well_sized. split; [|split; [|exact Hasc]].
  - unfold synapses_sized. cbn. unfold resize, n_receptors_.
    rewrite !length_app, !length_take, !length_replicate, !length_map.
    repeat split; lia.
  - unfold membrane_sized. cbn. unfold resize, n_receptors_.
    rewrite !length_app, !length_take, !length_replicate, !length_map.
    repeat split; lia.
Qed.

(** [update] on a sized node returns, or stops on the assertion after a
    reset, or rejects the model string before the first step. *)
Lemma update_outcome K origin from to n :
  (forall mt, well_sized mt n) ->
  exists o n',
    update K origin from to n = (o, n')
    /\ (o = Ok tt \/ o = AssertionFailed
        \/ (o = Throw (BadProperty "Bad glif model type string.") /\ n' = n)).
Proof.
  intros Hw. unfold update. unfold bind at 1. cbn [get].
  destruct (find_model _ _) as [mt|].
  - match goal with |- context [update_loop K mt origin ?l ?loc] =>
      destruct (update_loop_outcome K mt origin l loc n (Hw mt))
        as [(loc' & n' & E & _) | (n' & E)]
    end.
    + eexists. eexists. split; [|left; reflexivity].
      unfold bind. rewrite E. reflexivity.
    + eexists. eexists. split; [|right; left; reflexivity].
      unfold bind. rewrite E. reflexivity.
  - eexists. eexists. split; [reflexivity|]. right. right. split; reflexivity.
Qed.

(** * Further properties of the node *)

(** ** set_status and the invariant of the parameters *)

(** X1: a well-typed dictionary whose values fail one of the checks of
    [Parameters_::set] (reset not below the threshold, a non-positive
    capacitance, conductance, refractory time, threshold time constant,
    entry of [k] or entry of a given [tau_syn]) makes [set_status] throw
    [BadProperty] and leaves the node as it was, although
    [Parameters_::set] has by then assigned every given value on the copy
    it works on. *)
Theorem set_status_rejects_invalid (K : Kernel) (d : Dictionary) (n : glif_psc) :
  Parameters_typed d -> ~ valid d (assigned d (P_ n)) ->
  exists msg,
    Parameters_set d (P_ n) = (Throw (BadProperty msg), assigned d (P_ n))
    /\ set_status K d n = (Throw (BadProperty msg), n).
Proof.
  intros Hty Hn. destruct (Parameters_set_invalid d (P_ n) Hty Hn) as [msg E].
  exists msg. split; [exact E|]. unfold set_status, run. rewrite E. reflexivity.
Qed.

Lemma set_status_rejects_invalid_witness :
  exists msg,
    Parameters_set {[names.C_m := DoubleDatum 100; names.t_ref := DoubleDatum 0]}
      (P_ glif_psc_default)
    = (Throw (BadProperty msg),
       assigned {[names.C_m := DoubleDatum 100; names.t_ref := DoubleDatum 0]}
         (P_ glif_psc_default))
    /\ set_status example_kernel
         {[names.C_m := DoubleDatum 100; names.t_ref := DoubleDatum 0]}
         glif_psc_default
       = (Throw (BadProperty msg), glif_psc_default).
Proof.
  apply set_status_rejects_invalid.
  - solve_typed.
  - eval_assigned. intros (_ & _ & _ & H & _). lra.
Defined.

Lemma Parameters_ok_assigned d p :
  Parameters_ok p -> valid d (assigned d p) -> Parameters_ok (assigned d p).
Proof.
  intros (_ & _ & _ & _ & _ & _ & _ & Htau) (V1 & V2 & V3 & V4 & V5 & V6 & V7 & V8).
  unfold Parameters_ok. repeat split; try assumption.
  destruct (vec d names.tau_syn) as [v|] eqn:Ev.
  - apply V8. reflexivity.
  - unfold assigned. cbn. rewrite Ev. exact Htau.
Qed.

(** X2: the checks of [Parameters_::set] are an invariant of the node
    under [set_status]: when the reset potential is below the threshold
    and the capacitance, the conductance, the refractory time, both
    threshold time constants, every entry of [k] and every synaptic time
    constant are positive before the call, they are so after it, whether
    the call returns or throws. *)
Theorem set_status_keeps_Parameters_ok (K : Kernel) (d : Dictionary)
    (n n' : glif_psc) (o : outcome unit) :
  Parameters_ok (P_ n) -> set_status K d n = (o, n') -> Parameters_ok (P_ n').
Proof.
  intros Hok E.
  destruct o as [[]|e| |].
  2-4: destruct (set_status_atomic K d n _ n' E) as (-> & _); [discriminate | exact Hok].
  unfold set_status, run in E.
  destruct (Parameters_set d (P_ n)) as [[delta|e| |] ptmp] eqn:EP; try discriminate.
  apply Parameters_set_Ok in EP. destruct EP as (_ & Hv & _ & ->).
  destruct (State_set d _ delta (S_ n)) as [[[]|e| |] stmp]; try discriminate.
  destruct (Archiving_Node_set_status K d (archive_ n)) as [[[]|e| |] a];
    try discriminate.
  injection E as <-. cbn. apply Parameters_ok_assigned; assumption.
Qed.

Lemma Parameters_ok_default : Parameters_ok Parameters_default.
Proof.
  unfold Parameters_ok, Parameters_default. cbn.
  repeat split; try lra; repeat constructor; cbv beta; lra.
Qed.

Lemma set_status_keeps_Parameters_ok_witness :
  exists n',
    set_status example_kernel {[names.tau_syn := DoubleVectorDatum [2.0; 3.0]]}
      glif_psc_default = (Ok tt, n')
    /\ Parameters_ok (P_ n').
Proof.
  destruct two_ports_connected_reachable as (n1 & _ & E & _).
  exists n1. split; [exact E|].
  exact (set_status_keeps_Parameters_ok example_kernel _ glif_psc_default _ _
           Parameters_ok_default E).
Defined.

(** ** The state entries of the status dictionary *)

Lemma State_set_run d p delta s :
  is_typed getValue_double d names.V_m ->
  is_typed getValue_vector d names.ASCurrents ->
  State_set d p delta s
  = (Ok tt,
     set_ASCurrents_ (default (ASCurrents_ s) (vec d names.ASCurrents))
       (set_U_ (match dbl d names.V_m with
                | Some v => v - E_L_ p
                | None => U_ s - delta
                end) s)).
Proof.
  intros H1 H2. unfold State_set.
  erewrite bind_Ok
    by (apply (updateValue_typed getValue_double d names.V_m set_U_ U_);
        [intros []; reflexivity | exact H1]).
  unfold dbl, vec.
  destruct (tvalue getValue_double d names.V_m) as [v|]; cbn [present default].
  - unfold bind at 1. cbn [modify].
    erewrite bind_Ok
      by (apply (updateValue_typed getValue_vector d names.ASCurrents
                   set_ASCurrents_ ASCurrents_);
          [intros []; reflexivity | exact H2]).
    destruct s; reflexivity.
  - unfold bind at 1. cbn [modify].
    erewrite bind_Ok
      by (apply (updateValue_typed getValue_vector d names.ASCurrents
                   set_ASCurrents_ ASCurrents_);
          [intros []; reflexivity | exact H2]).
    destruct s; reflexivity.
Qed.

Lemma State_set_Ok_typed d p delta s s' :
  State_set d p delta s = (Ok tt, s') ->
  is_typed getValue_double d names.V_m /\ is_typed getValue_vector d names.ASCurrents.
Proof.
  unfold State_set. intros E.
  apply bind_Ok_inv in E. destruct E as (b & s1 & E1 & E).
  split; [exact (updateValue_Ok_typed _ _ _ _ _ _ _ E1)|].
  apply bind_Ok_inv in E. destruct E as (u & s2 & _ & E).
  apply bind_Ok_inv in E. destruct E as (b2 & s3 & E3 & _).
  exact (updateValue_Ok_typed _ _ _ _ _ _ _ E3).
Qed.

(** X3: after a [set_status] that returns, [get_status] shows for [V_m]
    the value given in the dictionary, and without one the value it
    showed before the call, also when the call moved [E_L]: the potential
    is stored relative to [E_L] and re-based with it.  [ASCurrents] is the
    given vector, or unchanged. *)
Theorem set_status_V_m (K : Kernel) (d : Dictionary) (n n' : glif_psc) :
  set_status K d n = (Ok tt, n') ->
  get_status n' ∅ !! names.V_m
  = Some (DoubleDatum (match dbl d names.V_m with
                       | Some v => v
                       | None => U_ (S_ n) + E_L_ (P_ n)
                       end))
  /\ get_status n' ∅ !! names.ASCurrents
     = Some (DoubleVectorDatum (default (ASCurrents_ (S_ n)) (vec d names.ASCurrents)))
  /\ U_ (S_ n')
     = match dbl d names.V_m with
       | Some v => v - E_L_ (P_ n')
       | None => U_ (S_ n) - (E_L_ (P_ n') - E_L_ (P_ n))
       end.
Proof.
  intros E. unfold set_status, run in E.
  destruct (Parameters_set d (P_ n)) as [[delta|e| |] ptmp] eqn:EP; try discriminate.
  apply Parameters_set_Ok in EP. destruct EP as (_ & _ & -> & ->).
  destruct (State_set d _ _ (S_ n)) as [[[]|e| |] stmp] eqn:ES; try discriminate.
  destruct (State_set_Ok_typed _ _ _ _ _ ES) as (T1 & T2).
  rewrite State_set_run in ES by assumption. injection ES as <-.
  destruct (Archiving_Node_set_status K d (archive_ n)) as [[[]|e| |] a];
    try discriminate.
  injection E as <-.
  unfold get_status, State_get, def.
  rewrite lookup_insert_ne by discriminate. rewrite !lookup_insert_eq.
  cbn [S_ P_ on_S on_P on_archive U_ ASCurrents_ set_U_ set_ASCurrents_ E_L_ assigned].
  split; [|split; [reflexivity|]].
  - f_equal. f_equal. destruct (dbl d names.V_m); cbn [default]; lra.
  - destruct (dbl d names.V_m); reflexivity.
Qed.

Lemma set_status_V_m_witness :
  exists n',
    set_status example_kernel {[names.E_L := DoubleDatum (-70)]} glif_psc_default
    = (Ok tt, n')
    /\ get_status n' ∅ !! names.V_m
       = Some (DoubleDatum (U_ (S_ glif_psc_default) + E_L_ (P_ glif_psc_default))).
Proof.
  set (d := {[names.E_L := DoubleDatum (-70)]} : Dictionary).
  assert (E : Parameters_set d Parameters_default
              = (Ok (E_L_ (assigned d Parameters_default) - E_L_ Parameters_default),
                 assigned d Parameters_default)).
  { subst d. eval_set. }
  assert (Es : exists n', set_status example_kernel d glif_psc_default = (Ok tt, n')).
  { eexists. unfold set_status, run. cbn [P_ S_ glif_psc_default]. rewrite E.
    rewrite State_set_absent by (subst d; simplify_map_eq; reflexivity).
    cbn [Archiving_Node_set_status example_kernel ret]. reflexivity. }
  destruct Es as [n' Es]. exists n'. split; [exact Es|].
  destruct (set_status_V_m example_kernel d glif_psc_default n' Es) as (H1 & _ & _).
  exact H1.
Defined.

(** ** Connections, buffers and calibrate *)

Lemma length_resize {T} (m : nat) (x : T) (v : list T) : length (resize m x v) = m.
Proof. unfold resize. rewrite length_app, length_take, length_replicate. lia. Qed.

Lemma resize_id {T} (m : nat) (x : T) (v : list T) :
  length v = m -> resize m x v = v.
Proof.
  intros <-. unfold resize. rewrite firstn_all, Nat.sub_diag. apply app_nil_r.
Qed.

Lemma calibrate_keeps K n :
  exists n1,
    calibrate K n = (Ok tt, n1)
    /\ ~ refractory n1 /\ P_ n1 = P_ n
    /\ ASCurrents_ (S_ n1) = ASCurrents_ (S_ n).
Proof.
  eexists. split; [apply calibrate_run|].
  unfold refractory. cbn. repeat split. lra.
Qed.

Lemma handle_SpikeEvent_run e n buf :
  (0 < delay_steps e)%Z -> (1 <= rport e)%Z ->
  spikes_ (B_ n) !! Z.to_nat (rport e - 1) = Some buf ->
  handle_SpikeEvent e n
  = (Ok tt,
     on_B (set_spikes_
             (<[Z.to_nat (rport e - 1) :=
                  add_value (rel_delivery_steps e) (weight e * IZR (multiplicity e)) buf]>
                (spikes_ (B_ n)))) n).
Proof.
  intros Hd Hr Hb. unfold handle_SpikeEvent.
  destruct (0 <? delay_steps e)%Z eqn:Hpos; [|apply Z.ltb_ge in Hpos; lia].
  change (bind (assert true) ?k n) with (k tt n). cbv beta. run_get.
  unfold at_Z.
  destruct (rport e - 1 <? 0)%Z eqn:Hneg; [apply Z.ltb_lt in Hneg; lia|].
  rewrite (bind_at _ _ _ _ _ Hb). reflexivity.
Qed.

(** X4: [handles_test_event] accepts a receptor port only if it lies in
    [1 .. n_receptors_()]; it then returns the port and sets
    [has_connections_], nothing else.  After [calibrate], every spike event
    for a port accepted this way is handled within the bounds of the
    vector of spike buffers: its weight times its multiplicity is added to
    the buffer of that port, at the delivery step of the event. *)
Theorem connected_port_is_deliverable (K : Kernel) (r r' : Z) (n n1 : glif_psc)
    (e : SpikeEvent) :
  handles_test_event r n = (Ok r', n1) ->
  rport e = r' -> (0 < delay_steps e)%Z ->
  r' = r /\ (1 <= r <= Z.of_nat (n_receptors_ (P_ n)))%Z
  /\ n1 = on_P (set_has_connections_ true) n
  /\ exists n2 n3 buf,
       calibrate K n1 = (Ok tt, n2)
       /\ spikes_ (B_ n2) !! Z.to_nat (r - 1) = Some buf
       /\ handle_SpikeEvent e n2 = (Ok tt, n3)
       /\ spikes_ (B_ n3)
          = <[Z.to_nat (r - 1) :=
                add_value (rel_delivery_steps e) (weight e * IZR (multiplicity e)) buf]>
              (spikes_ (B_ n2))
       /\ P_ n3 = P_ n2 /\ S_ n3 = S_ n2 /\ V_ n3 = V_ n2
       /\ currents_ (B_ n3) = currents_ (B_ n2).
Proof.
  intros E He Hd. unfold handles_test_event in E.
  unfold bind at 1 in E. cbn [get] in E.
  destruct ((r <=? 0)%Z || (Z.of_nat (n_receptors_ (P_ n)) <? r)%Z) eqn:Hb;
    cbn [when] in E.
  { discriminate. }
  injection E as <- <-.
  apply orb_false_iff in Hb. destruct Hb as (H1 & H2).
  apply Z.leb_gt in H1. apply Z.ltb_ge in H2.
  split; [reflexivity|]. split; [lia|]. split; [reflexivity|].
  set (n1 := on_P (set_has_connections_ true) n).
  destruct (calibrate_well_sized K 1 n1) as (n2 & E2 & Hs & _); [discriminate|].
  destruct Hs as (_ & _ & _ & _ & _ & _ & Hlen).
  assert (HP : P_ n2 = P_ n1).
  { rewrite calibrate_run in E2. injection E2 as <-. reflexivity. }
  rewrite HP in Hlen. change (n_receptors_ (P_ n1)) with (n_receptors_ (P_ n)) in Hlen.
  assert (Hi : (Z.to_nat (r - 1) < length (spikes_ (B_ n2)))%nat) by lia.
  destruct (lookup_lt_is_Some_2 _ _ Hi) as [buf Hbuf].
  exists n2. eexists. exists buf. split; [exact E2|]. split; [exact Hbuf|].
  split.
  - apply handle_SpikeEvent_run; [exact Hd | lia |].
    rewrite He. exact Hbuf.
  - rewrite He. cbn. repeat split.
Qed.

Lemma connected_port_is_deliverable_witness :
  exists n1 n2 n3,
    handles_test_event 1 glif_psc_default = (Ok 1%Z, n1)
    /\ calibrate example_kernel n1 = (Ok tt, n2)
    /\ handle_SpikeEvent (unit_spike 0 3) n2 = (Ok tt, n3).
Proof.
  destruct (connected_port_is_deliverable example_kernel 1 1 glif_psc_default
              (on_P (set_has_connections_ true) glif_psc_default) (unit_spike 0 3))
    as (_ & _ & _ & n2 & n3 & buf & E2 & _ & E3 & _).
  - reflexivity.
  - reflexivity.
  - reflexivity.
  - eexists. exists n2, n3. split; [reflexivity|]. split; [exact E2 | exact E3].
Defined.

(** X5: [calibrate] always returns, and a second [calibrate] changes
    nothing.  It leaves every per-receptor vector with [n_receptors_()]
    entries, the neuron outside the refractory period, and the
    parameters, the membrane potential, the after-spike currents and the
    pending currents as they were. *)
Theorem calibrate_idempotent (K : Kernel) (n : glif_psc) :
  exists n1,
    calibrate K n = (Ok tt, n1)
    /\ calibrate K n1 = (Ok tt, n1)
    /\ synapses_sized n1 /\ membrane_sized n1 /\ ~ refractory n1
    /\ P_ n1 = P_ n /\ U_ (S_ n1) = U_ (S_ n)
    /\ ASCurrents_ (S_ n1) = ASCurrents_ (S_ n)
    /\ currents_ (B_ n1) = currents_ (B_ n).
Proof.
  destruct (calibrate_well_sized K 1 n) as (n1 & E1 & Hs & Hm & _); [discriminate|].
  exists n1. split; [exact E1|].
  rewrite calibrate_run in E1. injection E1 as E1.
  split; [|split; [exact Hs|split; [exact Hm|]]].
  - rewrite calibrate_run. f_equal.
    destruct Hs as (S1 & S2 & _ & _ & _ & _ & S7). cbv zeta in *.
    cbv zeta. unfold on_B, on_S, on_V. cbn [P_ S_ V_ B_ archive_ sent_ printed_].
    unfold set_y1_, set_y2_, set_spikes_.
    cbn [U_ ASCurrents_ ASCurrents_sum_ threshold_ I_ I_syn_ y1_ y2_ spikes_ currents_].
    rewrite (resize_id _ _ _ S1), (resize_id _ _ _ S2), (resize_id _ _ _ S7).
    subst n1. cbn. reflexivity.
  - subst n1. unfold refractory. cbn. repeat split. lra.
Qed.

(** X6: [init_buffers_] followed by [calibrate] leaves one empty spike
    buffer per receptor port and no pending current, whatever had been
    delivered before; between the two calls the vector of spike buffers is
    empty, so that a spike event handled there would index it out of
    range. *)
Theorem init_buffers_then_calibrate (K : Kernel) (n : glif_psc) :
  exists n1 n2,
    init_buffers_ n = (Ok tt, n1)
    /\ spikes_ (B_ n1) = [] /\ currents_ (B_ n1) = ∅
    /\ (forall e, (0 < delay_steps e)%Z -> handle_SpikeEvent e n1 = (OutOfRange, n1))
    /\ calibrate K n1 = (Ok tt, n2)
    /\ spikes_ (B_ n2) = replicate (n_receptors_ (P_ n)) ∅
    /\ currents_ (B_ n2) = ∅
    /\ (forall (i : nat) (lag : Z),
          (i < n_receptors_ (P_ n))%nat ->
          RingBuffer_peek (nth i (spikes_ (B_ n2)) ∅) lag = 0)
    /\ P_ n2 = P_ n /\ U_ (S_ n2) = U_ (S_ n).
Proof.
  eexists. eexists. split; [reflexivity|].
  split; [reflexivity|]. split; [reflexivity|]. split.
  { intros e Hd. unfold handle_SpikeEvent.
    destruct (0 <? delay_steps e)%Z eqn:Hpos; [|apply Z.ltb_ge in Hpos; lia].
    change (bind (assert true) ?k ?m) with (k tt m). cbv beta. run_get.
    unfold at_Z. destruct (rport e - 1 <? 0)%Z; [reflexivity|].
    unfold bind, at_. cbn. reflexivity. }
  split; [apply calibrate_run|].
  cbn. unfold resize. cbn. rewrite Nat.sub_0_r, take_nil.
  split; [reflexivity|]. split; [reflexivity|]. split; [|split; reflexivity].
  intros i lag Hi.
  erewrite nth_of_lookup by (apply lookup_replicate_2; exact Hi). reflexivity.
Qed.

(** X7: on a node that [calibrate] has sized, and whose parameter
    vectors [asc_amps], [r] and [k] are at least as long as the vector of
    after-spike currents, [update] never reads a vector out of range:
    it returns, or stops on the assertion that follows a reset, or throws
    [BadProperty] for the model string before it has changed anything. *)
Theorem update_after_calibrate_in_range (K : Kernel) (origin from to : Z)
    (n : glif_psc) :
  asc_sized n ->
  exists n1 o n2,
    calibrate K n = (Ok tt, n1)
    /\ update K origin from to n1 = (o, n2)
    /\ (o = Ok tt \/ o = AssertionFailed
        \/ (o = Throw (BadProperty "Bad glif model type string.") /\ n2 = n1)).
Proof.
  intros Ha.
  assert (Hw : forall mt, exists n1, calibrate K n = (Ok tt, n1) /\ well_sized mt n1).
  { intros mt. apply calibrate_well_sized. intros _. exact Ha. }
  destruct (Hw 1%Z) as (n1 & E1 & _).
  destruct (update_outcome K origin from to n1) as (o & n2 & E & Ho).
  - intros mt. destruct (Hw mt) as (n1' & E1' & Hw').
    rewrite E1 in E1'. injection E1' as <-. exact Hw'.
  - exists n1, o, n2. auto.
Qed.

Lemma update_after_calibrate_in_range_witness :
  exists n1 o n2,
    calibrate example_kernel glif_psc_default = (Ok tt, n1)
    /\ update example_kernel 0 0 10 n1 = (o, n2)
    /\ (o = Ok tt \/ o = AssertionFailed
        \/ (o = Throw (BadProperty "Bad glif model type string.") /\ n2 = n1)).
Proof.
  apply (update_after_calibrate_in_range example_kernel 0 0 10 glif_psc_default).
  unfold asc_sized. cbn. lia.
Defined.

(** ** What update leaves alone *)

#[global] Instance update_frame_refl : Reflexive update_frame.
Proof. intros n. unfold update_frame. repeat split; reflexivity. Qed.

#[global] Instance update_frame_trans : Transitive update_frame.
Proof.
  intros a b c. unfold update_frame.
  intros (?&?&?&?&?&?&?&?&?&?&?&?&?) (?&?&?&?&?&?&?&?&?&?&?&?&?).
  repeat split; try congruence; etransitivity; eassumption.
Qed.

#[global] Instance same_currents_refl : Reflexive same_currents.
Proof. intros n. reflexivity. Qed.

#[global] Instance same_currents_trans : Transitive same_currents.
Proof. intros a b c. unfold same_currents. congruence. Qed.

Ltac preserves_with tac :=
  repeat first
    [ apply preserves_bind; [exact _ | | intros ?]
    | apply preserves_ret; exact _
    | apply preserves_get; exact _
    | apply preserves_throw; exact _
    | apply preserves_assert; exact _
    | apply preserves_at; exact _
    | apply preserves_when; [exact _ |]
    | apply preserves_for_loop; [exact _ | exact _ | intros ?]
    | apply preserves_modify; intros ?; tac; cbn; repeat split;
      first [reflexivity | apply prefix_app_r; reflexivity]
    | match goal with
      | |- preserves _ (if ?b then _ else _) => destruct b
      | |- preserves _ (let (_, _) := ?x in _) => destruct x
      end ].

Lemma update_step_frame K mt origin lag loc :
  preserves update_frame (update_step K mt origin lag loc).
Proof.
  unfold update_step, refractory_step, leave_refractory, check_reset,
    reset_ASCurrents, integrate_step, decay_ASCurrents, add_synapse_component,
    alpha_PSCs.
  preserves_with ltac:(unfold update_frame).
Qed.

Lemma update_loop_frame K mt origin lags : forall loc,
  preserves update_frame (update_loop K mt origin lags loc).
Proof.
  induction lags as [|lag lags IH]; intros loc; cbn [update_loop].
  - apply preserves_ret; exact _.
  - apply preserves_bind; [exact _ | apply update_step_frame | intros loc'; apply IH].
Qed.

(** X8: whatever its outcome, [update] leaves the parameters and every
    value set by [calibrate] except the refractory countdown and the two
    threshold components as they were (the total refractory time and the
    propagators), and the record of spike events sent, the spike register
    and the printed diagnostics only grow. *)
Theorem update_keeps_frame (K : Kernel) (origin from to : Z) (n n' : glif_psc)
    (o : outcome unit) :
  update K origin from to n = (o, n') -> update_frame n n'.
Proof.
  revert n o n'. change (preserves update_frame (update K origin from to)).
  unfold update. apply preserves_bind; [exact _ | apply preserves_get; exact _ |].
  intros n. destruct (find_model _ _) as [mt|].
  - apply preserves_bind; [exact _ | apply update_loop_frame |].
    intros _. apply preserves_ret; exact _.
  - apply preserves_throw; exact _.
Qed.

Lemma update_keeps_frame_witness :
  update example_kernel 0 0 0 glif_psc_default = (Ok tt, glif_psc_default)
  /\ update_frame glif_psc_default glif_psc_default.
Proof.
  split; [reflexivity|].
  apply (update_keeps_frame example_kernel 0 0 0 glif_psc_default glif_psc_default
           (Ok tt)).
  reflexivity.
Defined.

(** ** Current events *)

Lemma membrane_part_same_currents K mt origin lag loc :
  preserves same_currents (membrane_part K mt origin lag loc).
Proof.
  unfold membrane_part, refractory_step, leave_refractory, check_reset,
    reset_ASCurrents, integrate_step, decay_ASCurrents, add_synapse_component.
  preserves_with ltac:(unfold same_currents).
Qed.

Lemma alpha_PSCs_same_currents lag : preserves same_currents (alpha_PSCs lag).
Proof. unfold alpha_PSCs. preserves_with ltac:(unfold same_currents). Qed.

(** Every step reads the current of its lag from the buffer into [I_] and
    clears that entry. *)
Lemma update_step_currents K mt origin lag loc n loc' n' :
  update_step K mt origin lag loc n = (Ok loc', n') ->
  I_ (S_ n') = RingBuffer_peek (currents_ (B_ n)) lag
  /\ currents_ (B_ n') = delete lag (currents_ (B_ n)).
Proof.
  unfold update_step. intros E.
  unfold bind at 1 in E. cbn [get] in E.
  apply bind_Ok_inv in E. destruct E as ([] & s1 & E1 & E).
  injection E1 as <-.
  apply bind_Ok_inv in E. destruct E as (vc & s2 & E2 & E).
  apply bind_Ok_inv in E. destruct E as ([] & s3 & E3 & E).
  assert (H2 : same_currents n s2).
  { pose proof (membrane_part_same_currents K mt origin lag loc) as H.
    unfold membrane_part in H.
    specialize (H (on_V (set_last_spike_
      (if (mt =? 2)%Z || (mt =? 4)%Z || (mt =? 5)%Z
       then last_spike_ (V_ n) * exp (- b_spike_ (P_ n) * resolution K)
       else spike_component loc)) n) (Ok vc) s2).
    unfold bind at 1 in H. cbn [get V_ on_V t_ref_remaining_ set_last_spike_] in H.
    apply H. exact E2. }
  pose proof (alpha_PSCs_same_currents lag _ _ _ E3) as H3.
  unfold same_currents in H2, H3.
  unfold bind, get, modify, ret, get_value in E. cbn in E.
  injection E as _ <-. cbn. rewrite H3, H2. split; reflexivity.
Qed.

(** X9: [handle( CurrentEvent& )] asserts a positive delay and adds
    weight times current to the pending current of the delivery step.  The
    step of [update] with that lag reads the accumulated value into [I_]
    and clears the entry; a step with another lag leaves the event
    pending. *)
Theorem current_event_delivery (K : Kernel) (mt origin lag : Z) (loc loc' : Locals)
    (e : CurrentEvent) (n n1 n2 : glif_psc) :
  handle_CurrentEvent e n = (Ok tt, n1) ->
  update_step K mt origin lag loc n1 = (Ok loc', n2) ->
  let d := ce_rel_delivery_steps e in
  let w := ce_weight e * ce_current e in
  (0 < ce_delay_steps e)%Z
  /\ (lag = d ->
        I_ (S_ n2) = RingBuffer_peek (currents_ (B_ n)) d + w
        /\ RingBuffer_peek (currents_ (B_ n2)) d = 0)
  /\ (lag <> d ->
        I_ (S_ n2) = RingBuffer_peek (currents_ (B_ n)) lag
        /\ RingBuffer_peek (currents_ (B_ n2)) d
           = RingBuffer_peek (currents_ (B_ n)) d + w).
Proof.
  intros E1 E2 d w. unfold handle_CurrentEvent in E1.
  destruct (0 <? ce_delay_steps e)%Z eqn:Hpos; [|discriminate].
  apply Z.ltb_lt in Hpos. split; [exact Hpos|].
  change (bind (assert true) ?k n) with (k tt n) in E1. cbv beta in E1.
  injection E1 as <-.
  destruct (update_step_currents _ _ _ _ _ _ _ _ E2) as (HI & HB).
  cbn [B_ on_B currents_ set_currents_] in HI, HB. fold d w in HI, HB.
  rewrite HI, HB. unfold RingBuffer_peek, add_value. split.
  - intros ->. rewrite lookup_insert_eq, lookup_delete_eq. split; reflexivity.
  - intros Hne. rewrite lookup_insert_ne by congruence.
    rewrite lookup_delete_ne by exact Hne. rewrite lookup_insert_eq.
    split; reflexivity.
Qed.

Lemma current_event_delivery_witness :
  exists n1 loc' n2,
    handle_CurrentEvent
      {| ce_delay_steps := 1; ce_rel_delivery_steps := 0; ce_weight := 2;
         ce_current := 3 |} crossing_node = (Ok tt, n1)
    /\ update_step example_kernel 1 0 0 crossing_locals n1 = (Ok loc', n2)
    /\ I_ (S_ n2) = RingBuffer_peek (currents_ (B_ crossing_node)) 0 + 2 * 3.
Proof.
  set (e := {| ce_delay_steps := 1; ce_rel_delivery_steps := 0; ce_weight := 2;
               ce_current := 3 |}).
  assert (E1 : exists n1, handle_CurrentEvent e crossing_node = (Ok tt, n1)
                          /\ ~ refractory n1 /\ synapses_sized n1
                          /\ membrane_sized n1).
  { eexists. split; [reflexivity|]. split; [|split].
    - unfold refractory. cbn. lra.
    - unfold synapses_sized. cbn. repeat split.
    - unfold membrane_sized. cbn. repeat split. }
  destruct E1 as (n1 & E1 & Hr & Hs & Hm).
  pose proof (update_step_integrate example_kernel 1 0 0 crossing_locals n1 Hr Hs Hm)
    as E2.
  cbv zeta in E2.
  destruct (current_event_delivery example_kernel 1 0 0 crossing_locals _ e
              crossing_node n1 _ E1 (E2 ltac:(discriminate))) as (_ & H & _).
  eexists. eexists. eexists. split; [exact E1|].
  split; [exact (E2 ltac:(discriminate))|]. exact (proj1 (H eq_refl)).
Defined.

(** ** The spikes sent by update *)

Lemma spike_offset_in_step (v_old th_old U threshold h : R) :
  0 < h -> v_old <= th_old -> U > threshold ->
  0 < spike_offset v_old th_old U threshold h <= h.
Proof.
  intros Hh Hv HU. unfold spike_offset.
  set (a := th_old - v_old). set (b := U - threshold).
  assert (Ha : 0 <= a) by (unfold a; lra).
  assert (Hb : 0 < b) by (unfold b; lra).
  assert (Hq : (v_old - th_old) / ((threshold - th_old) - (U - v_old)) = a / (a + b)).
  { unfold a, b. field. split; lra. }
  rewrite Hq.
  assert (Hq1 : a / (a + b) * (a + b) = a) by (field; lra).
  set (q := a / (a + b)) in *. clearbody q.
  assert (H0 : 0 <= q) by nra.
  assert (H1 : q < 1) by nra.
  split; nra.
Qed.

Lemma update_step_well_sized K mt origin lag loc n loc' n' :
  well_sized mt n -> update_step K mt origin lag loc n = (Ok loc', n') ->
  well_sized mt n'.
Proof.
  intros Hw E.
  destruct (update_step_outcome K mt origin lag loc n Hw)
    as [(loc1 & n1 & E1 & Hw1) | (n1 & E1)]; rewrite E in E1.
  - injection E1 as _ <-. exact Hw1.
  - discriminate.
Qed.

(** One step of a run that started below the threshold: at most one
    spike event is sent, registered for the step that follows the lag,
    with an offset within the step. *)
Lemma update_step_spikes K mt origin lag loc n loc' n' :
  0 < resolution K -> between_steps mt loc n ->
  update_step K mt origin lag loc n = (Ok loc', n') ->
  between_steps mt loc' n'
  /\ exists evs,
       sent_ n' = (sent_ n ++ evs)%list
       /\ spiketimes_ (archive_ n')
          = (spiketimes_ (archive_ n) ++ map (registered origin) evs)%list
       /\ Forall (fun ev => 0 < ev.1 <= resolution K) evs
       /\ map snd evs `sublist_of` [lag].
Proof.
  intros Hh (Hw & Ht & Hv & Hth & Hb) E.
  pose proof (update_step_well_sized _ _ _ _ _ _ _ _ Hw E) as Hw'.
  pose proof (update_step_frame K mt origin lag loc _ _ _ E)
    as (_ & Htot & _).
  pose proof Hw as (Hs & Hm & Hasc).
  destruct (decide (t_ref_remaining_ (V_ n) > 0.0)) as [Hr|Hr].
  - destruct (decide (t_ref_remaining_ (V_ n) - resolution K <= 0.0)) as [Hl|Hl].
    + pose proof (membrane_part_leave' K mt origin lag loc
                    (decay_spike_component K mt loc n) Hr Hl Hasc) as E0.
      cbv zeta in E0.
      destruct (decide _) as [Hle|Hgt].
      * rewrite (update_step_Ok _ _ _ _ _ _ _ _ E0 Hs) in E.
        injection E as <- <-. split.
        -- unfold between_steps. split; [exact Hw'|]. split; [lra|].
           split; [reflexivity|]. split; [reflexivity|]. right. exact Hle.
        -- exists []. rewrite !app_nil_r.
           split; [|split; [|split; [constructor | apply sublist_nil_l]]].
           ++ unfold after_reset.
              destruct (has_ASC mt), ((mt =? 1)%Z || (mt =? 3)%Z); reflexivity.
           ++ unfold after_reset.
              destruct (has_ASC mt), ((mt =? 1)%Z || (mt =? 3)%Z); reflexivity.
      * destruct (update_step_not_Ok _ _ _ _ _ _ _ _ E0) as (o' & E' & Hne & _);
          [discriminate|].
        rewrite E in E'. injection E' as <- _. destruct (Hne loc' eq_refl).
    + pose proof (membrane_part_hold' K mt origin lag loc
                    (decay_spike_component K mt loc n) Hr Hl) as E0.
      rewrite (update_step_Ok _ _ _ _ _ _ _ _ E0 Hs) in E.
      injection E as <- <-. split.
      * unfold between_steps. split; [exact Hw'|]. split; [lra|].
        split; [reflexivity|]. split; [reflexivity|]. left.
        unfold refractory. cbn. lra.
      * exists []. rewrite !app_nil_r. split; [reflexivity|].
        split; [reflexivity|]. split; [constructor | apply sublist_nil_l].
  - assert (Hle : v_old loc <= th_old loc).
    { destruct Hb as [Hb|Hb]; [contradiction | lra]. }
    assert (Hk : has_ASC mt = true ->
                 (length (ASCurrents_ (S_ n)) <= length (k_ (P_ n)))%nat).
    { intros Ha. apply Hasc in Ha. destruct Ha as (_ & _ & Hk). exact Hk. }
    pose proof (update_step_integrate K mt origin lag loc n Hr Hs Hm Hk) as E1.
    cbv zeta in E1. rewrite E1 in E. clear E1.
    set (ni := integrated K mt loc (decay_spike_component K mt loc n)) in *.
    assert (Hsent : sent_ ni = sent_ n) by reflexivity.
    assert (Harch : archive_ ni = archive_ n) by reflexivity.
    assert (Htot' : t_ref_total_ (V_ ni) = t_ref_total_ (V_ n)) by reflexivity.
    clearbody ni. unfold detect_spike in E.
    destruct (decide (U_ (S_ ni) > threshold_ (S_ ni))) as [Hsp|Hsp].
    + injection E as <- <-. split.
      * unfold between_steps. split; [exact Hw'|]. split; [lra|].
        split; [reflexivity|]. split; [reflexivity|]. left.
        unfold refractory. cbn. lra.
      * eexists [_]. cbn. rewrite Hsent, Harch.
        split; [reflexivity|]. split; [reflexivity|]. split; [|reflexivity].
        constructor; [|constructor]. cbn.
        apply spike_offset_in_step; assumption.
    + injection E as <- <-. split.
      * unfold between_steps. split; [exact Hw'|]. split; [lra|].
        split; [reflexivity|]. split; [reflexivity|]. right. cbn. lra.
      * exists []. rewrite !app_nil_r. cbn. rewrite Hsent, Harch.
        split; [reflexivity|]. split; [reflexivity|].
        split; [constructor | apply sublist_nil_l].
Qed.

Lemma update_loop_spikes K mt origin lags : forall loc n loc' n',
  0 < resolution K -> between_steps mt loc n ->
  update_loop K mt origin lags loc n = (Ok loc', n') ->
  between_steps mt loc' n'
  /\ exists evs,
       sent_ n' = (sent_ n ++ evs)%list
       /\ spiketimes_ (archive_ n')
          = (spiketimes_ (archive_ n) ++ map (registered origin) evs)%list
       /\ Forall (fun ev => 0 < ev.1 <= resolution K) evs
       /\ map snd evs `sublist_of` lags.
Proof.
  induction lags as [|lag lags IH]; intros loc n loc' n' Hh Hb E.
  - injection E as <- <-. split; [exact Hb|]. exists []. rewrite !app_nil_r.
    split; [reflexivity|]. split; [reflexivity|]. split; [constructor | reflexivity].
  - rewrite update_loop_cons in E. apply bind_Ok_inv in E.
    destruct E as (loc1 & n1 & E1 & E2).
    destruct (update_step_spikes _ _ _ _ _ _ _ _ Hh Hb E1)
      as (Hb1 & evs1 & S1 & A1 & F1 & L1).
    destruct (IH _ _ _ _ Hh Hb1 E2) as (Hb2 & evs2 & S2 & A2 & F2 & L2).
    split; [exact Hb2|]. exists (evs1 ++ evs2)%list.
    rewrite S2, S1, A2, A1, map_app, !app_assoc.
    split; [reflexivity|]. split; [reflexivity|].
    split; [apply Forall_app; split; assumption|].
    rewrite map_app. change (lag :: lags) with ([lag] ++ lags)%list.
    apply sublist_app; assumption.
Qed.

(** X10: a run of [update] that returns, on a sized node that is
    refractory or whose potential is not above its threshold when the run
    starts: every spike event sent in the run carries an offset in
    [(0, h]], at most one is sent per step and in the order of the steps,
    each is entered in the spike register with the same offset for the
    step after its lag, and the node ends refractory or not above its
    threshold. *)
Theorem update_spikes_within_steps (K : Kernel) (origin from to : Z)
    (n n' : glif_psc) :
  0 < resolution K -> (forall mt, well_sized mt n) -> 0 < t_ref_total_ (V_ n) ->
  refractory n \/ U_ (S_ n) <= threshold_ (S_ n) ->
  update K origin from to n = (Ok tt, n') ->
  exists evs,
    sent_ n' = (sent_ n ++ evs)%list
    /\ spiketimes_ (archive_ n')
       = (spiketimes_ (archive_ n) ++ map (registered origin) evs)%list
    /\ Forall (fun ev => 0 < ev.1 <= resolution K) evs
    /\ map snd evs `sublist_of` seqZ from (to - from)
    /\ (refractory n' \/ U_ (S_ n') <= threshold_ (S_ n')).
Proof.
  intros Hh Hw Ht Hb E. unfold update in E.
  unfold bind at 1 in E. cbn [get] in E.
  destruct (find_model _ _) as [mt|]; [|discriminate].
  apply bind_Ok_inv in E. destruct E as (loc' & n1 & E & E').
  injection E' as <-.
  assert (Hb0 : between_steps mt
                  {| v_old := U_ (S_ n); spike_component := 0.0;
                     voltage_component := 0.0; th_old := threshold_ (S_ n) |} n).
  { unfold between_steps. auto. }
  destruct (update_loop_spikes _ _ _ _ _ _ _ _ Hh Hb0 E)
    as ((_ & _ & _ & _ & Hb') & evs & H1 & H2 & H3 & H4).
  exists evs. auto.
Qed.

Lemma update_spikes_within_steps_witness :
  exists n' evs,
    update example_kernel 0 0 1 crossing_node = (Ok tt, n')
    /\ sent_ n' = (sent_ crossing_node ++ evs)%list
    /\ Forall (fun ev => 0 < ev.1 <= 1) evs.
Proof.
  destruct crossing_node_offset as (loc' & n' & offset & E & _).
  assert (Eu : update example_kernel 0 0 1 crossing_node = (Ok tt, n')).
  { unfold update. unfold bind at 1. cbn [get].
    change (find_model _ _) with (Some 1%Z). cbv iota.
    change (seqZ 0 (1 - 0)) with [0%Z].
    change {| v_old := U_ (S_ crossing_node); spike_component := 0.0;
              voltage_component := 0.0; th_old := threshold_ (S_ crossing_node) |}
      with crossing_locals.
    cbn [update_loop]. unfold bind. rewrite E. reflexivity. }
  destruct (update_spikes_within_steps example_kernel 0 0 1 crossing_node n')
    as (evs & H1 & _ & H3 & _).
  - cbn. lra.
  - intros mt. unfold well_sized, synapses_sized, membrane_sized, asc_sized. cbn.
    repeat split; lia.
  - cbn. lra.
  - right. cbn. lra.
  - exact Eu.
  - exists n', evs. split; [exact Eu|]. split; [exact H1 | exact H3].
Defined.

(** ** update over consecutive ranges of steps *)

Lemma same_locals_refl mt l : same_locals mt l l.
Proof. unfold same_locals. auto. Qed.

Lemma returns_bind {St A B} (Q : B -> Prop) (c : M St A) (f : A -> M St B) :
  (forall a, returns Q (f a)) -> returns Q (bind c f).
Proof.
  intros Hf s b s' E. apply bind_Ok_inv in E. destruct E as (a & s1 & _ & E).
  exact (Hf a _ _ _ E).
Qed.

Lemma returns_ret {St A} (Q : A -> Prop) (a : A) : Q a -> returns Q (@ret St A a).
Proof. intros H s a' s' [= <- _]. exact H. Qed.

Lemma update_step_parts K mt origin lag loc n :
  update_step K mt origin lag loc n
  = bind (membrane_part K mt origin lag loc)
      (input_part lag (decayed_spike_component K mt loc n))
      (decay_spike_component K mt loc n).
Proof. reflexivity. Qed.

Lemma membrane_part_refractory K mt origin lag loc n :
  refractory n ->
  membrane_part K mt origin lag loc n
  = bind (refractory_step K mt loc) (fun _ => ret (voltage_component loc)) n.
Proof.
  intros Hr. unfold membrane_part, refractory in *. run_get.
  destruct (decide (t_ref_remaining_ (V_ n) > 0.0)); [reflexivity | contradiction].
Qed.

(** The second half of a step reaches the same state whatever voltage
    component it is given. *)
Lemma input_part_voltage_component lag sc vc1 vc2 (n : glif_psc) :
  (input_part lag sc vc1 n).2 = (input_part lag sc vc2 n).2
  /\ outcome_rel (fun l1 l2 => v_old l1 = v_old l2 /\ th_old l1 = th_old l2
                              /\ spike_component l1 = spike_component l2)
       (input_part lag sc vc1 n).1 (input_part lag sc vc2 n).1.
Proof.
  unfold input_part, bind.
  destruct (alpha_PSCs lag n) as [[[]|e| |] s]; cbn; repeat split; reflexivity.
Qed.

Lemma update_step_same_locals K mt origin lag l1 l2 n :
  same_locals mt l1 l2 ->
  (update_step K mt origin lag l1 n).2 = (update_step K mt origin lag l2 n).2
  /\ outcome_rel (same_locals mt)
       (update_step K mt origin lag l1 n).1 (update_step K mt origin lag l2 n).1.
Proof.
  destruct l1 as [v1 s1 c1 t1], l2 as [v2 s2 c2 t2]. unfold same_locals at 1.
  cbn [v_old th_old spike_component voltage_component].
  intros (<- & <- & Hs & Hc).
  assert (Hrefl : forall r : outcome Locals * glif_psc,
             r.2 = r.2 /\ outcome_rel (same_locals mt) r.1 r.1).
  { intros [[l|e| |] s]; cbn; auto using same_locals_refl. }
  destruct ((mt =? 2)%Z || (mt =? 4)%Z || (mt =? 5)%Z) eqn:Hb1.
  2:{ rewrite (Hs eq_refl).
      apply orb_false_iff in Hb1. destruct Hb1 as (_ & Hb2).
      rewrite (Hc Hb2). apply Hrefl. }
  destruct (bool_dec (mt =? 5)%Z true) as [Hb2|Hb2].
  2:{ apply not_true_is_false in Hb2. rewrite (Hc Hb2).
      unfold update_step. rewrite Hb1. cbv iota. apply Hrefl. }
  clear Hs Hc. rewrite !update_step_parts.
  unfold decay_spike_component, decayed_spike_component. rewrite Hb1.
  set (sc := last_spike_ (V_ n) * exp (- b_spike_ (P_ n) * resolution K)).
  set (n0 := on_V (set_last_spike_ sc) n).
  unfold bind.
  destruct (decide (refractory n0)) as [Hr|Hr].
  - rewrite !membrane_part_refractory by exact Hr.
    change (refractory_step K mt {| v_old := v1; spike_component := s2;
                                    voltage_component := c2; th_old := t1 |})
      with (refractory_step K mt {| v_old := v1; spike_component := s1;
                                    voltage_component := c1; th_old := t1 |}).
    unfold bind.
    destruct (refractory_step K mt _ n0) as [[[]|e| |] s']; cbn [fst snd outcome_rel];
      auto.
    cbn [voltage_component]. unfold ret.
    destruct (input_part_voltage_component lag sc c1 c2 s') as (H1 & H2).
    split; [exact H1|].
    destruct (input_part lag sc c1 s').1 as [a1|e1| |],
             (input_part lag sc c2 s').1 as [b1|e2| |]; cbn in H2 |- *; try tauto.
    destruct H2 as (Hv & Ht & _). unfold same_locals. rewrite Hb1, Hb2.
    repeat split; try assumption; discriminate.
  - rewrite !membrane_part_integrate by exact Hr.
    unfold integrate_step. rewrite Hb2.
    cbn [v_old th_old spike_component voltage_component]. apply Hrefl.
Qed.

Lemma update_loop_same_locals K mt origin lags : forall l1 l2 n,
  same_locals mt l1 l2 ->
  (update_loop K mt origin lags l1 n).2 = (update_loop K mt origin lags l2 n).2
  /\ outcome_rel (same_locals mt)
       (update_loop K mt origin lags l1 n).1 (update_loop K mt origin lags l2 n).1.
Proof.
  induction lags as [|lag lags IH]; intros l1 l2 n Hl.
  - cbn. split; [reflexivity | exact Hl].
  - rewrite !update_loop_cons. unfold bind.
    destruct (update_step_same_locals K mt origin lag l1 l2 n Hl) as (H1 & H2).
    destruct (update_step K mt origin lag l1 n) as [o1 n1],
             (update_step K mt origin lag l2 n) as [o2 n2].
    cbn [fst snd] in H1, H2. subst n2.
    destruct o1 as [a1|e1| |], o2 as [a2|e2| |]; cbn in H2; try contradiction.
    + apply IH. exact H2.
    + subst e2. cbn. auto.
    + cbn. auto.
    + cbn. auto.
Qed.

Lemma update_loop_app_bind K mt origin lags1 lags2 : forall loc n,
  update_loop K mt origin (lags1 ++ lags2) loc n
  = bind (update_loop K mt origin lags1 loc) (update_loop K mt origin lags2) n.
Proof.
  induction lags1 as [|lag lags1 IH]; intros loc n.
  - reflexivity.
  - cbn [app update_loop]. unfold bind.
    destruct (update_step K mt origin lag loc n) as [[loc1|e| |] n1]; try reflexivity.
    rewrite IH. reflexivity.
Qed.

(** The locals that a step returns. *)
Lemma input_part_returns lag sc vc n loc' n' :
  input_part lag sc vc n = (Ok loc', n') ->
  v_old loc' = U_ (S_ n') /\ th_old loc' = threshold_ (S_ n')
  /\ spike_component loc' = sc /\ voltage_component loc' = vc.
Proof.
  unfold input_part. intros E.
  apply bind_Ok_inv in E. destruct E as ([] & s & _ & E).
  unfold bind, get, modify, ret, get_value in E. cbn in E.
  injection E as <- <-. cbn. auto.
Qed.

Lemma integrate_step_returns K mt origin lag loc :
  (mt =? 5)%Z = false ->
  returns (fun vc => vc = voltage_component loc) (integrate_step K mt origin lag loc).
Proof.
  intros Hb. unfold integrate_step. rewrite Hb.
  repeat (apply returns_bind; intros ?).
  apply returns_ret. reflexivity.
Qed.

Lemma update_step_locals K mt origin lag loc n loc' n' :
  update_step K mt origin lag loc n = (Ok loc', n') ->
  v_old loc' = U_ (S_ n') /\ th_old loc' = threshold_ (S_ n')
  /\ ((mt =? 2)%Z || (mt =? 4)%Z || (mt =? 5)%Z = false ->
      spike_component loc' = spike_component loc)
  /\ ((mt =? 5)%Z = false -> voltage_component loc' = voltage_component loc).
Proof.
  rewrite update_step_parts. intros E.
  apply bind_Ok_inv in E. destruct E as (vc & n1 & E1 & E2).
  destruct (input_part_returns _ _ _ _ _ _ E2) as (H1 & H2 & H3 & H4).
  split; [exact H1|]. split; [exact H2|]. split.
  - intros Hb. rewrite H3. unfold decayed_spike_component. rewrite Hb. reflexivity.
  - intros Hb. rewrite H4. unfold membrane_part in E1.
    unfold bind at 1 in E1. cbn [get] in E1.
    destruct (decide _).
    + apply bind_Ok_inv in E1. destruct E1 as ([] & s & _ & [= <- _]). reflexivity.
    + exact (integrate_step_returns K mt origin lag loc Hb _ _ _ E1).
Qed.

Lemma update_loop_locals K mt origin lags : forall loc n loc' n',
  update_loop K mt origin lags loc n = (Ok loc', n') ->
  same_locals mt
    {| v_old := U_ (S_ n); spike_component := 0.0; voltage_component := 0.0;
       th_old := threshold_ (S_ n) |} loc ->
  same_locals mt
    {| v_old := U_ (S_ n'); spike_component := 0.0; voltage_component := 0.0;
       th_old := threshold_ (S_ n') |} loc'.
Proof.
  induction lags as [|lag lags IH]; intros loc n loc' n' E Hl.
  - injection E as <- <-. exact Hl.
  - rewrite update_loop_cons in E. apply bind_Ok_inv in E.
    destruct E as (loc1 & n1 & E1 & E2).
    apply (IH _ _ _ _ E2).
    destruct (update_step_locals _ _ _ _ _ _ _ _ E1) as (H1 & H2 & H3 & H4).
    destruct Hl as (_ & _ & L3 & L4). cbn in L3, L4.
    unfold same_locals. cbn.
    repeat split; try congruence.
    + intros Hb. rewrite (H3 Hb). apply L3. exact Hb.
    + intros Hb. rewrite (H4 Hb). apply L4. exact Hb.
Qed.

Lemma update_run K origin from to n :
  update K origin from to n
  = match find_model (model_type_lu K) (transform_tolower (glif_model_ (P_ n))) with
    | None => (Throw (BadProperty "Bad glif model type string."), n)
    | Some mt =>
        match update_loop K mt origin (seqZ from (to - from))
                {| v_old := U_ (S_ n); spike_component := 0.0;
                   voltage_component := 0.0; th_old := threshold_ (S_ n) |} n with
        | (Ok _, n') => (Ok tt, n')
        | (Throw e, n') => (Throw e, n')
        | (AssertionFailed, n') => (AssertionFailed, n')
        | (OutOfRange, n') => (OutOfRange, n')
        end
    end.
Proof.
  unfold update. unfold bind at 1. cbn [get].
  destruct (find_model _ _); [|reflexivity].
  unfold bind. destruct (update_loop _ _ _ _ _ n) as [[l|e| |] n']; reflexivity.
Qed.

(** X11: for [from <= mid <= to], [update] over the steps [from .. mid)
    followed by [update] over [mid .. to) is [update] over [from .. to):
    the same outcome and the same node, whatever the model and whether
    the run returns, throws or stops.  The locals that a call starts
    afresh ([spike_component] and [voltage_component] at [0.0]) are
    exactly those that no step reads before it has written them. *)
Theorem update_split (K : Kernel) (origin from mid to : Z) (n : glif_psc) :
  (from <= mid <= to)%Z ->
  (update K origin from mid ;; update K origin mid to) n = update K origin from to n.
Proof.
  intros Hmid. unfold bind. rewrite (update_run K origin from mid n).
  rewrite (update_run K origin from to n).
  destruct (find_model (model_type_lu K) (transform_tolower (glif_model_ (P_ n))))
    as [mt|] eqn:Hm; [|reflexivity].
  replace (to - from)%Z with ((mid - from) + (to - mid))%Z by lia.
  rewrite seqZ_app by lia. replace (from + (mid - from))%Z with mid by lia.
  rewrite update_loop_app_bind.
  set (lags1 := seqZ from (mid - from)). set (lags2 := seqZ mid (to - mid)).
  set (loc0 := {| v_old := U_ (S_ n); spike_component := 0.0;
                  voltage_component := 0.0; th_old := threshold_ (S_ n) |}).
  unfold bind.
  destruct (update_loop K mt origin lags1 loc0 n) as [[loc1|e| |] n1] eqn:E1;
    try reflexivity.
  rewrite (update_run K origin mid to n1).
  pose proof (update_loop_frame K mt origin lags1 loc0 _ _ _ E1) as (HP & _).
  rewrite HP, Hm. fold lags2.
  pose proof (update_loop_locals _ _ _ _ _ _ _ _ E1 (same_locals_refl mt loc0)) as Hl.
  destruct (update_loop_same_locals K mt origin lags2 _ _ n1 Hl) as (H1 & H2).
  destruct (update_loop K mt origin lags2 _ n1) as [o1 s1],
           (update_loop K mt origin lags2 loc1 n1) as [o2 s2].
  cbn [fst snd] in H1, H2. subst s2.
  destruct o1 as [a1|e1| |], o2 as [a2|e2| |]; cbn in H2; try contradiction;
    try reflexivity.
  subst e2. reflexivity.
Qed.

Lemma update_split_witness :
  (update example_kernel 0 0 1 ;; update example_kernel 0 1 3) crossing_node
  = update example_kernel 0 0 3 crossing_node.
Proof. apply (update_split example_kernel 0 0 1 3 crossing_node). lia. Defined.

(** ** The integration step *)

(** X12: the propagators [P33_] and [P30_] that [calibrate] computes for
    a step [h] integrate the membrane equation with a constant current
    exactly, for positive capacitance and conductance: [P30_] is
    [(1 - P33_) / G], one step of [h1 + h2] gives the potential that a
    step of [h1] followed by a step of [h2] gives, and the potential
    [I / G] is a fixed point. *)
Theorem calibrate_exact_integrator (K : Kernel) (n : glif_psc) (h1 h2 v I : R) :
  0 < C_m_ (P_ n) -> 0 < G_ (P_ n) ->
  let V := fun h => V_ (calibrate (with_resolution h K) n).2 in
  let step := fun h u => u * P33_ (V h) + I * P30_ (V h) in
  P30_ (V h1) = (1 - P33_ (V h1)) / G_ (P_ n)
  /\ step h2 (step h1 v) = step (h1 + h2) v
  /\ step h1 (I / G_ (P_ n)) = I / G_ (P_ n).
Proof.
  intros HC HG V step. unfold step, V. rewrite !calibrate_run.
  cbn [snd V_ on_B on_S on_V P33_ P30_ resolution with_resolution].
  rewrite P33_step_additive.
  set (C := C_m_ (P_ n)) in *. set (G := G_ (P_ n)) in *.
  set (e1 := exp (- h1 / (C / G))). set (e2 := exp (- h2 / (C / G))).
  clearbody e1 e2. repeat split; field; lra.
Qed.

Lemma calibrate_exact_integrator_witness :
  let V := fun h => V_ (calibrate (with_resolution h example_kernel) glif_psc_default).2 in
  P30_ (V 0.1) = (1 - P33_ (V 0.1)) / 9.43.
Proof.
  intros V.
  destruct (calibrate_exact_integrator example_kernel glif_psc_default 0.1 0.1 0 0)
    as (H & _).
  - cbn. lra.
  - cbn. lra.
  - exact H.
Defined.

(** X13: a step of a neuron that is not refractory, on a sized node:
    the step returns; the new potential is
    [v_old * P33_ + (I_ + sum) * P30_] plus, over the receptors in order,
    [P31_[i] * y1_[i] + P32_[i] * y2_[i]]; [I_syn_] is the sum of the
    second stages; for the models with after-spike currents [sum] is the
    sum of the currents before the step and each current [a] is decayed
    by [exp (- k_[a] * h)]; for the other models [sum] is zero and the
    currents are untouched; the threshold is the sum of the spike
    component, the voltage component (recomputed by model 5 only) and
    [th_inf_].  All values are read before the step advances the synaptic
    stages. *)
Theorem integration_step_closed_form (K : Kernel) (mt origin lag : Z) (loc : Locals)
    (n : glif_psc) :
  ~ refractory n -> synapses_sized n -> membrane_sized n ->
  (has_ASC mt = true -> (length (ASCurrents_ (S_ n)) <= length (k_ (P_ n)))%nat) ->
  let sum := if has_ASC mt then fold_left Rplus (ASCurrents_ (S_ n)) 0.0 else 0.0 in
  exists loc' n',
    update_step K mt origin lag loc n = (Ok loc', n')
    /\ U_ (S_ n')
       = fold_left
           (fun u i => u + (nth i (P31_ (V_ n)) 0 * nth i (y1_ (S_ n)) 0
                            + nth i (P32_ (V_ n)) 0 * nth i (y2_ (S_ n)) 0))
           (seq 0 (n_receptors_ (P_ n)))
           (v_old loc * P33_ (V_ n) + (I_ (S_ n) + sum) * P30_ (V_ n))
    /\ I_syn_ (S_ n')
       = fold_left (fun s i => s + nth i (y2_ (S_ n)) 0)
           (seq 0 (n_receptors_ (P_ n))) 0.0
    /\ ASCurrents_sum_ (S_ n') = sum
    /\ ASCurrents_ (S_ n')
       = (if has_ASC mt
          then map (fun a => nth a (ASCurrents_ (S_ n)) 0
                             * exp (- nth a (k_ (P_ n)) 0 * resolution K))
                 (seq 0 (length (ASCurrents_ (S_ n))))
          else ASCurrents_ (S_ n))
    /\ spike_component loc'
       = (if (mt =? 2)%Z || (mt =? 4)%Z || (mt =? 5)%Z
          then last_spike_ (V_ n) * exp (- b_spike_ (P_ n) * resolution K)
          else spike_component loc)
    /\ voltage_component loc'
       = (if (mt =? 5)%Z
          then voltage_component_exact (P_ n) (resolution K) (I_ (S_ n)) sum
                 (v_old loc) (last_voltage_ (V_ n))
          else voltage_component loc)
    /\ threshold_ (S_ n')
       = spike_component loc' + voltage_component loc' + th_inf_ (P_ n)
    /\ v_old loc' = U_ (S_ n') /\ th_old loc' = threshold_ (S_ n').
Proof.
  intros Hr Hs Hm Hk sum.
  eexists. eexists. split; [apply update_step_integrate; assumption|].
  cbv zeta. unfold detect_spike.
  destruct (decide _); unfold integrated; subst sum;
    destruct (has_ASC mt); cbn; repeat split; reflexivity.
Qed.

Lemma integration_step_closed_form_witness :
  exists loc' n',
    update_step example_kernel 1 0 0 crossing_locals crossing_node = (Ok loc', n')
    /\ ASCurrents_ (S_ n') = ASCurrents_ (S_ crossing_node)
    /\ ASCurrents_sum_ (S_ n') = 0.0.
Proof.
  destruct (integration_step_closed_form example_kernel 1 0 0 crossing_locals
              crossing_node)
    as (loc' & n' & E & _ & _ & H3 & H4 & _).
  - unfold refractory. cbn. lra.
  - unfold synapses_sized. cbn. repeat split.
  - unfold membrane_sized. cbn. repeat split.
  - discriminate.
  - exists loc', n'. split; [exact E|]. split; [exact H4 | exact H3].
Defined.

(** ** Vectors of the after-spike currents that are too short *)

Lemma for_loop_split {St} (body : nat -> M St unit) (c1 c2 : nat) : forall from s,
  for_loop from (c1 + c2) body s
  = bind (for_loop from c1 body) (fun _ => for_loop (from + c1) c2 body) s.
Proof.
  induction c1 as [|c1 IH]; intros from s.
  - cbn. rewrite Nat.add_0_r. reflexivity.
  - cbn [Nat.add for_loop]. rewrite bind_assoc.
    replace (from + S c1)%nat with (S from + c1)%nat by lia.
    unfold bind at 1 2.
    destruct (body from s) as [[[]|e| |] s1]; try reflexivity.
    apply IH.
Qed.

Lemma decay_ASCurrents_body dt n :
  decay_ASCurrents dt n
  = for_loop 0 (length (ASCurrents_ (S_ n))) (decay_body dt) n.
Proof. reflexivity. Qed.

Lemma decay_ASCurrents_short dt n :
  (length (k_ (P_ n)) < length (ASCurrents_ (S_ n)))%nat ->
  exists n', decay_ASCurrents dt n = (OutOfRange, n').
Proof.
  intros L. rewrite decay_ASCurrents_body.
  set (m := length (k_ (P_ n))) in *.
  replace (length (ASCurrents_ (S_ n)))
    with (m + S (length (ASCurrents_ (S_ n)) - m - 1))%nat by lia.
  rewrite for_loop_split.
  set (I := fun (i : nat) (s : glif_psc) =>
              P_ s = P_ n /\ length (ASCurrents_ (S_ s)) = length (ASCurrents_ (S_ n))).
  destruct (for_loop_inv I (decay_body dt) m 0 n) as (s1 & E & HP & HL).
  - unfold I. split; reflexivity.
  - intros i s Hi (HP & HL). cbn [Nat.add] in Hi.
    destruct (lookup_lt_is_Some_2 (ASCurrents_ (S_ s)) i) as [cur Hcur]; [lia|].
    destruct (lookup_lt_is_Some_2 (k_ (P_ s)) i) as [ka Hka]; [rewrite HP; lia|].
    eexists. split.
    + unfold decay_body. run_get. rewrite (bind_at _ _ _ _ _ Hcur). run_get.
      node_proj. rewrite (bind_at _ _ _ _ _ Hka). unfold modify. reflexivity.
    + unfold I. cbn. rewrite length_insert. split; assumption.
  - rewrite (bind_Ok _ _ _ _ _ E). cbn [Nat.add for_loop].
    destruct (lookup_lt_is_Some_2 (ASCurrents_ (S_ s1)) m) as [cur Hcur]; [lia|].
    eexists. unfold bind at 1. unfold decay_body at 1. run_get.
    rewrite (bind_at _ _ _ _ _ Hcur). run_get. node_proj.
    unfold bind, at_. rewrite HP.
    rewrite (lookup_ge_None_2 (k_ (P_ n)) m) by (unfold m; lia). reflexivity.
Qed.

(** X14: [Parameters_::set] checks that the entries of [k] are positive
    but not that [k] has an entry for every after-spike current.  With
    fewer entries in [k] than after-spike currents, a step of a model with
    after-spike currents (3, 4, 5) of a neuron that is not refractory
    reads [k] beyond its size. *)
Theorem short_k_is_read_out_of_range (K : Kernel) (mt origin lag : Z) (loc : Locals)
    (n : glif_psc) :
  has_ASC mt = true -> ~ refractory n ->
  (length (k_ (P_ n)) < length (ASCurrents_ (S_ n)))%nat ->
  exists n', update_step K mt origin lag loc n = (OutOfRange, n').
Proof.
  intros Ha Hr L. rewrite update_step_parts.
  set (n0 := decay_spike_component K mt loc n).
  assert (Hr0 : ~ refractory n0) by exact Hr.
  unfold bind. rewrite (membrane_part_integrate K mt origin lag loc n0 Hr0).
  unfold integrate_step. run_get. fold (has_ASC mt). rewrite Ha. cbn [when].
  destruct (decay_ASCurrents_short (resolution K)
              (on_S (set_ASCurrents_sum_ 0.0) n0)) as (n' & E); [exact L|].
  exists n'. unfold bind at 1. rewrite E. reflexivity.
Qed.

Lemma short_k_is_read_out_of_range_witness :
  exists n1 n2 n3,
    set_status example_kernel short_k_dictionary glif_psc_default = (Ok tt, n1)
    /\ calibrate example_kernel n1 = (Ok tt, n2)
    /\ update example_kernel 0 0 1 n2 = (OutOfRange, n3).
Proof.
  set (d := short_k_dictionary).
  assert (E : Parameters_set d Parameters_default
              = (Ok (E_L_ (assigned d Parameters_default) - E_L_ Parameters_default),
                 assigned d Parameters_default)).
  { subst d. unfold short_k_dictionary. eval_set. }
  assert (Es : exists n1, set_status example_kernel d glif_psc_default = (Ok tt, n1)
                          /\ k_ (P_ n1) = [0.003]
                          /\ glif_model_ (P_ n1) = "lif_asc"
                          /\ ASCurrents_ (S_ n1) = [0.0; 0.0]).
  { eexists. split.
    - unfold set_status, run. cbn [P_ S_ glif_psc_default]. rewrite E.
      rewrite State_set_absent
        by (subst d; unfold short_k_dictionary; simplify_map_eq; reflexivity).
      cbn [Archiving_Node_set_status example_kernel ret]. reflexivity.
    - cbn [P_ S_ on_S on_P on_archive]. split; [|split; [|reflexivity]].
      + subst d. unfold short_k_dictionary. eval_assigned. reflexivity.
      + subst d. unfold short_k_dictionary. eval_assigned. reflexivity. }
  destruct Es as (n1 & Es & Hk & Hg & Hasc).
  destruct (calibrate_keeps example_kernel n1) as (n2 & Ec & Hnr & HP & HA).
  destruct (short_k_is_read_out_of_range example_kernel 3 0 0
              {| v_old := U_ (S_ n2); spike_component := 0.0;
                 voltage_component := 0.0; th_old := threshold_ (S_ n2) |}
              n2) as (n3 & E3).
  - reflexivity.
  - exact Hnr.
  - rewrite HP, HA, Hk, Hasc. cbn. lia.
  - exists n1, n2, n3. split; [exact Es|]. split; [exact Ec|].
    rewrite update_run, HP, Hg.
    change (find_model _ _) with (Some 3%Z). cbv iota.
    change (seqZ 0 (1 - 0)) with [0%Z]. cbn [update_loop]. unfold bind.
    rewrite E3. reflexivity.
Defined.

(** ** The response to a weighted spike event *)




(** ** The end of the refractory period and the spike component *)

(** X16: the step on which the refractory countdown reaches zero, when
    the reset leaves the potential not above the threshold.  Models 1 and
    3 set the potential to [V_reset_] and leave the threshold alone; the
    other models set it to [voltage_reset_a_ * U_ + voltage_reset_b_],
    add [a_spike_] to the spike component of the threshold and recompute
    the threshold as spike component plus voltage component plus
    [th_inf_].  The step returns, the neuron is no longer refractory, and
    the locals for the next step hold the new potential and threshold. *)
Theorem leaving_refractory_resets (K : Kernel) (mt origin lag : Z) (loc : Locals)
    (n : glif_psc) :
  synapses_sized n -> (has_ASC mt = true -> asc_sized n) ->
  0.0 < t_ref_remaining_ (V_ n) <= resolution K ->
  let fixed := (mt =? 1)%Z || (mt =? 3)%Z in
  let spike :=
    if (mt =? 2)%Z || (mt =? 4)%Z || (mt =? 5)%Z
    then last_spike_ (V_ n) * exp (- b_spike_ (P_ n) * resolution K)
    else spike_component loc in
  let U' :=
    if fixed then V_reset_ (P_ n)
    else voltage_reset_a_ (P_ n) * U_ (S_ n) + voltage_reset_b_ (P_ n) in
  let threshold' :=
    if fixed then threshold_ (S_ n)
    else spike + a_spike_ (P_ n) + last_voltage_ (V_ n) + th_inf_ (P_ n) in
  U' <= threshold' ->
  exists loc' n',
    update_step K mt origin lag loc n = (Ok loc', n')
    /\ U_ (S_ n') = U' /\ threshold_ (S_ n') = threshold'
    /\ last_spike_ (V_ n') = (if fixed then spike else spike + a_spike_ (P_ n))
    /\ ~ refractory n'
    /\ v_old loc' = U' /\ th_old loc' = threshold'.
Proof.
  intros Hs Hasc Ht fixed spike U' threshold' Hle.
  pose proof (update_step_leave K mt origin lag loc n Hs Hasc Ht) as E.
  cbv zeta in E.
  set (n1 := after_reset mt (count_down K (decay_spike_component K mt loc n))) in *.
  assert (HU : U_ (S_ n1) = U').
  { unfold n1, after_reset, U'. fold fixed.
    destruct (has_ASC mt), fixed; reflexivity. }
  assert (HT : threshold_ (S_ n1) = threshold').
  { unfold n1, after_reset, threshold'. fold fixed.
    destruct (has_ASC mt), fixed; reflexivity. }
  assert (HL : last_spike_ (V_ n1) = if fixed then spike else spike + a_spike_ (P_ n)).
  { unfold n1, after_reset. fold fixed.
    destruct (has_ASC mt), fixed; reflexivity. }
  assert (HR : t_ref_remaining_ (V_ n1) = t_ref_remaining_ (V_ n) - resolution K).
  { unfold n1, after_reset. fold fixed.
    destruct (has_ASC mt), fixed; reflexivity. }
  destruct (decide (U_ (S_ n1) <= threshold_ (S_ n1))) as [_|Hgt]; [|lra].
  eexists. eexists. split; [exact E|].
  cbn [consume_inputs on_S on_B with_synapses S_ V_ U_ threshold_ set_I_ set_y1_ set_y2_
       v_old th_old].
  split; [exact HU|]. split; [exact HT|]. split; [exact HL|].
  split; [|split; assumption].
  unfold refractory.
  cbn [consume_inputs on_S on_B with_synapses S_ V_ U_ threshold_ set_I_ set_y1_ set_y2_].
  rewrite HR. lra.
Qed.

Lemma leaving_refractory_resets_witness :
  exists loc' n',
    update_step example_kernel 2 0 3 spiked_locals (spiked_node 0.75 (-10))
    = (Ok loc', n')
    /\ U_ (S_ n') = 0.20 * 30 + -10.
Proof.
  destruct (leaving_refractory_resets example_kernel 2 0 3 spiked_locals
              (spiked_node 0.75 (-10))) as (loc' & n' & E & HU & _).
  - unfold synapses_sized. cbn. repeat split.
  - discriminate.
  - cbn. lra.
  - cbn. pose proof (exp_pos (- (0.009) * 1)). lra.
  - exists loc', n'. split; [exact E|]. rewrite HU. reflexivity.
Defined.

(** X17: in the models with a spike component of the threshold (2, 4 and
    5), every step that returns multiplies the spike component
    [last_spike_] by [exp (- b_spike_ * h)], whether the neuron is
    refractory or not, and the step on which the refractory countdown
    reaches zero adds [a_spike_] after the decay; nothing else changes
    it. *)
Theorem spike_component_decays (K : Kernel) (mt origin lag : Z) (loc loc' : Locals)
    (n n' : glif_psc) :
  well_sized mt n ->
  (mt =? 2)%Z || (mt =? 4)%Z || (mt =? 5)%Z = true ->
  update_step K mt origin lag loc n = (Ok loc', n') ->
  last_spike_ (V_ n')
  = last_spike_ (V_ n) * exp (- b_spike_ (P_ n) * resolution K)
    + (if decide (t_ref_remaining_ (V_ n) > 0.0
                  /\ t_ref_remaining_ (V_ n) - resolution K <= 0.0)
       then a_spike_ (P_ n) else 0).
Proof.
  intros (Hs & Hm & Hasc) Hb E.
  assert (Hfixed : (mt =? 1)%Z || (mt =? 3)%Z = false).
  { destruct (Z.eqb_spec mt 1) as [->|]; [discriminate|].
    destruct (Z.eqb_spec mt 3) as [->|]; [discriminate | reflexivity]. }
  destruct (decide (t_ref_remaining_ (V_ n) > 0.0)) as [Hr|Hr].
  - destruct (decide (t_ref_remaining_ (V_ n) - resolution K <= 0.0)) as [Hl|Hl].
    + pose proof (membrane_part_leave' K mt origin lag loc
                    (decay_spike_component K mt loc n) Hr Hl Hasc) as E0.
      cbv zeta in E0.
      destruct (decide (_ /\ _)) as [_|Hn]; [|tauto].
      destruct (decide (_ <= _)) as [Hle|Hgt].
      * rewrite (update_step_Ok _ _ _ _ _ _ _ _ E0 Hs) in E.
        injection E as _ <-. unfold after_reset. rewrite Hfixed.
        unfold decay_spike_component, decayed_spike_component. rewrite Hb.
        destruct (has_ASC mt); reflexivity.
      * destruct (update_step_not_Ok _ _ _ _ _ _ _ _ E0) as (o' & E' & Hne & _);
          [discriminate|].
        rewrite E in E'. injection E' as <- _. destruct (Hne loc' eq_refl).
    + pose proof (membrane_part_hold' K mt origin lag loc
                    (decay_spike_component K mt loc n) Hr Hl) as E0.
      rewrite (update_step_Ok _ _ _ _ _ _ _ _ E0 Hs) in E.
      injection E as _ <-.
      destruct (decide (_ /\ _)) as [[_ Hn]|_]; [contradiction|].
      unfold decay_spike_component, decayed_spike_component. rewrite Hb.
      cbn. lra.
  - assert (Hk : has_ASC mt = true ->
                 (length (ASCurrents_ (S_ n)) <= length (k_ (P_ n)))%nat).
    { intros Ha. apply Hasc in Ha. destruct Ha as (_ & _ & Hk). exact Hk. }
    pose proof (update_step_integrate K mt origin lag loc n Hr Hs Hm Hk) as E1.
    cbv zeta in E1. rewrite E1 in E. injection E as _ <-.
    destruct (decide (_ /\ _)) as [[Hn _]|_]; [contradiction|].
    unfold detect_spike, integrated, decay_spike_component, decayed_spike_component.
    rewrite Hb. destruct (decide _), (has_ASC mt); cbn; lra.
Qed.

Lemma spike_component_decays_witness :
  exists loc' n',
    update_step example_kernel 2 0 3 spiked_locals (spiked_node 0.75 (-10))
    = (Ok loc', n')
    /\ last_spike_ (V_ n') = 0 * exp (- (0.009) * 1) + 0.37.
Proof.
  pose proof (update_step_leave example_kernel 2 0 3 spiked_locals
                (spiked_node 0.75 (-10))) as E.
  cbv zeta in E.
  destruct (decide _) as [_|Hgt] in E.
  2:{ destruct Hgt. cbn. pose proof (exp_pos (- (0.009) * 1)). lra. }
  eexists. eexists. split.
  - apply E.
    + unfold synapses_sized. cbn. repeat split.
    + discriminate.
    + cbn. lra.
  - erewrite (spike_component_decays example_kernel 2 0 3 spiked_locals _
                (spiked_node 0.75 (-10))).
    + destruct (decide _) as [_|Hn]; [reflexivity|].
      destruct Hn. cbn. split; lra.
    + unfold well_sized, synapses_sized, membrane_sized. cbn.
      repeat split; discriminate.
    + reflexivity.
    + apply E.
      * unfold synapses_sized. cbn. repeat split.
      * discriminate.
      * cbn. lra.
Defined.

(** ** The synaptic stages *)

(** X18: every step that returns, whatever the model and whether the
    neuron is refractory or not, advances both stages of every receptor:
    the second stage becomes [P21_[i] * y1 + P22_[i] * y2] from the
    values before the step, the first stage decays by [P11_[i]] and then
    jumps by [PSCInitialValues_[i]] times the weight delivered for this
    lag, and that entry of the spike buffer is cleared. *)
Theorem synaptic_stages_step (K : Kernel) (mt origin lag : Z) (loc loc' : Locals)
    (n n' : glif_psc) (i : nat) (y1 y2 p11 p21 p22 psc : R) (buf : RingBuffer) :
  synapses_sized n ->
  update_step K mt origin lag loc n = (Ok loc', n') ->
  y1_ (S_ n) !! i = Some y1 -> y2_ (S_ n) !! i = Some y2 ->
  spikes_ (B_ n) !! i = Some buf ->
  P11_ (V_ n) !! i = Some p11 -> P21_ (V_ n) !! i = Some p21 ->
  P22_ (V_ n) !! i = Some p22 -> PSCInitialValues_ (V_ n) !! i = Some psc ->
  y1_ (S_ n') !! i = Some (y1 * p11 + psc * RingBuffer_peek buf lag)
  /\ y2_ (S_ n') !! i = Some (p21 * y1 + p22 * y2)
  /\ spikes_ (B_ n') !! i = Some (delete lag buf)
  /\ RingBuffer_peek (delete lag buf) lag = 0
  /\ synapses_sized n'.
Proof.
  intros Hs E R1 R2 R3 R4 R5 R6 R7.
  destruct (update_step_receptor K mt origin lag loc n loc' n' i
              {| rc_y1 := y1; rc_y2 := y2; rc_buffer := buf; rc_P11 := p11;
                 rc_P21 := p21; rc_P22 := p22; rc_PSCInitialValue := psc |} Hs E)
    as (Hs' & _ & (Y1 & Y2 & B & _)).
  { unfold receptor_at. cbn. auto 10. }
  cbn in Y1, Y2, B. split; [exact Y1|]. split; [exact Y2|]. split; [exact B|].
  split; [|exact Hs'].
  unfold RingBuffer_peek. rewrite lookup_delete_eq. reflexivity.
Qed.

Lemma synaptic_stages_step_witness :
  exists loc' n',
    update_step example_kernel 1 0 0 spiked_locals (spiked_node 3.75 18.51)
    = (Ok loc', n')
    /\ y2_ (S_ n') !! 0%nat = Some (1 * exp (- (1) / 2.0) * 0 + exp (- (1) / 2.0) * 0).
Proof.
  destruct (update_step_hold example_kernel 1 0 0 spiked_locals
              (spiked_node 3.75 18.51)) as (loc' & n' & E & _).
  - cbn. lra.
  - cbn. lra.
  - reflexivity.
  - unfold synapses_sized. cbn. repeat split.
  - exists loc', n'. split; [exact E|].
    destruct (synaptic_stages_step example_kernel 1 0 0 spiked_locals loc'
                (spiked_node 3.75 18.51) n' 0 0 0 (exp (- (1) / 2.0))
                (1 * exp (- (1) / 2.0)) (exp (- (1) / 2.0))
                (1.0 * numerics_e / 2.0) ∅) as (_ & H & _);
      try reflexivity; [| exact E | exact H].
    unfold synapses_sized. cbn. repeat split.
Defined.

(** ** A neuron at rest *)












(** ** Events for a port that no longer exists *)

(** X20: [handle( SpikeEvent& )] does not check the receptor port of the
    event.  After [calibrate] the vector of spike buffers has
    [n_receptors_()] entries, and an event for a port above that number
    indexes it beyond its size.  Such an event can come over a connection
    that [handles_test_event] accepted before the synaptic time constants
    were shortened. *)
Theorem stale_port_is_read_out_of_range (K : Kernel) (n : glif_psc) (e : SpikeEvent) :
  (0 < delay_steps e)%Z ->
  (Z.of_nat (n_receptors_ (P_ n)) < rport e)%Z ->
  exists n1,
    calibrate K n = (Ok tt, n1)
    /\ length (spikes_ (B_ n1)) = n_receptors_ (P_ n)
    /\ handle_SpikeEvent e n1 = (OutOfRange, n1).
Proof.
  intros Hd Hr.
  destruct (calibrate_well_sized K 1 n) as (n1 & E1 & Hs & _); [discriminate|].
  destruct Hs as (_ & _ & _ & _ & _ & _ & Hlen).
  assert (HP : P_ n1 = P_ n).
  { rewrite calibrate_run in E1. injection E1 as <-. reflexivity. }
  rewrite HP in Hlen.
  exists n1. split; [exact E1|]. split; [exact Hlen|].
  unfold handle_SpikeEvent.
  destruct (0 <? delay_steps e)%Z eqn:Hpos; [|apply Z.ltb_ge in Hpos; lia].
  change (bind (assert true) ?k n1) with (k tt n1). cbv beta. run_get.
  unfold at_Z.
  destruct (rport e - 1 <? 0)%Z eqn:Hneg; [reflexivity|].
  unfold bind, at_. rewrite lookup_ge_None_2 by lia. reflexivity.
Qed.

Lemma stale_port_is_read_out_of_range_witness :
  exists n1 n2 n3,
    handles_test_event 2 (on_P (set_tau_syn_ [2.0; 3.0]) glif_psc_default)
    = (Ok 2%Z, n1)
    /\ set_status example_kernel {[names.tau_syn := DoubleVectorDatum [2.0]]} n1
       = (Ok tt, n2)
    /\ calibrate example_kernel n2 = (Ok tt, n3)
    /\ handle_SpikeEvent (unit_spike 1 0) n3 = (OutOfRange, n3).
Proof.
  set (d := {[names.tau_syn := DoubleVectorDatum [2.0]]} : Dictionary).
  set (p := P_ two_ports_connected).
  assert (E : Parameters_set d p = (Ok (E_L_ (assigned d p) - E_L_ p), assigned d p)).
  { subst d p. eval_set. }
  assert (Es : exists n2, set_status example_kernel d two_ports_connected = (Ok tt, n2)
                          /\ n_receptors_ (P_ n2) = 1%nat).
  { eexists. split.
    - unfold set_status, run. fold p. rewrite E.
      rewrite State_set_absent by (subst d; simplify_map_eq; reflexivity).
      cbn [Archiving_Node_set_status example_kernel ret]. reflexivity.
    - cbn [P_ on_S on_P on_archive]. subst d p. eval_assigned. reflexivity. }
  destruct Es as (n2 & Es & Hn).
  destruct (stale_port_is_read_out_of_range example_kernel n2 (unit_spike 1 0))
    as (n3 & E3 & _ & E4).
  - reflexivity.
  - rewrite Hn. cbn. lia.
  - exists two_ports_connected, n2, n3.
    split; [reflexivity|]. split; [exact Es|]. split; [exact E3 | exact E4].
Defined.
